(** * Emotion-based music recommendation: a shallow embedding of the
      decision logic and the proofs of its specification.

    The development follows the source tree:
    - [Py]            the Python primitives the code relies on,
    - [Config]        config.py,
    - [Camera]        utils/camera.py (the frame emotion aggregator),
    - [EmotionToSong] utils/emotion_to_song.py,
    - [SpotifyClient] utils/spotify_client.py (credential cache, dispatcher),
    - [Main]          main.py (session state, key handling).

    Python floats are embedded as rationals [Q]: every finite binary64 value
    is a rational and the comparisons agree, so the embedding is exact on
    finite values (NaN, infinities and the sign of zero are left out). A
    decimal literal such as 0.45 is written as the rational with these
    digits, which is not the binary64 value nearest to it; the values used
    below are such that both give the same comparisons, truncations and
    printed digits.
    Python strings are embedded as ASCII strings (code points below 128). *)

From Stdlib Require Import ZArith QArith Qround Qabs Lia Ascii.
From stdpp Require Import base option list gmap strings pretty.

Local Open Scope Z_scope.

(** ** Python primitives *)
Module Py.

(** Exceptions that the modelled code can raise or catch. *)
Inductive exn :=
| IndexError
| KeyError (key : string)
| TypeError (msg : string)
| RuntimeError (msg : string)
| External (msg : string).

(** [str(e)] as printed by [print("...", e)]. *)
Definition str_exn (e : exn) : string :=
  match e with
  | IndexError => "list index out of range"
  | KeyError k => "'" +:+ k +:+ "'"
  | TypeError m => m
  | RuntimeError m => m
  | External m => m
  end.

Inductive result (A : Type) :=
| Ok (a : A)
| Raise (e : exn).
Arguments Ok {A} a.
Arguments Raise {A} e.

#[export] Instance result_ret : MRet result := fun _ a => Ok a.
#[export] Instance result_bind : MBind result := fun _ _ f m =>
  match m with Ok a => f a | Raise e => Raise e end.

(** [x > y] on floats. *)
Definition Qgtb (x y : Q) : bool := negb (Qle_bool x y).

(** [int(x)]: truncation toward zero. *)
Definition trunc (q : Q) : Z := Z.quot (Qnum q) (Zpos (Qden q)).

(** [a.astype(int)] on an array of floats: truncation toward zero into
    int64; a value out of the range of int64 comes out as the least int64
    (the conversion of x86-64). *)
Definition astype_int (q : Q) : Z :=
  let z := trunc q in
  if (- 2 ^ 63 <=? z) && (z <? 2 ^ 63) then z else - 2 ^ 63.

(** [str(n)] for an int. *)
Definition str (n : Z) : string := pretty n.

(** [l[i]]: negative indices count from the end, out of range raises. *)
Definition index {A} (l : list A) (i : Z) : result A :=
  let j := if i <? 0 then Z.of_nat (length l) + i else i in
  if j <? 0 then Raise IndexError
  else match l !! Z.to_nat j with
       | Some x => Ok x
       | None => Raise IndexError
       end.

(** [max(l, key=key)] on a non-empty list whose head is [best]: the first
    element with the largest key. *)
Fixpoint max_by {A} (key : A -> Q) (best : A) (l : list A) : A :=
  match l with
  | [] => best
  | x :: l' => max_by key (if Qgtb (key x) (key best) then x else best) l'
  end.

(** [s.lower()] on ASCII text. *)
Definition lower_ascii (c : ascii) : ascii :=
  let n := N_of_ascii c in
  if ((65 <=? n) && (n <=? 90))%N then ascii_of_N (n + 32) else c.

Fixpoint lower (s : string) : string :=
  match s with
  | EmptyString => EmptyString
  | String c s' => String (lower_ascii c) (lower s')
  end.

Fixpoint startswith (s p : string) : bool :=
  match p, s with
  | EmptyString, _ => true
  | String a p', String b s' => if decide (a = b) then startswith s' p' else false
  | String _ _, EmptyString => false
  end.

(** Nearest integer to a non-negative rational, ties to even: the rounding
    of a correctly rounded decimal conversion. *)
Definition round_half_even (q : Q) : Z :=
  let n := Qnum q in
  let d := Zpos (Qden q) in
  let k := n / d in
  let r := n mod d in
  if 2 * r <? d then k
  else if d <? 2 * r then k + 1
  else if Z.even k then k else k + 1.

(** [f"{x:0.2f}"]. *)
Definition fmt_2f (x : Q) : string :=
  let k := round_half_even (Qabs x * 100) in
  let frac := k mod 100 in
  (if Qnum x <? 0 then "-" else "") +:+ pretty (k / 100) +:+ "." +:+
  (if frac <? 10 then "0" else "") +:+ pretty frac.

(** Truthiness of a string ([if s:]). *)
Definition truthy_str (s : string) : bool :=
  match s with EmptyString => false | _ => true end.

End Py.
Import Py.

(** ** config.py *)
Module Config.

Definition MODEL_PATH : string := "best.pt".
Definition CONFIDENCE : Q := 0.45.

(** Emotion labels in order as trained. *)
Definition EMOTION_NAMES : list string :=
  ["anger"; "content"; "disgust"; "fear"; "happy"; "neutral"; "sad"; "surprise"].

End Config.

(** ** utils/camera.py *)
Module Camera.
Import Config.

Definition color : Type := Z * Z * Z.
Definition rect : Type := Z * Z * Z * Z.

(** The drawing calls made on a frame ([cv2.rectangle], [cv2.putText] with
    [FONT_HERSHEY_SIMPLEX]). *)
Inductive draw_op :=
| Rectangle (pt1 pt2 : Z * Z) (c : color) (thickness : Z)
| PutText (text : string) (org : Z * Z) (scale : Q) (c : color) (thickness : Z).

(** A camera frame: its [shape[:2]], the captured image (opaque to this
    code) and the drawings made on it so far, in order. Drawing mutates the
    frame, and a crop is a view of the frame as drawn so far. *)
Record frame := {
  shape : Z * Z;
  pixels : N;
  drawn : list draw_op
}.

Definition draw (op : draw_op) (f : frame) : frame :=
  {| shape := shape f; pixels := pixels f; drawn := drawn f ++ [op] |}.

(** What is passed as [source=] to the model: [frame[y1:y2, x1:x2]] or the
    frame itself. *)
Inductive source :=
| Crop (f : frame) (y1 y2 x1 x2 : Z)
| Whole (f : frame).

(** One row of [boxes.xyxy], [boxes.cls], [boxes.conf]. *)
Record raw_box := {
  xyxy : Q * Q * Q * Q;
  cls : Q;
  conf : Q
}.

(** One ultralytics [Results] object; [boxes] may be missing. *)
Record results := { boxes : option (list raw_box) }.

(** The detection model: [model.predict(source, imgsz, conf, iou)]. *)
Record model := { predict : source -> Z -> Q -> Q -> list results }.

(** The Haar cascade:
    [detectMultiScale(gray, scaleFactor, minNeighbors, minSize)], with
    [gray] the grayscale of the frame given. *)
Record cascade := {
  detectMultiScale : frame -> Q -> Z -> Z * Z -> list rect
}.

(** (x1, y1, x2, y2, class_id, conf) *)
Definition detection : Type := Z * Z * Z * Z * Z * Q.
Definition det_cls (d : detection) : Z := d.1.2.
Definition det_conf (d : detection) : Q := d.2.

Definition read_box (b : raw_box) : detection :=
  let '(x1, y1, x2, y2) := xyxy b in
  (astype_int x1, astype_int y1, astype_int x2, astype_int y2,
   astype_int (cls b), conf b).

Definition _read_results (rs : list results) : list detection :=
  match rs with
  | [] => []
  | r :: _ =>
      match boxes r with
      | None => []
      | Some bs => map read_box bs
      end
  end.

(** Returns the top class and confidence, or (None, 0.0). *)
Definition predict_on_face_crop (m : model) (crop : source)
    (imgsz : Z) (conf iou : Q) : option Z * Q :=
  match _read_results (predict m crop imgsz conf iou) with
  | [] => (None, 0%Q)
  | d :: ds =>
      let best := max_by det_conf d ds in
      (Some (det_cls best), det_conf best)
  end.

(** The local variables of [detect_and_draw] that outlive an iteration,
    with the log of the sources handed to [model.predict] so far. *)
Record dd_state := {
  dd_frame : frame;
  dominant_emotion : option string;
  dominant_conf : Q;
  predict_calls : list source
}.

Definition len_names : Z := Z.of_nat (length EMOTION_NAMES).

(** [EMOTION_NAMES[cls_id] if cls_id < len(EMOTION_NAMES) else other] *)
Definition name_or (other : string) (cls_id : Z) : result string :=
  if cls_id <? len_names then index EMOTION_NAMES cls_id else Ok other.

(** Lines 80-82 and 93-95: the update of the dominant emotion. *)
Definition update_dominant (cls_id : option Z) (cls_conf : Q)
    (dom : option string * Q) : result (option string * Q) :=
  match cls_id with
  | Some c =>
      if Qgtb cls_conf dom.2 then
        name ← name_or (str c) c;
        mret (Some name, cls_conf)
      else mret dom
  | None => mret dom
  end.

(** Lines 85 and 96: the text drawn next to a box. *)
Definition box_label (cls_id : option Z) (cls_conf : Q) : result string :=
  match cls_id with
  | Some c =>
      name ← name_or "..." c;
      mret (name +:+ " " +:+ fmt_2f cls_conf)
  | None => mret "..."
  end.

(** Lines 72-76: the face rectangle (x, y, fw, fh) grown by 15% of its
    larger side and clamped to the frame, as (x1, y1, x2, y2). The product
    [0.15 * max(fw, fh)] is taken exactly: for the side lengths of an
    image the binary64 product truncates to the same integer. *)
Definition padded (h w : Z) (face : rect) : rect :=
  let '(x, y, fw, fh) := face in
  let pad := trunc (0.15 * inject_Z (Z.max fw fh))%Q in
  let x1 := Z.max 0 (x - pad) in
  let y1 := Z.max 0 (y - pad) in
  let x2 := Z.min w (x + fw + pad) in
  let y2 := Z.min h (y + fh + pad) in
  (x1, y1, x2, y2).

(** The body of the loop over the faces (lines 72-87). *)
Definition face_step (m : model) (imgsz : Z) (conf iou : Q) (h w : Z)
    (st : dd_state) (face : rect) : result dd_state :=
  let '(x1, y1, x2, y2) := padded h w face in
  let crop := Crop (dd_frame st) y1 y2 x1 x2 in
  let '(cls_id, cls_conf) := predict_on_face_crop m crop imgsz conf iou in
  dom ← update_dominant cls_id cls_conf (dominant_emotion st, dominant_conf st);
  label ← box_label cls_id cls_conf;
  let fr := draw (Rectangle (x1, y1) (x2, y2) (0, 200, 0) 2) (dd_frame st) in
  let fr := draw (PutText label (x1, y1 - 8) 0.7%Q (0, 200, 0) 2) fr in
  mret {| dd_frame := fr; dominant_emotion := dom.1; dominant_conf := dom.2;
          predict_calls := predict_calls st ++ [crop] |}.

(** The body of the loop over the whole-frame detections (lines 93-98). *)
Definition det_step (st : dd_state) (d : detection) : result dd_state :=
  let '(x1, y1, x2, y2, cls_id, cls_conf) := d in
  dom ← update_dominant (Some cls_id) cls_conf (dominant_emotion st, dominant_conf st);
  label ← box_label (Some cls_id) cls_conf;
  let fr := draw (Rectangle (x1, y1) (x2, y2) (255, 100, 0) 2) (dd_frame st) in
  let fr := draw (PutText label (x1, y1 - 8) 0.7%Q (255, 100, 0) 2) fr in
  mret {| dd_frame := fr; dominant_emotion := dom.1; dominant_conf := dom.2;
          predict_calls := predict_calls st |}.

(** [for x in xs: st = body(st, x)], stopping at the first exception. *)
Fixpoint for_each {S A} (body : S -> A -> result S) (st : S) (xs : list A)
    : result S :=
  match xs with
  | [] => mret st
  | x :: xs' => st' ← body st x; for_each body st' xs'
  end.

(** Returns the annotated frame, the dominant emotion name or None, and
    its confidence (and the log of the model calls). *)
Definition detect_and_draw (fr : frame) (m : model) (face_cascade : cascade)
    (imgsz : Z) (conf iou : Q) : result dd_state :=
  let '(h, w) := shape fr in
  let faces := detectMultiScale face_cascade fr 1.1%Q 5 (40, 40) in
  let st := {| dd_frame := fr; dominant_emotion := None; dominant_conf := 0%Q;
               predict_calls := [] |} in
  if 0 <? Z.of_nat (length faces) then
    for_each (face_step m imgsz conf iou h w) st faces
  else
    let results := predict m (Whole fr) imgsz conf iou in
    let st := {| dd_frame := fr; dominant_emotion := None; dominant_conf := 0%Q;
                 predict_calls := [Whole fr] |} in
    let dets := _read_results results in
    for_each det_step st dets.

End Camera.

(** ** utils/emotion_to_song.py *)
Module EmotionToSong.

(** Maps emotion to playlist URI. *)
Definition PLAYLISTS : gmap string string :=
  list_to_map [
    ("anger", "spotify:playlist:37i9dQZF1DX8tZsk68tuDw");
    ("content", "spotify:playlist:37i9dQZF1DX4WYpdgoIcn6");
    ("disgust", "spotify:playlist:37i9dQZF1DX4VvfRBFClxm");
    ("fear", "spotify:playlist:37i9dQZF1DWXRqgorJj26U");
    ("happy", "spotify:playlist:37i9dQZF1DXdPec7aLTmlC");
    ("neutral", "spotify:playlist:37i9dQZF1DX4sWSpwq3LiO");
    ("sad", "spotify:playlist:37i9dQZF1DX7qK8ma5wgG1");
    ("surprise", "spotify:playlist:37i9dQZF1DXcBWIGoYBM5M")
  ].

Definition get_playlist_for_emotion (emotion : string) : option string :=
  PLAYLISTS !! lower emotion.

End EmotionToSong.

(** ** The world outside the program

    The external collaborators (clock, OAuth client, web API, browser,
    console, operating system) answer through the fields of [env]; the
    program's effects on them are recorded, in order, in the [log] of the
    [state], next to the files it reads and writes. *)
Module World.

(** JSON values found in a token record. *)
Inductive jval :=
| JNull
| JInt (n : Z)
| JStr (s : string).

Definition truthy (v : jval) : bool :=
  match v with
  | JNull => false
  | JInt n => negb (n =? 0)
  | JStr s => truthy_str s
  end.

(** A token record, as the dict that [json] loads and dumps. *)
Abbreviation token_info := (gmap string jval).

Inductive file :=
| Json (t : token_info)
| Garbage (e : exn).

(** A [spotipy.Spotify] client. *)
Record spotify := { auth : jval }.

(** An entry of the device list. *)
Record device := { id : option string; is_active : bool }.

Inductive event :=
| Print (line : string)
| Imshow (title : string) (f : Camera.frame)
| Lookup (emotion : string)
| WriteCache (path : string) (t : token_info)
| RemoveCache (path : string)
| OpenBrowser (url : string)
| Input (prompt : string)
| ExchangeCode (code : option string)
| RefreshToken (refresh_token : jval)
| Devices
| StartPlayback (device_id context_uri : string)
| Startfile (uri : string)
| CmdStart (uri : string).

(** How [with open(path, "w") as fh: json.dump(t, fh)] fails. Either
    [open] raises, and the file is as before; or the file is opened, hence
    truncated, and the exception comes while the text is written or the
    file closed: the file is left with the text written so far, which is
    the whole text ([partial] is None) or a part of it, empty or not, on
    which [json.load] raises ([partial] is that exception). *)
Inductive write_failure :=
| OpenFails (x : exn)
| DumpFails (x : exn) (partial : option exn).

Definition failure_exn (w : write_failure) : exn :=
  match w with OpenFails x | DumpFails x _ => x end.

Record env := {
  (** [int(time.time())] *)
  now : Z;
  (** how writing a file fails, the error of removing a file *)
  write_error : option write_failure;
  remove_error : option exn;
  (** the [SpotifyOAuth] client *)
  get_authorize_url : string;
  parse_response_code : string -> option string;
  get_access_token : option string -> result token_info;
  refresh_access_token : jval -> result token_info;
  is_token_expired : token_info -> result bool;
  (** [input(prompt)] and the [code] query parameter of a URL
      ([urlparse], [parse_qs]) *)
  input : result string;
  query_code : string -> option string;
  (** [webbrowser.open], [os.startfile], [subprocess.run] *)
  webbrowser_open : string -> result unit;
  os_startfile : string -> result unit;
  subprocess_run : string -> result unit;
  (** the web API: [sp.devices().get("devices", [])], [sp.start_playback] *)
  api_devices : spotify -> result (list device);
  api_start_playback : spotify -> string -> string -> result unit
}.

Record state := {
  fs : gmap string file;
  log : list event
}.

(** Computations that read the environment, change the state and may
    raise; the state changes made before an exception stay. *)
Definition M (A : Type) : Type := env -> state -> result A * state.

#[export] Instance M_ret : MRet M := fun _ a _ st => (Ok a, st).
#[export] Instance M_bind : MBind M := fun _ _ f m e st =>
  match m e st with
  | (Ok a, st') => f a e st'
  | (Raise x, st') => (Raise x, st')
  end.

Definition raise {A} (x : exn) : M A := fun _ st => (Raise x, st).
Definition lift {A} (r : result A) : M A := fun _ st => (r, st).
Definition ask {A} (f : env -> A) : M A := fun e st => (Ok (f e), st).
Definition get_fs : M (gmap string file) := fun _ st => (Ok (fs st), st).
Definition set_fs (g : gmap string file) : M unit :=
  fun _ st => (Ok tt, {| fs := g; log := log st |}).
Definition emit (ev : event) : M unit :=
  fun _ st => (Ok tt, {| fs := fs st; log := log st ++ [ev] |}).

(** [try: body / except Exception as e: handler(e)] *)
Definition try_except {A} (body : M A) (handler : exn -> M A) : M A :=
  fun e st =>
    match body e st with
    | (Ok a, st') => (Ok a, st')
    | (Raise x, st') => handler x e st'
    end.

(** [print(a, b)] writes the arguments separated by a space. *)
Definition print (line : string) : M unit := emit (Print line).
Definition print2 (a b : string) : M unit := emit (Print (a +:+ " " +:+ b)).

(** [d.get(key, default)] and [d[key]]. *)
Definition dict_get (d : token_info) (key : string) (default : jval) : jval :=
  match d !! key with Some v => v | None => default end.

Definition dict_item (d : token_info) (key : string) : result jval :=
  match d !! key with Some v => Ok v | None => Raise (KeyError key) end.

(** Truthiness of a dict or None ([if token_info:]). *)
Definition truthy_dict (t : option token_info) : bool :=
  match t with
  | Some d => negb (bool_decide (d = ∅))
  | None => false
  end.

(** [type(v).__name__] *)
Definition type_name (v : jval) : string :=
  match v with
  | JNull => "NoneType"
  | JInt _ => "int"
  | JStr _ => "str"
  end.

(** [a - b] with [b] an int. *)
Definition sub_int (a : jval) (b : Z) : result Z :=
  match a with
  | JInt n => Ok (n - b)
  | _ => Raise (TypeError ("unsupported operand type(s) for -: '" +:+
                           type_name a +:+ "' and 'int'"))
  end.

End World.

(** ** utils/spotify_client.py *)
Module SpotifyClient.
Import World.

(** Path to cache file (relative). *)
Definition CACHE_PATH : string := ".cache-spotify".

(** OAuth scopes required. *)
Definition SCOPE : string :=
  "user-read-playback-state user-modify-playback-state user-read-currently-playing".

(** The [SpotifyOAuth] object of [_build_oauth]; its methods are the
    OAuth fields of [env]. *)
Record oauth_client := { scope : string; cache_path : option string; show_dialog : bool }.

Definition _build_oauth : oauth_client :=
  {| scope := SCOPE; cache_path := None; show_dialog := false |}.

(** The file that a write of [token_info] leaves when it fails after the
    file was opened. *)
Definition left_by (partial : option exn) (token_info : token_info) : file :=
  match partial with
  | Some e => Garbage e
  | None => Json token_info
  end.

Definition _write_cache (path : string) (token_info : token_info) : M unit :=
  try_except
    (emit (WriteCache path token_info);;
     err ← ask write_error;
     match err with
     | Some (OpenFails e) => raise e
     | Some (DumpFails e partial) =>
         files ← get_fs;
         set_fs (<[path := left_by partial token_info]> files);;
         raise e
     | None => files ← get_fs; set_fs (<[path := Json token_info]> files)
     end)
    (fun e => print2 "Failed writing token cache:" (str_exn e)).

Definition _read_cache (path : string) : M (option token_info) :=
  files ← get_fs;
  match files !! path with
  | None => mret None
  | Some (Json t) => mret (Some t)
  | Some (Garbage e) =>
      print2 "Failed reading token cache:" (str_exn e);; mret None
  end.

(** [s.strip()] on ASCII text: the white space of Python below 128 is
    the characters 9 to 13 and 28 to 32. *)
Definition is_space (c : ascii) : bool :=
  let n := N_of_ascii c in
  (((9 <=? n) && (n <=? 13)) || ((28 <=? n) && (n <=? 32)))%N.

Fixpoint lstrip (s : string) : string :=
  match s with
  | String c s' => if is_space c then lstrip s' else s
  | EmptyString => EmptyString
  end.

Fixpoint rstrip (s : string) : string :=
  match s with
  | String c s' =>
      match rstrip s' with
      | EmptyString => if is_space c then EmptyString else String c EmptyString
      | r => String c r
      end
  | EmptyString => EmptyString
  end.

Definition strip (s : string) : string := rstrip (lstrip s).

(** [if not code:] for a string or None. *)
Definition truthy_opt (s : option string) : bool :=
  match s with Some s => truthy_str s | None => false end.

(** Run interactive auth (opens browser), returns the token record.
    Also writes the cache to CACHE_PATH. *)
Definition run_interactive_auth : M token_info :=
  let oauth := _build_oauth in
  auth_url ← ask get_authorize_url;
  print "Opening browser for Spotify authorization (first-time only).";;
  print auth_url;;
  emit (OpenBrowser auth_url);;
  (opened ← ask webbrowser_open; lift (opened auth_url));;
  print "After authorizing, Spotify will redirect to the redirect URI.";;
  print "Copy the full redirect URL from the browser address bar and paste it here.";;
  emit (Input "Paste redirect URL: ");;
  line ← (r ← ask input; lift r);
  let redirect_response := strip line in
  code ← (f ← ask parse_response_code; mret (f redirect_response));
  code ← (if truthy_opt code then mret code
          else f ← ask query_code; mret (f redirect_response));
  emit (ExchangeCode code);;
  token_info ← (f ← ask get_access_token; lift (f code));
  _write_cache CACHE_PATH token_info;;
  mret token_info.

(** Returns (sp, oauth, token_info). *)
Definition ensure_spotify_client : M (spotify * oauth_client * token_info) :=
  let oauth := _build_oauth in
  token_info ← _read_cache CACHE_PATH;
  token_info ←
    (if truthy_dict token_info then
       let t := default ∅ token_info in
       let expires_at := dict_get t "expires_at" (JInt 0) in
       now ← ask now;
       remaining ← lift (sub_int expires_at now);
       if remaining <? 60 then
         let refresh_token := dict_get t "refresh_token" JNull in
         if truthy refresh_token then
           try_except
             (emit (RefreshToken refresh_token);;
              new_token ← (f ← ask refresh_access_token; lift (f refresh_token));
              _write_cache CACHE_PATH new_token;;
              mret (Some new_token))
             (fun e => print2 "Refresh failed:" (str_exn e);; mret None)
         else mret None
       else mret token_info
     else mret token_info);
  token_info ←
    (if negb (truthy_dict token_info) then
       t ← run_interactive_auth; mret (Some t)
     else mret token_info);
  let t := default ∅ token_info in
  access_token ← lift (dict_item t "access_token");
  mret ({| auth := access_token |}, oauth, t).

(** The first active device, else the first device; None when there is
    no device or the call fails. *)
Definition get_active_device_id (sp : spotify) : M (option string) :=
  try_except
    (emit Devices;;
     devices ← (f ← ask api_devices; lift (f sp));
     match devices with
     | [] => mret None
     | d0 :: _ =>
         match List.find is_active devices with
         | Some d => mret (id d)
         | None => mret (id d0)
         end
     end)
    (fun e => print2 "devices() error:" (str_exn e);; mret None).

(** [playlist_uri.split(":")[-1]] *)
Fixpoint last_segment (s : string) : string :=
  match s with
  | EmptyString => EmptyString
  | String c s' =>
      if bool_decide (":"%char ∈ String.list_ascii_of_string s') then last_segment s'
      else if bool_decide (c = ":"%char) then s'
      else s
  end.

(** The launch of the playlist outside the API (lines 151-166). *)
Definition fallback_launch (playlist_uri : string) : M unit :=
  try_except
    (if startswith playlist_uri "spotify:playlist:" then
       try_except
         (emit (Startfile playlist_uri);;
          f ← ask os_startfile; lift (f playlist_uri))
         (fun _ =>
            try_except
              (emit (CmdStart playlist_uri);;
               f ← ask subprocess_run; lift (f playlist_uri))
              (fun _ =>
                 let pid := last_segment playlist_uri in
                 let url := "https://open.spotify.com/playlist/" +:+ pid in
                 emit (OpenBrowser url);;
                 f ← ask webbrowser_open; lift (f url)))
     else
       emit (OpenBrowser playlist_uri);;
       f ← ask webbrowser_open; lift (f playlist_uri))
    (fun e2 => print2 "Fallback error:" (str_exn e2)).

(** Returns True if API playback succeeded; False otherwise (fallback
    used). *)
Definition start_playback (sp : spotify) (oauth : option oauth_client)
    (token_info : token_info) (playlist_uri : string) : M bool :=
  try_except
    ('(sp, token_info) ←
       (expired ← (match oauth with
                   | Some _ => f ← ask is_token_expired; lift (f token_info)
                   | None => mret false
                   end);
        if (expired : bool) then
          refresh_token ← lift (dict_item token_info "refresh_token");
          emit (RefreshToken refresh_token);;
          token_info ← (f ← ask refresh_access_token; lift (f refresh_token));
          _write_cache CACHE_PATH token_info;;
          access_token ← lift (dict_item token_info "access_token");
          mret ({| auth := access_token |}, token_info)
        else mret (sp, token_info));
     dev_id ← get_active_device_id sp;
     match dev_id with
     | Some dev =>
         if truthy_str dev then
           emit (StartPlayback dev playlist_uri);;
           (f ← ask api_start_playback; lift (f sp dev playlist_uri));;
           mret true
         else raise (RuntimeError "No active Spotify device found")
     | None => raise (RuntimeError "No active Spotify device found")
     end)
    (fun e =>
       print2 "API playback failed:" (str_exn e);;
       fallback_launch playlist_uri;;
       mret false).

(** Delete cache; the next [ensure_spotify_client] call re-runs
    interactive auth. *)
Definition force_reauth : M unit :=
  try_except
    (files ← get_fs;
     if bool_decide (is_Some (files !! CACHE_PATH)) then
       emit (RemoveCache CACHE_PATH);;
       err ← ask remove_error;
       match err with
       | Some e => raise e
       | None =>
           set_fs (delete CACHE_PATH files);;
           print2 "Deleted cache:" CACHE_PATH
       end
     else mret tt)
    (fun e => print2 "Failed to delete cache:" (str_exn e)).

End SpotifyClient.

(** ** main.py *)
Module Main.
Import Config Camera EmotionToSong World SpotifyClient.

(** The last dominant emotion kept across frames. *)
Record session := {
  current_emotion : option string;
  current_conf : Q
}.

Definition initial_session : session :=
  {| current_emotion := None; current_conf := 0%Q |}.

Inductive control := Continue | Break.

(** Lines 60-63: keep track of the current dominant emotion. *)
Definition track (s : session) (dom_emotion : option string) (dom_conf : Q)
    : session :=
  if truthy_opt dom_emotion then
    {| current_emotion := dom_emotion; current_conf := dom_conf |}
  else s.

(** [f"Current: {current_emotion or 'None'} (conf {current_conf:.2f})"] *)
Definition status_line (s : session) : string :=
  "Current: " +:+
  (if truthy_opt (current_emotion s) then default "None" (current_emotion s)
   else "None") +:+
  " (conf " +:+ fmt_2f (current_conf s) +:+ ")".

(** Lines 96-115: authorization and playback of the playlist found. *)
Definition dispatch (playlist_uri : string) : M control :=
  client ← try_except
    (c ← ensure_spotify_client; mret (Some c))
    (fun e =>
       print2 "Spotify authorization failed:" (str_exn e);;
       print "If you want to re-auth manually, press 'r' and try again.";;
       mret None);
  match client with
  | None => mret Continue
  | Some (sp, oauth, token_info) =>
      try_except
        (ok ← start_playback sp (Some oauth) token_info playlist_uri;
         if (ok : bool) then print "Playback started via Spotify API."
         else print "Playback fallback used (opened app/web).")
        (fun e => print2 "Playback process raised an exception:" (str_exn e));;
      print "Done. Exiting program.";;
      mret Break
  end.

(** Lines 85-115: the 'q' key. The call of [get_playlist_for_emotion] is
    recorded in the log. *)
Definition capture (s : session) : M control :=
  match current_emotion s with
  | None =>
      print "No emotion detected yet. Keep your face in frame and try again.";;
      mret Continue
  | Some emotion =>
      print ("Captured emotion: " +:+ emotion +:+ " (conf " +:+
             fmt_2f (current_conf s) +:+ ")");;
      emit (Lookup emotion);;
      let playlist_uri := get_playlist_for_emotion emotion in
      if negb (truthy_opt playlist_uri) then
        print2 "No playlist mapped for emotion:" emotion;;
        mret Continue
      else dispatch (default "" playlist_uri)
  end.

(** One pass through the body of the [while True] loop (lines 52-115):
    [tick] is what [cap.read()] and [cv2.waitKey(1) & 0xFF] give. *)
Definition iteration (m : model) (face_cascade : cascade)
    (tick : option frame * Z) (s : session) : M (control * session) :=
  let '(read, key) := tick in
  match read with
  | None =>
      print "Failed to read frame from webcam.";;
      mret (Break, s)
  | Some fr =>
      out ← lift (detect_and_draw fr m face_cascade 640 CONFIDENCE 0.45%Q);
      let s := track s (dominant_emotion out) (dominant_conf out) in
      let annotated :=
        draw (PutText (status_line s) (10, 30) 0.85%Q (255, 255, 255) 2)
             (dd_frame out) in
      emit (Imshow "Emotion Recommender - press q to capture" annotated);;
      if key =? 27 then
        print "Exit requested. Goodbye.";;
        mret (Break, s)
      else if key =? 114 then
        print "Forcing re-auth: deleting cached token and will re-authorize on next play.";;
        try_except force_reauth
          (fun e => print2 "Error forcing reauth:" (str_exn e));;
        mret (Continue, s)
      else if key =? 113 then
        c ← capture s;
        mret (c, s)
      else mret (Continue, s)
  end.

(** The [while True] loop over the ticks that the camera and the keyboard
    deliver, from the session given. *)
Fixpoint main_loop (m : model) (face_cascade : cascade)
    (ticks : list (option frame * Z)) (s : session) : M session :=
  match ticks with
  | [] => mret s
  | tick :: ticks' =>
      '(c, s') ← iteration m face_cascade tick s;
      match c with
      | Break => mret s'
      | Continue => main_loop m face_cascade ticks' s'
      end
  end.

End Main.

(** ** Vocabulary of the specification *)
Module Spec.
Import Config Camera EmotionToSong World SpotifyClient Main.

(** The model reports class indices, never a negative number. *)
Definition ids_nonneg (m : model) : Prop :=
  forall src imgsz conf iou d,
    d ∈ _read_results (predict m src imgsz conf iou) -> 0 <= det_cls d.

(** The model reports detections above a threshold: their confidence is
    positive. *)
Definition confs_positive (m : model) : Prop :=
  forall src imgsz conf iou d,
    d ∈ _read_results (predict m src imgsz conf iou) -> (0 < det_conf d)%Q.

(** The classification results of the sources handed to the model, in
    the order of the calls. *)
Definition face_results (m : model) (imgsz : Z) (conf iou : Q)
    (calls : list source) : list (option Z * Q) :=
  map (fun src => predict_on_face_crop m src imgsz conf iou) calls.

(** The results of the detections of one whole-frame call. *)
Definition det_results (dets : list detection) : list (option Z * Q) :=
  map (fun d => (Some (det_cls d), det_conf d)) dets.

(** [src] is the crop of the face rectangle [face], padded. *)
Definition crop_of (h w : Z) (face : rect) (src : source) : Prop :=
  exists f, src = let '(x1, y1, x2, y2) := padded h w face in Crop f y1 y2 x1 x2.

(** The highest-confidence-wins rule from a starting dominant: starting
    from ([e0], [q0]), the results [rs] leave the dominant ([e], [q]) when
    either none of them exceeds [q0] and the dominant is unchanged, or the
    dominant is the result at some index [i], which exceeds [q0], is
    strictly above every earlier result and not below any result. *)
Definition dominant_from (rs : list (option Z * Q))
    (e0 : option string) (q0 : Q) (e : option string) (q : Q) : Prop :=
  (e = e0 /\ q = q0 /\
   forall j c' q', rs !! j = Some (Some c', q') -> (q' <= q0)%Q)
  \/
  (exists (i : nat) c name,
      rs !! i = Some (Some c, q) /\
      name_or (str c) c = Ok name /\ e = Some name /\ (q0 < q)%Q /\
      (forall j c' q', rs !! j = Some (Some c', q') -> (q' <= q)%Q) /\
      (forall j c' q', (j < i)%nat -> rs !! j = Some (Some c', q') -> (q' < q)%Q)).

(** The same rule from (None, 0.0) over positive confidences: the dominant
    ([e], [q]) is the first of the results [rs] with the largest confidence;
    with no result at all it is (None, 0.0). *)
Definition first_max (rs : list (option Z * Q)) (e : option string) (q : Q)
    : Prop :=
  (Forall (fun r => r = (None, 0%Q)) rs /\ e = None /\ q = 0%Q)
  \/
  (exists (i : nat) c name,
      rs !! i = Some (Some c, q) /\
      name_or (str c) c = Ok name /\ e = Some name /\
      (forall j c' q', rs !! j = Some (Some c', q') -> (q' <= q)%Q) /\
      (forall j c' q', (j < i)%nat -> rs !! j = Some (Some c', q') -> (q' < q)%Q)).

(** The code that the interactive flow exchanges, given the line that the
    user pastes. *)
Definition pasted_code (e : env) (line : string) : option string :=
  let redirect_response := strip line in
  let code := parse_response_code e redirect_response in
  if truthy_opt code then code else query_code e redirect_response.

(** The interactive flow goes through: the browser opens, the user pastes
    [line], and the exchange of its code yields the record [t]. *)
Definition interactive_succeeds (e : env) (line : string) (t : token_info)
    : Prop :=
  webbrowser_open e (get_authorize_url e) = Ok tt /\
  input e = Ok line /\
  get_access_token e (pasted_code e line) = Ok t.

(** What such a flow adds to the log. *)
Definition interactive_events (e : env) (line : string) (t : token_info)
    : list event :=
  [Print "Opening browser for Spotify authorization (first-time only).";
   Print (get_authorize_url e);
   OpenBrowser (get_authorize_url e);
   Print "After authorizing, Spotify will redirect to the redirect URI.";
   Print "Copy the full redirect URL from the browser address bar and paste it here.";
   Input "Paste redirect URL: ";
   ExchangeCode (pasted_code e line);
   WriteCache CACHE_PATH t].

(** The device that the dispatcher settles on in a device list: the first
    one flagged active, else the first of the list, none in an empty
    list. *)
Inductive chooses : list device -> option device -> Prop :=
| chooses_none : chooses [] None
| chooses_active ds (i : nat) d :
    ds !! i = Some d ->
    is_active d = true ->
    (forall (j : nat) d', (j < i)%nat -> ds !! j = Some d' -> is_active d' = false) ->
    chooses ds (Some d)
| chooses_first d0 ds :
    Forall (fun d => is_active d = false) (d0 :: ds) ->
    chooses (d0 :: ds) (Some d0).

(** Counting the events of a kind in a stretch of the log. *)
Definition count (kind : event -> bool) (l : list event) : nat :=
  length (List.filter kind l).

Definition is_start_playback (ev : event) : bool :=
  match ev with StartPlayback _ _ => true | _ => false end.

(** The entry of the launch outside the API: the URI handler of the
    operating system for a playlist URI, the browser for any other
    string. *)
Definition is_launch (uri : string) (ev : event) : bool :=
  match ev with
  | Startfile u => startswith uri "spotify:playlist:" && bool_decide (u = uri)
  | OpenBrowser u => negb (startswith uri "spotify:playlist:") && bool_decide (u = uri)
  | _ => false
  end.

(** [name] with the letters marked in [mask] in upper case. *)
Definition upper_ascii (c : ascii) : ascii :=
  let n := N_of_ascii c in
  if ((97 <=? n) && (n <=? 122))%N then ascii_of_N (n - 32) else c.

Fixpoint recase (mask : list bool) (name : string) : string :=
  match name, mask with
  | String c name', true :: mask' => String (upper_ascii c) (recase mask' name')
  | String c name', false :: mask' => String c (recase mask' name')
  | _, _ => name
  end.

(** The events of an authorization, silent or interactive. *)
Definition is_authorization (ev : event) : bool :=
  match ev with
  | OpenBrowser _ | Input _ | ExchangeCode _ | RefreshToken _ => true
  | _ => false
  end.

(** The interactive path of [ensure_spotify_client]: line 110, then the
    construction of the client (lines 112-113). *)
Definition interactive_path : M (spotify * oauth_client * token_info) :=
  t ← run_interactive_auth;
  access_token ← lift (dict_item t "access_token");
  mret ({| auth := access_token |}, _build_oauth, t).

End Spec.

(** ** Concrete inputs used by the examples *)
Module Examples.
Import Config Camera EmotionToSong World SpotifyClient Main.

Definition blank : frame := {| shape := (480, 640); pixels := 0%N; drawn := [] |}.

Definition box (c q : Q) : raw_box :=
  {| xyxy := (1.5, 2.5, 30.2, 40.9)%Q; cls := c; conf := q |}.

(** Two faces, one face, no face. *)
Definition two_faces : cascade :=
  {| detectMultiScale := fun _ _ _ _ => [(10, 10, 100, 120); (300, 50, 80, 80)] |}.
Definition one_face : cascade :=
  {| detectMultiScale := fun _ _ _ _ => [(10, 10, 100, 120)] |}.
Definition no_face : cascade :=
  {| detectMultiScale := fun _ _ _ _ => [] |}.

(** A model that sees "happy" at 0.9 and "disgust" at 0.7 in every image. *)
Definition happy_model : model :=
  {| predict := fun _ _ _ _ => [ {| boxes := Some [box 4 0.9; box 2 0.7] |} ] |}.

(** A model that reports the class id 8, beyond the enumeration, at 0.9. *)
Definition id8_model : model :=
  {| predict := fun _ _ _ _ => [ {| boxes := Some [box 8 0.9] |} ] |}.

(** A model that sees "happy" at 0.9 in the left half of the frame and
    "sad" at 0.9 in the right half. *)
Definition tie_model : model :=
  {| predict := fun src _ _ _ =>
       match src with
       | Crop _ _ _ x1 _ =>
           if x1 <? 200 then [ {| boxes := Some [box 4 0.9] |} ]
           else [ {| boxes := Some [box 6 0.9] |} ]
       | Whole _ => [ {| boxes := Some [box 4 0.9; box 6 0.9] |} ]
       end |}.

(** A model that sees "disgust" at 0.7 on the left and "happy" at 0.9 on
    the right. *)
Definition rising_model : model :=
  {| predict := fun src _ _ _ =>
       match src with
       | Crop _ _ _ x1 _ =>
           if x1 <? 200 then [ {| boxes := Some [box 2 0.7] |} ]
           else [ {| boxes := Some [box 4 0.9] |} ]
       | Whole _ => []
       end |}.

(** A model that sees "happy" at 0.9 in the image 0 and nothing in any
    other image. *)
Definition first_image_model : model :=
  {| predict := fun src _ _ _ =>
       let f := match src with Crop f _ _ _ _ => f | Whole f => f end in
       if (pixels f =? 0)%N then [ {| boxes := Some [box 4 0.9] |} ]
       else [ {| boxes := Some [] |} ] |}.

Definition image (n : N) : frame := {| shape := (480, 640); pixels := n; drawn := [] |}.

(** A model that finds nothing. *)
Definition blind_model : model :=
  {| predict := fun _ _ _ _ => [ {| boxes := Some [] |} ] |}.

(** Token records: as refreshed, as granted by the interactive flow. *)
Definition refreshed : token_info :=
  {[ "access_token" := JStr "A1"; "refresh_token" := JStr "R0";
     "expires_at" := JInt 4600 ]}.
Definition granted : token_info :=
  {[ "access_token" := JStr "A2"; "refresh_token" := JStr "R2";
     "expires_at" := JInt 4600 ]}.

(** Cached records: one hour from expiry, ten seconds from expiry, and
    ten seconds from expiry without a refresh token. *)
Definition cached_fresh : token_info :=
  {[ "access_token" := JStr "A0"; "refresh_token" := JStr "R0";
     "expires_at" := JInt 4600 ]}.
Definition cached_near : token_info :=
  {[ "access_token" := JStr "A0"; "refresh_token" := JStr "R0";
     "expires_at" := JInt 1010 ]}.
Definition cached_bare : token_info :=
  {[ "access_token" := JStr "A0"; "expires_at" := JInt 1010 ]}.

Definition with_cache (t : token_info) : state :=
  {| fs := {[ CACHE_PATH := Json t ]}; log := [] |}.
Definition no_cache : state := {| fs := ∅; log := [] |}.

(** At time 1000 everything outside answers: the refresh and the code
    exchange succeed, the user pastes a redirect URL, one device is
    listed and active. *)
Definition online : env :=
  {| now := 1000;
     write_error := None;
     remove_error := None;
     get_authorize_url := "https://accounts.spotify.com/authorize";
     parse_response_code := fun _ => Some "abc";
     get_access_token := fun _ => Ok granted;
     refresh_access_token := fun _ => Ok refreshed;
     is_token_expired := fun _ => Ok false;
     input := Ok " http://localhost:8888/callback?code=abc ";
     query_code := fun _ => Some "abc";
     webbrowser_open := fun _ => Ok tt;
     os_startfile := fun _ => Ok tt;
     subprocess_run := fun _ => Ok tt;
     api_devices := fun _ => Ok [ {| id := Some "dev1"; is_active := true |} ];
     api_start_playback := fun _ _ _ => Ok tt |}.

(** The same, but the refresh call fails. *)
Definition refresh_down : env :=
  {| now := 1000;
     write_error := None;
     remove_error := None;
     get_authorize_url := "https://accounts.spotify.com/authorize";
     parse_response_code := fun _ => Some "abc";
     get_access_token := fun _ => Ok granted;
     refresh_access_token := fun _ => Raise (External "invalid_grant");
     is_token_expired := fun _ => Ok false;
     input := Ok " http://localhost:8888/callback?code=abc ";
     query_code := fun _ => Some "abc";
     webbrowser_open := fun _ => Ok tt;
     os_startfile := fun _ => Ok tt;
     subprocess_run := fun _ => Ok tt;
     api_devices := fun _ => Ok [ {| id := Some "dev1"; is_active := true |} ];
     api_start_playback := fun _ _ _ => Ok tt |}.

(** The same as [online], but no device is listed and the operating
    system has no URI handler. *)
Definition no_device : env :=
  {| now := 1000;
     write_error := None;
     remove_error := None;
     get_authorize_url := "https://accounts.spotify.com/authorize";
     parse_response_code := fun _ => Some "abc";
     get_access_token := fun _ => Ok granted;
     refresh_access_token := fun _ => Ok refreshed;
     is_token_expired := fun _ => Ok false;
     input := Ok " http://localhost:8888/callback?code=abc ";
     query_code := fun _ => Some "abc";
     webbrowser_open := fun _ => Ok tt;
     os_startfile := fun _ => Raise (External "no startfile");
     subprocess_run := fun _ => Ok tt;
     api_devices := fun _ => Ok [];
     api_start_playback := fun _ _ _ => Ok tt |}.

End Examples.

(** ** Further vocabulary *)
Module SpecMore.
Import Config Camera EmotionToSong World SpotifyClient Main Spec.


Definition det_marks (d : detection) (label : string) : list draw_op :=
  let '(x1, y1, x2, y2, _, _) := d in
  [Rectangle (x1, y1) (x2, y2) (255, 100, 0) 2;
   PutText label (x1, y1 - 8) 0.7%Q (255, 100, 0) 2].





(** The rendering of a class id: as the dominant label, the name at that
    index of the enumeration, and the decimal string of the id at or beyond
    its length; in the text drawn, the name or the placeholder "...",
    followed by the confidence with two decimals, and the placeholder alone
    for no result. *)
Definition renders_dominant (c : Z) (text : string) : Prop :=
  (8 <= c -> text = str c) /\
  (0 <= c < 8 -> EMOTION_NAMES !! Z.to_nat c = Some text).

Definition renders_drawn (r : option Z * Q) (text : string) : Prop :=
  match r.1 with
  | Some c =>
      (8 <= c -> text = "... " +:+ fmt_2f r.2) /\
      (0 <= c < 8 ->
       exists name,
         EMOTION_NAMES !! Z.to_nat c = Some name /\
         text = name +:+ " " +:+ fmt_2f r.2)
  | None => text = "..."
  end.

(** The frame a source is taken from. *)
Definition frame_of (src : source) : frame :=
  match src with Crop f _ _ _ _ => f | Whole f => f end.

(** A string that starts as a number is written: with a digit or a minus
    sign. *)
Definition is_digit (c : ascii) : bool :=
  let n := N_of_ascii c in ((48 <=? n) && (n <=? 57))%N.

Definition numeric_head (s : string) : bool :=
  match s with
  | String c _ => is_digit c || bool_decide (c = "-"%char)
  | EmptyString => false
  end.

(** In the state [st] the cache file tells the record [ti] (when writes go
    through), and the other files are those of [files]. *)
Definition cache_tells (files : gmap string file) (ti : option token_info)
    (write_ok : bool) (st : state) : Prop :=
  (write_ok = true -> forall t, ti = Some t -> fs st !! CACHE_PATH = Some (Json t)) /\
  (forall path, path <> CACHE_PATH -> fs st !! path = files !! path).

(** A pass through the loop with a frame and no key of the program (ESC,
    'r', 'q'). *)
Definition idle_tick (tick : option frame * Z) : Prop :=
  exists fr key, tick = (Some fr, key) /\ key <> 27 /\ key <> 114 /\ key <> 113.

(** A pass whose frame shows no emotion. *)
Definition shows_nothing (m : model) (fc : cascade) (tick : option frame * Z) : Prop :=
  exists fr key out,
    tick = (Some fr, key) /\
    detect_and_draw fr m fc 640 CONFIDENCE 0.45%Q = Ok out /\
    dominant_emotion out = None.

(** A pass that ends the loop whatever the session: a failed read or the
    ESC key. *)
Definition final_tick (tick : option frame * Z) : Prop :=
  (exists key, tick = (None, key)) \/ (exists fr, tick = (Some fr, 27)).

(** The events of the display, the console and the removal of the cache
    file. *)
Definition is_quiet (ev : event) : bool :=
  match ev with
  | Imshow _ _ | Print _ | RemoveCache _ => true
  | _ => false
  end.

(** The two parts of the [try] block of [start_playback]: the client and
    the record to go on with (lines 136-139), and the call on the device
    found (lines 141-146). *)
Definition fresh_client (sp : spotify) (oauth : option oauth_client)
    (t : token_info) : M (spotify * token_info) :=
  expired ← (match oauth with
              | Some _ => f ← ask is_token_expired; lift (f t)
              | None => mret false
              end);
  if (expired : bool) then
    refresh_token ← lift (dict_item t "refresh_token");
    emit (RefreshToken refresh_token);;
    new_token ← (f ← ask refresh_access_token; lift (f refresh_token));
    _write_cache CACHE_PATH new_token;;
    access_token ← lift (dict_item new_token "access_token");
    mret ({| auth := access_token |}, new_token)
  else mret (sp, t).

Definition play_on_device (sp : spotify) (playlist_uri : string) : M bool :=
  dev_id ← get_active_device_id sp;
  match dev_id with
  | Some dev =>
      if truthy_str dev then
        emit (StartPlayback dev playlist_uri);;
        (f ← ask api_start_playback; lift (f sp dev playlist_uri));;
        mret true
      else raise (RuntimeError "No active Spotify device found")
  | None => raise (RuntimeError "No active Spotify device found")
  end.

(** The client that [start_playback] makes its calls with: the one given,
    or, when the OAuth client reports the token as expired, a client for the
    access token of the refreshed record; an exception when the expiry
    check, the refresh or one of the two look-ups raises. *)
Definition playback_client (e : env) (sp : spotify) (oauth : option oauth_client)
    (t : token_info) : result spotify :=
  match oauth with
  | None => Ok sp
  | Some _ =>
      expired ← is_token_expired e t;
      if (expired : bool) then
        refresh_token ← dict_item t "refresh_token";
        new ← refresh_access_token e refresh_token;
        access_token ← dict_item new "access_token";
        mret {| auth := access_token |}
      else mret sp
  end.

(** With the client [client] the dispatcher settles on a device that has
    the id [dev]. *)
Definition settles (e : env) (client : spotify) (dev : string) : Prop :=
  exists ds d,
    api_devices e client = Ok ds /\ chooses ds (Some d) /\
    id d = Some dev /\ truthy_str dev = true.

(** The start-playback call is made, on the device [dev]: a client is
    obtained and the dispatcher settles on [dev] with it. The call goes
    through: the API accepts it. *)
Definition calls_api (e : env) (sp : spotify) (oauth : option oauth_client)
    (t : token_info) (dev : string) : Prop :=
  exists client, playback_client e sp oauth t = Ok client /\ settles e client dev.

Definition plays_via_api (e : env) (sp : spotify) (oauth : option oauth_client)
    (t : token_info) (uri dev : string) : Prop :=
  exists client,
    playback_client e sp oauth t = Ok client /\ settles e client dev /\
    api_start_playback e client dev uri = Ok tt.

(** Whatever its result, the computation [m] only adds to the log, and
    what it adds holds at most [n] start-playback calls. *)
Definition adds_upto {A} (n : nat) (m : M A) : Prop :=
  forall e st,
    exists added,
      log (m e st).2 = log st ++ added /\
      (count is_start_playback added <= n)%nat.

End SpecMore.

(** ** Further concrete inputs *)
Module MoreExamples.
Import Config Camera EmotionToSong World SpotifyClient Main.

(** A cache file that is not JSON, and one that holds the empty record. *)
Definition corrupt_cache : state :=
  {| fs := {[ CACHE_PATH := Garbage (External "Expecting value") ]}; log := [] |}.
Definition empty_record_cache : state :=
  {| fs := {[ CACHE_PATH := Json ∅ ]}; log := [] |}.

(** [Examples.online] on a disk that cannot be written. *)
Definition read_only_disk : env :=
  {| now := 1000;
     write_error := Some (OpenFails (External "Permission denied"));
     remove_error := Some (External "Permission denied");
     get_authorize_url := "https://accounts.spotify.com/authorize";
     parse_response_code := fun _ => Some "abc";
     get_access_token := fun _ => Ok Examples.granted;
     refresh_access_token := fun _ => Ok Examples.refreshed;
     is_token_expired := fun _ => Ok false;
     input := Ok " http://localhost:8888/callback?code=abc ";
     query_code := fun _ => Some "abc";
     webbrowser_open := fun _ => Ok tt;
     os_startfile := fun _ => Ok tt;
     subprocess_run := fun _ => Ok tt;
     api_devices := fun _ => Ok [ {| id := Some "dev1"; is_active := true |} ];
     api_start_playback := fun _ _ _ => Ok tt |}.

(** [Examples.online] on a full disk: the file is opened, and the write
    fails with nothing written. *)
Definition disk_full : env :=
  {| now := 1000;
     write_error := Some (DumpFails (External "No space left on device")
                            (Some (External "Expecting value")));
     remove_error := None;
     get_authorize_url := "https://accounts.spotify.com/authorize";
     parse_response_code := fun _ => Some "abc";
     get_access_token := fun _ => Ok Examples.granted;
     refresh_access_token := fun _ => Ok Examples.refreshed;
     is_token_expired := fun _ => Ok false;
     input := Ok " http://localhost:8888/callback?code=abc ";
     query_code := fun _ => Some "abc";
     webbrowser_open := fun _ => Ok tt;
     os_startfile := fun _ => Ok tt;
     subprocess_run := fun _ => Ok tt;
     api_devices := fun _ => Ok [ {| id := Some "dev1"; is_active := true |} ];
     api_start_playback := fun _ _ _ => Ok tt |}.

(** [Examples.online], but the API refuses to start playback. *)
Definition premium_required : env :=
  {| now := 1000;
     write_error := None;
     remove_error := None;
     get_authorize_url := "https://accounts.spotify.com/authorize";
     parse_response_code := fun _ => Some "abc";
     get_access_token := fun _ => Ok Examples.granted;
     refresh_access_token := fun _ => Ok Examples.refreshed;
     is_token_expired := fun _ => Ok false;
     input := Ok " http://localhost:8888/callback?code=abc ";
     query_code := fun _ => Some "abc";
     webbrowser_open := fun _ => Ok tt;
     os_startfile := fun _ => Ok tt;
     subprocess_run := fun _ => Ok tt;
     api_devices := fun _ => Ok [ {| id := Some "dev1"; is_active := true |} ];
     api_start_playback := fun _ _ _ => Raise (External "403 Premium required") |}.

(** [Examples.online], but the code exchange is refused, and nothing
    outside the API can be launched. *)
Definition exchange_refused : env :=
  {| now := 1000;
     write_error := None;
     remove_error := None;
     get_authorize_url := "https://accounts.spotify.com/authorize";
     parse_response_code := fun _ => None;
     get_access_token := fun _ => Raise (External "invalid_grant");
     refresh_access_token := fun _ => Raise (External "invalid_grant");
     is_token_expired := fun _ => Ok false;
     input := Ok " http://localhost:8888/callback?code=abc ";
     query_code := fun _ => Some "abc";
     webbrowser_open := fun _ => Ok tt;
     os_startfile := fun _ => Raise (External "no startfile");
     subprocess_run := fun _ => Raise (External "no cmd");
     api_devices := fun _ => Raise (External "401");
     api_start_playback := fun _ _ _ => Ok tt |}.

(** [Examples.online], but the device flagged active has no id. *)
Definition unnamed_device : env :=
  {| now := 1000;
     write_error := None;
     remove_error := None;
     get_authorize_url := "https://accounts.spotify.com/authorize";
     parse_response_code := fun _ => Some "abc";
     get_access_token := fun _ => Ok Examples.granted;
     refresh_access_token := fun _ => Ok Examples.refreshed;
     is_token_expired := fun _ => Ok false;
     input := Ok " http://localhost:8888/callback?code=abc ";
     query_code := fun _ => Some "abc";
     webbrowser_open := fun _ => Ok tt;
     os_startfile := fun _ => Ok tt;
     subprocess_run := fun _ => Ok tt;
     api_devices := fun _ => Ok [ {| id := Some "dev0"; is_active := false |};
                                  {| id := None; is_active := true |};
                                  {| id := Some "dev2"; is_active := true |} ];
     api_start_playback := fun _ _ _ => Ok tt |}.

(** [Examples.online], but the OAuth client reports every token as
    expired. *)
Definition token_expired : env :=
  {| now := 1000;
     write_error := None;
     remove_error := None;
     get_authorize_url := "https://accounts.spotify.com/authorize";
     parse_response_code := fun _ => Some "abc";
     get_access_token := fun _ => Ok Examples.granted;
     refresh_access_token := fun _ => Ok Examples.refreshed;
     is_token_expired := fun _ => Ok true;
     input := Ok " http://localhost:8888/callback?code=abc ";
     query_code := fun _ => Some "abc";
     webbrowser_open := fun _ => Ok tt;
     os_startfile := fun _ => Ok tt;
     subprocess_run := fun _ => Ok tt;
     api_devices := fun _ => Ok [ {| id := Some "dev1"; is_active := true |} ];
     api_start_playback := fun _ _ _ => Ok tt |}.

(** Cached records: one without expiry time, one whose expiry time is a
    string, a fresh one without access token. *)
Definition cached_no_expiry : token_info :=
  {[ "access_token" := JStr "A0"; "refresh_token" := JStr "R0" ]}.
Definition cached_bad_expiry : token_info :=
  {[ "access_token" := JStr "A0"; "expires_at" := JStr "soon" ]}.
Definition cached_no_access : token_info :=
  {[ "refresh_token" := JStr "R0"; "expires_at" := JInt 4600 ]}.

(** A model that reports the class id -9. *)
Definition broken_model : model :=
  {| predict := fun _ _ _ _ => [ {| boxes := Some [Examples.box (-9) 0.9] |} ] |}.

(** A model that is sound on the image 0 and reports the class id -9 on
    every other image. *)
Definition flaky_model : model :=
  {| predict := fun src _ _ _ =>
       let f := match src with Crop f _ _ _ _ => f | Whole f => f end in
       if (pixels f =? 0)%N then [ {| boxes := Some [Examples.box 4 0.9] |} ]
       else [ {| boxes := Some [Examples.box (-9) 0.9] |} ] |}.

End MoreExamples.


(** * Proofs *)

Import Config Camera EmotionToSong World SpotifyClient Main Spec.

#[local] Arguments truthy_dict : simpl never.
#[local] Arguments dict_get : simpl never.
#[local] Arguments dict_item : simpl never.

(** Runs the monadic steps at the head of the goal. *)
Ltac run_M :=
  unfold try_except, print2, print, emit, ask, lift, get_fs, set_fs, raise,
         mbind, M_bind, mret, M_ret; cbn -[Z.ltb Z.sub].

(** ** Python primitives *)

Lemma Qgtb_true (x y : Q) : Qgtb x y = true <-> (y < x)%Q.
Proof.
  unfold Qgtb. rewrite negb_true_iff, <- not_true_iff_false, Qle_bool_iff.
  split; [apply Qnot_le_lt | apply Qlt_not_le].
Qed.

Lemma Qgtb_false (x y : Q) : Qgtb x y = false <-> (x <= y)%Q.
Proof.
  unfold Qgtb. rewrite negb_false_iff. apply Qle_bool_iff.
Qed.

Lemma max_by_elem {A} (key : A -> Q) (l : list A) :
  forall best, max_by key best l ∈ best :: l.
Proof.
  induction l as [|x l IH]; intros best; simpl.
  - apply list_elem_of_here.
  - specialize (IH (if Qgtb (key x) (key best) then x else best)).
    apply elem_of_cons in IH as [-> | IH].
    + destruct (Qgtb (key x) (key best)); [right; left | left].
    + right; right; exact IH.
Qed.

Example fmt_2f_rounds : fmt_2f 0.125 = "0.12" /\ fmt_2f 0.375 = "0.38" /\ fmt_2f 12.999 = "13.00".
Proof. repeat split. Qed.

Example fmt_2f_negative : fmt_2f (-0.001) = "-0.00".
Proof. reflexivity. Qed.

Example index_from_the_end :
  index [1; 2; 3] (-1) = Ok 3 /\ index [1; 2; 3] (-4) = Raise IndexError /\
  index [1; 2; 3] 3 = Raise IndexError.
Proof. repeat split. Qed.

Example lower_mixed_case : lower "HaPpY" = "happy".
Proof. reflexivity. Qed.

Example trunc_toward_zero : trunc 2.7 = 2 /\ trunc (-2.7) = -2.
Proof. split; reflexivity. Qed.

(** ** The aggregator *)

Example padded_face : padded 480 640 (10, 10, 100, 120) = (0, 0, 128, 148).
Proof. reflexivity. Qed.

Lemma name_or_in_range (other : string) (c : Z) :
  0 <= c < 8 ->
  exists name, EMOTION_NAMES !! Z.to_nat c = Some name /\ name_or other c = Ok name.
Proof.
  intros Hc.
  assert (Hcases : c = 0 \/ c = 1 \/ c = 2 \/ c = 3 \/ c = 4 \/ c = 5 \/ c = 6 \/ c = 7)
    by lia.
  destruct Hcases as [->|[->|[->|[->|[->|[->|[->| ->]]]]]]];
    eexists; split; reflexivity.
Qed.

Lemma name_or_beyond (other : string) (c : Z) :
  8 <= c -> name_or other c = Ok other.
Proof.
  intros Hc. unfold name_or.
  replace (c <? len_names) with false; [reflexivity|].
  symmetry. apply Z.ltb_ge. exact Hc.
Qed.

Lemma name_or_total (other : string) (c : Z) :
  0 <= c -> exists name, name_or other c = Ok name.
Proof.
  intros Hc. destruct (Z_lt_le_dec c 8) as [Hlt|Hge].
  - destruct (name_or_in_range other c) as (name & _ & H); [lia|]. eauto.
  - rewrite name_or_beyond by exact Hge. eauto.
Qed.

(** The result of a face crop is a detection of that crop, or (None, 0.0). *)
Lemma predict_on_face_crop_cases (m : model) (src : source) imgsz conf iou :
  predict_on_face_crop m src imgsz conf iou = (None, 0%Q) \/
  exists d, d ∈ _read_results (predict m src imgsz conf iou) /\
            predict_on_face_crop m src imgsz conf iou = (Some (det_cls d), det_conf d).
Proof.
  unfold predict_on_face_crop.
  destruct (_read_results (predict m src imgsz conf iou)) as [|d ds]; [left; reflexivity|].
  right. exists (max_by det_conf d ds). split; [apply max_by_elem | reflexivity].
Qed.

(** One step of the rule: the effect of a result on the dominant. *)
Lemma update_dominant_Some (c : Z) (q : Q) (e0 : option string) (q0 : Q) :
  0 <= c ->
  exists name, name_or (str c) c = Ok name /\
    update_dominant (Some c) q (e0, q0) =
      Ok (if Qgtb q q0 then (Some name, q) else (e0, q0)).
Proof.
  intros Hc. destruct (name_or_total (str c) c Hc) as [name Hname].
  exists name. split; [exact Hname|].
  unfold update_dominant; simpl. destruct (Qgtb q q0); [|reflexivity].
  rewrite Hname. reflexivity.
Qed.

Lemma dominant_from_nil (e0 : option string) (q0 : Q) :
  dominant_from [] e0 q0 e0 q0.
Proof. left. repeat split. intros j c' q' H. discriminate H. Qed.

Lemma dominant_from_skip (q : Q) rs e0 q0 e1 q1 :
  dominant_from rs e0 q0 e1 q1 ->
  dominant_from ((None, q) :: rs) e0 q0 e1 q1.
Proof.
  intros [(-> & -> & Hle) | (i & c & name & Hi & Hname & -> & Hlt & Hle & Hbefore)].
  - left. repeat split. intros [|j] c' q' H; [discriminate H|]. exact (Hle j c' q' H).
  - right. exists (S i), c, name. repeat split; try assumption.
    + intros [|j] c' q' H; [discriminate H|]. exact (Hle j c' q' H).
    + intros [|j] c' q' Hj H; [discriminate H|]. apply (Hbefore j c'); [lia | exact H].
Qed.

Lemma dominant_from_keep (c : Z) (q : Q) rs e0 q0 e1 q1 :
  (q <= q0)%Q ->
  dominant_from rs e0 q0 e1 q1 ->
  dominant_from ((Some c, q) :: rs) e0 q0 e1 q1.
Proof.
  intros Hq [(-> & -> & Hle) | (i & c1 & name & Hi & Hname & -> & Hlt & Hle & Hbefore)].
  - left. repeat split. intros [|j] c' q' H.
    + simpl in H. injection H as _ <-. exact Hq.
    + exact (Hle j c' q' H).
  - right. exists (S i), c1, name. repeat split; try assumption.
    + intros [|j] c' q' H.
      * simpl in H. injection H as _ <-.
        apply Qlt_le_weak. eapply Qle_lt_trans; eassumption.
      * exact (Hle j c' q' H).
    + intros [|j] c' q' Hj H.
      * simpl in H. injection H as _ <-. eapply Qle_lt_trans; eassumption.
      * apply (Hbefore j c'); [lia | exact H].
Qed.

Lemma dominant_from_take (c : Z) (q : Q) (name : string) rs e0 q0 e1 q1 :
  (q0 < q)%Q ->
  name_or (str c) c = Ok name ->
  dominant_from rs (Some name) q e1 q1 ->
  dominant_from ((Some c, q) :: rs) e0 q0 e1 q1.
Proof.
  intros Hq Hc [(-> & -> & Hle) | (i & c1 & name1 & Hi & Hname & -> & Hlt & Hle & Hbefore)].
  - right. exists 0%nat, c, name. repeat split; try assumption; try reflexivity.
    + intros [|j] c' q' H.
      * simpl in H. injection H as _ <-. apply Qle_refl.
      * exact (Hle j c' q' H).
    + intros j c' q' Hj. lia.
  - right. exists (S i), c1, name1. repeat split; try assumption.
    + eapply Qlt_trans; eassumption.
    + intros [|j] c' q' H.
      * simpl in H. injection H as _ <-. apply Qlt_le_weak. exact Hlt.
      * exact (Hle j c' q' H).
    + intros [|j] c' q' Hj H.
      * simpl in H. injection H as _ <-. exact Hlt.
      * apply (Hbefore j c'); [lia | exact H].
Qed.

(** The rule, one result further: what [update_dominant] does with the
    first result, followed by the rest. *)
Lemma dominant_from_cons (r : option Z * Q) rs e0 q0 e1 q1 e q :
  (forall c, r.1 = Some c -> 0 <= c) ->
  update_dominant r.1 r.2 (e0, q0) = Ok (e1, q1) ->
  dominant_from rs e1 q1 e q ->
  dominant_from (r :: rs) e0 q0 e q.
Proof.
  destruct r as [[c|] qr]; cbn [fst snd]; intros Hc Hupd Hrest.
  - destruct (update_dominant_Some c qr e0 q0) as (name & Hname & Heq); [auto|].
    rewrite Heq in Hupd. destruct (Qgtb qr q0) eqn:Hcmp.
    + injection Hupd as <- <-. apply Qgtb_true in Hcmp.
      eapply dominant_from_take; eassumption.
    + injection Hupd as <- <-. apply Qgtb_false in Hcmp.
      apply dominant_from_keep; assumption.
  - simpl in Hupd. injection Hupd as <- <-. apply dominant_from_skip. exact Hrest.
Qed.

Lemma box_label_total (c : Z) (q : Q) :
  0 <= c -> exists label, box_label (Some c) q = Ok label.
Proof.
  intros Hc. destruct (name_or_total "..." c Hc) as [name Hname].
  unfold box_label. rewrite Hname. simpl. eauto.
Qed.

(** One pass through the loop over the faces: it hands exactly one source
    to the model, the padded crop of the face, and updates the dominant
    with the result for that crop. *)
Lemma face_step_ok (m : model) imgsz conf iou h w (st : dd_state) (face : rect) :
  ids_nonneg m ->
  exists st1 crop,
    face_step m imgsz conf iou h w st face = Ok st1 /\
    crop_of h w face crop /\
    predict_calls st1 = predict_calls st ++ [crop] /\
    let r := predict_on_face_crop m crop imgsz conf iou in
    (forall c, r.1 = Some c -> 0 <= c) /\
    update_dominant r.1 r.2 (dominant_emotion st, dominant_conf st)
      = Ok (dominant_emotion st1, dominant_conf st1).
Proof.
  intros Hids. unfold face_step, crop_of.
  destruct (padded h w face) as [[[x1 y1] x2] y2].
  set (crop := Crop (dd_frame st) y1 y2 x1 x2).
  assert (Hnn : forall c, (predict_on_face_crop m crop imgsz conf iou).1 = Some c -> 0 <= c).
  { intros c Hc.
    destruct (predict_on_face_crop_cases m crop imgsz conf iou) as [H | (d & Hd & H)];
      rewrite H in Hc; simpl in Hc; [discriminate|].
    injection Hc as <-. eapply Hids; exact Hd. }
  destruct (predict_on_face_crop m crop imgsz conf iou) as [[c|] q] eqn:Hr; simpl in Hnn.
  - destruct (update_dominant_Some c q (dominant_emotion st) (dominant_conf st))
      as (name & Hname & Hupd); [auto|].
    destruct (box_label_total c q) as [label Hlabel]; [auto|].
    rewrite Hupd, Hlabel. simpl.
    eexists _, crop. split; [reflexivity|]. split; [eexists; reflexivity|].
    split; [reflexivity|]. rewrite Hr. split; [exact Hnn|].
    cbn [fst snd]. rewrite Hupd. destruct (Qgtb q (dominant_conf st)); reflexivity.
  - simpl. eexists _, crop. split; [reflexivity|]. split; [eexists; reflexivity|].
    split; [reflexivity|]. rewrite Hr. split; [exact Hnn | reflexivity].
Qed.

Lemma face_loop_spec (m : model) imgsz conf iou h w :
  ids_nonneg m ->
  forall (faces : list rect) (st : dd_state),
  exists st' crops,
    for_each (face_step m imgsz conf iou h w) st faces = Ok st' /\
    predict_calls st' = predict_calls st ++ crops /\
    Forall2 (crop_of h w) faces crops /\
    dominant_from (face_results m imgsz conf iou crops)
      (dominant_emotion st) (dominant_conf st)
      (dominant_emotion st') (dominant_conf st').
Proof.
  intros Hids. induction faces as [|face faces IH]; intros st.
  - exists st, []. simpl. split; [reflexivity|]. split; [symmetry; apply app_nil_r|].
    split; [constructor | apply dominant_from_nil].
  - destruct (face_step_ok m imgsz conf iou h w st face Hids)
      as (st1 & crop & Hstep & Hcrop & Hcalls & Hnn & Hupd).
    destruct (IH st1) as (st' & crops & Hloop & Hcalls' & Hcrops & Hdom).
    exists st', (crop :: crops). simpl. rewrite Hstep. simpl.
    split; [exact Hloop|].
    split; [rewrite Hcalls', Hcalls, <- app_assoc; reflexivity|].
    split; [constructor; assumption|].
    eapply dominant_from_cons; eassumption.
Qed.

Lemma det_step_ok (st : dd_state) (d : detection) :
  0 <= det_cls d ->
  exists st1,
    det_step st d = Ok st1 /\
    predict_calls st1 = predict_calls st /\
    update_dominant (Some (det_cls d)) (det_conf d)
      (dominant_emotion st, dominant_conf st)
      = Ok (dominant_emotion st1, dominant_conf st1).
Proof.
  destruct d as [[[[[x1 y1] x2] y2] c] q]. unfold det_cls, det_conf; cbn [fst snd].
  intros Hc. unfold det_step.
  destruct (update_dominant_Some c q (dominant_emotion st) (dominant_conf st))
    as (name & Hname & Hupd); [auto|].
  destruct (box_label_total c q) as [label Hlabel]; [auto|].
  rewrite Hupd, Hlabel. simpl.
  eexists. split; [reflexivity|]. split; [reflexivity|].
  cbn [dominant_emotion dominant_conf]. destruct (Qgtb q (dominant_conf st)); reflexivity.
Qed.

Lemma det_loop_spec :
  forall (dets : list detection) (st : dd_state),
  Forall (fun d => 0 <= det_cls d) dets ->
  exists st',
    for_each det_step st dets = Ok st' /\
    predict_calls st' = predict_calls st /\
    dominant_from (det_results dets)
      (dominant_emotion st) (dominant_conf st)
      (dominant_emotion st') (dominant_conf st').
Proof.
  induction dets as [|d dets IH]; intros st Hids.
  - exists st. simpl. split; [reflexivity|]. split; [reflexivity|].
    apply dominant_from_nil.
  - inversion Hids as [|? ? Hd Hrest]; subst.
    destruct (det_step_ok st d Hd) as (st1 & Hstep & Hcalls & Hupd).
    destruct (IH st1 Hrest) as (st' & Hloop & Hcalls' & Hdom).
    exists st'. simpl. rewrite Hstep. simpl.
    split; [exact Hloop|]. split; [congruence|].
    eapply (dominant_from_cons (Some (det_cls d), det_conf d)); try eassumption.
    simpl. intros c Hc. injection Hc as <-. exact Hd.
Qed.

(** From the initial dominant (None, 0.0), with positive confidences, the
    dominant is the first result of largest confidence. *)
Lemma dominant_from_start (rs : list (option Z * Q)) (e : option string) (q : Q) :
  (forall j c q', rs !! j = Some (Some c, q') -> (0 < q')%Q) ->
  Forall (fun r => r.1 = None -> r = (None, 0%Q)) rs ->
  dominant_from rs None 0%Q e q ->
  first_max rs e q.
Proof.
  intros Hpos Hnone [(-> & -> & Hle) | (i & c & name & Hi & Hname & -> & Hlt & Hle & Hbefore)].
  - left. split; [|split; reflexivity].
    apply Forall_lookup_2. intros j [[c|] q'] Hj.
    + exfalso. apply (Qlt_not_le _ _ (Hpos j c q' Hj)). exact (Hle j c q' Hj).
    + rewrite Forall_lookup in Hnone. apply (Hnone j _ Hj). reflexivity.
  - right. exists i, c, name. repeat split; assumption.
Qed.




Lemma happy_model_ids : ids_nonneg Examples.happy_model.
Proof.
  intros src imgsz conf iou d Hd. simpl in Hd.
  apply elem_of_cons in Hd as [-> | Hd]; [vm_compute; discriminate|].
  apply elem_of_cons in Hd as [-> | Hd]; [vm_compute; discriminate|].
  inversion Hd.
Qed.

Lemma happy_model_confs : confs_positive Examples.happy_model.
Proof.
  intros src imgsz conf iou d Hd. simpl in Hd.
  apply elem_of_cons in Hd as [-> | Hd]; [reflexivity|].
  apply elem_of_cons in Hd as [-> | Hd]; [reflexivity|].
  inversion Hd.
Qed.


Example two_faces_09_07 :
  exists st,
    detect_and_draw Examples.blank Examples.rising_model Examples.two_faces 640 CONFIDENCE 0.45%Q
      = Ok st /\
    dominant_emotion st = Some "happy" /\ dominant_conf st = 0.9%Q.
Proof. eexists. repeat split. Qed.

Example tie_keeps_first_face :
  exists st,
    detect_and_draw Examples.blank Examples.tie_model Examples.two_faces 640 CONFIDENCE 0.45%Q
      = Ok st /\
    face_results Examples.tie_model 640 CONFIDENCE 0.45%Q (predict_calls st)
      = [(Some 4, 0.9%Q); (Some 6, 0.9%Q)] /\
    dominant_emotion st = Some "happy" /\ dominant_conf st = 0.9%Q.
Proof. eexists. repeat split. Qed.

(** C2: when the face locator returns no rectangle, the model is called
    exactly once, on the entire frame; the dominant emotion follows the same
    rule over the detections of that call; and when that call yields no
    detection the result is (None, 0.0) on the frame as it was. *)
Theorem fallback_runs_whole_frame_once
    (fr : frame) (m : model) (fc : cascade) (imgsz : Z) (conf iou : Q) :
  detectMultiScale fc fr 1.1%Q 5 (40, 40) = [] ->
  (_read_results (predict m (Whole fr) imgsz conf iou) = [] ->
   detect_and_draw fr m fc imgsz conf iou =
     Ok {| dd_frame := fr; dominant_emotion := None; dominant_conf := 0%Q;
           predict_calls := [Whole fr] |}) /\
  (ids_nonneg m ->
   exists st,
     detect_and_draw fr m fc imgsz conf iou = Ok st /\
     predict_calls st = [Whole fr] /\
     dominant_from (det_results (_read_results (predict m (Whole fr) imgsz conf iou)))
       None 0%Q (dominant_emotion st) (dominant_conf st) /\
     (confs_positive m ->
      first_max (det_results (_read_results (predict m (Whole fr) imgsz conf iou)))
        (dominant_emotion st) (dominant_conf st))).
Proof.
  intros Hfaces. unfold detect_and_draw.
  destruct (shape fr) as [h w]. rewrite Hfaces. simpl length.
  change (0 <? Z.of_nat 0) with false. cbv iota. split.
  - intros ->. reflexivity.
  - intros Hids.
    set (dets := _read_results (predict m (Whole fr) imgsz conf iou)).
    assert (Hnn : Forall (fun d => 0 <= det_cls d) dets).
    { apply Forall_forall. intros d Hd. eapply Hids. exact Hd. }
    destruct (det_loop_spec dets
                {| dd_frame := fr; dominant_emotion := None; dominant_conf := 0%Q;
                   predict_calls := [Whole fr] |} Hnn)
      as (st & Hloop & Hcalls & Hdom).
    exists st. split; [exact Hloop|]. split; [exact Hcalls|].
    simpl in Hdom. split; [exact Hdom|].
    intros Hpos. apply dominant_from_start; [| |exact Hdom].
    + intros j c q Hj. unfold det_results in Hj. rewrite list_lookup_fmap in Hj.
      destruct (dets !! j) as [d|] eqn:Hd; [|discriminate].
      simpl in Hj. injection Hj as _ <-.
      eapply Hpos. eapply list_elem_of_lookup_2. exact Hd.
    + unfold det_results. apply Forall_map, Forall_forall.
      intros d _ Hnone. discriminate Hnone.
Qed.

Lemma fallback_runs_whole_frame_once_witness :
  detect_and_draw Examples.blank Examples.blind_model Examples.no_face 640 CONFIDENCE 0.45%Q =
    Ok {| dd_frame := Examples.blank; dominant_emotion := None; dominant_conf := 0%Q;
          predict_calls := [Whole Examples.blank] |}
  /\
  exists st,
    detect_and_draw Examples.blank Examples.happy_model Examples.no_face 640 CONFIDENCE 0.45%Q
      = Ok st /\
    predict_calls st = [Whole Examples.blank] /\
    first_max
      (det_results (_read_results (predict Examples.happy_model (Whole Examples.blank)
                                     640 CONFIDENCE 0.45%Q)))
      (dominant_emotion st) (dominant_conf st).
Proof.
  split.
  - apply (fallback_runs_whole_frame_once
             Examples.blank Examples.blind_model Examples.no_face 640 CONFIDENCE 0.45%Q);
      reflexivity.
  - destruct (fallback_runs_whole_frame_once
                Examples.blank Examples.happy_model Examples.no_face 640 CONFIDENCE 0.45%Q
                eq_refl) as (_ & Hrule).
    destruct (Hrule happy_model_ids) as (st & Hrun & Hcalls & _ & Hmax).
    exists st. split; [exact Hrun|]. split; [exact Hcalls|].
    apply Hmax, happy_model_confs.
Defined.

(** In the whole-frame path too, a tie keeps the first detection. *)
Example fallback_tie_keeps_first :
  exists st,
    detect_and_draw Examples.blank Examples.tie_model Examples.no_face 640 CONFIDENCE 0.45%Q
      = Ok st /\
    dominant_emotion st = Some "happy" /\ dominant_conf st = 0.9%Q.
Proof. eexists. repeat split. Qed.

(** The aggregator returns, whatever the frame, when the model reports
    class indices. *)
Lemma detect_and_draw_returns
    (fr : frame) (m : model) (fc : cascade) (imgsz : Z) (conf iou : Q) :
  ids_nonneg m -> exists st, detect_and_draw fr m fc imgsz conf iou = Ok st.
Proof.
  intros Hids. unfold detect_and_draw. destruct (shape fr) as [h w].
  destruct (0 <? Z.of_nat (length (detectMultiScale fc fr 1.1%Q 5 (40, 40)))).
  - destruct (face_loop_spec m imgsz conf iou h w Hids
                (detectMultiScale fc fr 1.1%Q 5 (40, 40))
                {| dd_frame := fr; dominant_emotion := None; dominant_conf := 0%Q;
                   predict_calls := [] |}) as (st & _ & Hloop & _).
    eauto.
  - destruct (det_loop_spec (_read_results (predict m (Whole fr) imgsz conf iou))
                {| dd_frame := fr; dominant_emotion := None; dominant_conf := 0%Q;
                   predict_calls := [Whole fr] |}) as (st & Hloop & _).
    + apply Forall_forall. intros d Hd. eapply Hids. exact Hd.
    + eauto.
Qed.

(** The two renderings of a class id, in the steps of the loops: at or
    beyond the length of the enumeration it becomes the dominant label as
    its decimal string and is drawn as the placeholder "..." before the
    confidence; within the enumeration it is the name at that index in
    both. *)
Lemma rendering_steps :
  (forall fr m fc imgsz conf iou,
      ids_nonneg m -> exists st, detect_and_draw fr m fc imgsz conf iou = Ok st) /\
  (forall c q dom,
      8 <= c ->
      update_dominant (Some c) q dom
        = Ok (if Qgtb q dom.2 then (Some (str c), q) else dom) /\
      box_label (Some c) q = Ok ("... " +:+ fmt_2f q)) /\
  (forall c q dom,
      0 <= c < 8 ->
      exists name,
        EMOTION_NAMES !! Z.to_nat c = Some name /\
        update_dominant (Some c) q dom
          = Ok (if Qgtb q dom.2 then (Some name, q) else dom) /\
        box_label (Some c) q = Ok (name +:+ " " +:+ fmt_2f q)).
Proof.
  split; [|split].
  - intros. apply detect_and_draw_returns. assumption.
  - intros c q dom Hc. unfold update_dominant, box_label.
    rewrite !name_or_beyond by exact Hc. simpl.
    split; [destruct (Qgtb q dom.2)|]; reflexivity.
  - intros c q dom Hc.
    destruct (name_or_in_range (str c) c Hc) as (name & Hname & Hdom).
    destruct (name_or_in_range "..." c Hc) as (name' & Hname' & Hlabel).
    assert (name' = name) by congruence. subst name'.
    exists name. split; [exact Hname|].
    unfold update_dominant, box_label. rewrite Hdom, Hlabel. simpl.
    split; [destruct (Qgtb q dom.2)|]; reflexivity.
Qed.


(** Indices below zero, which a detection model does not report, are looked
    up from the end of the enumeration, and raise below -8. *)
Example negative_ids :
  name_or (str (-1)) (-1) = Ok "surprise" /\
  update_dominant (Some (-9)) 0.9%Q (None, 0%Q) = Raise IndexError.
Proof. split; reflexivity. Qed.

(** The same in the whole-frame path. *)
Example unknown_id_in_fallback :
  exists st,
    detect_and_draw Examples.blank Examples.id8_model Examples.no_face 640 CONFIDENCE 0.45%Q
      = Ok st /\
    dominant_emotion st = Some "8" /\
    drawn (dd_frame st) =
      [Rectangle (1, 2) (30, 40) (255, 100, 0) 2;
       PutText "... 0.90" (1, -6) 0.7%Q (255, 100, 0) 2].
Proof. eexists. repeat split. Qed.

(** ** The credential cache *)

Lemma truthy_dict_lookup (t : token_info) (k : string) (v : jval) :
  t !! k = Some v -> truthy_dict (Some t) = true.
Proof.
  intros Hk. unfold truthy_dict. apply negb_true_iff, bool_decide_eq_false.
  intros ->. rewrite lookup_empty in Hk. discriminate.
Qed.


(** C4: a cached record that expires 60 seconds from now or later is
    returned as it is; the state is left as it was: nothing is added to the
    log (no refresh call, no interactive authorization, no write) and the
    files are untouched. *)
Theorem fresh_cached_token_is_reused
    (e : env) (st : state) (t : token_info) (expires_at : Z) (access : jval) :
  fs st !! CACHE_PATH = Some (Json t) ->
  t !! "expires_at" = Some (JInt expires_at) ->
  t !! "access_token" = Some access ->
  expires_at - now e >= 60 ->
  ensure_spotify_client e st = (Ok ({| auth := access |}, _build_oauth, t), st).
Proof.
  intros Hfile Hexp Hacc Hfresh.
  unfold ensure_spotify_client, _read_cache. run_M.
  rewrite Hfile. run_M.
  rewrite (truthy_dict_lookup t _ _ Hexp).
  unfold dict_get at 1. rewrite Hexp. run_M.
  replace (expires_at - now e <? 60) with false by (symmetry; apply Z.ltb_ge; lia).
  rewrite (truthy_dict_lookup t _ _ Hexp). run_M.
  unfold dict_item. rewrite Hacc. reflexivity.
Qed.

Lemma fresh_cached_token_is_reused_witness :
  ensure_spotify_client Examples.online (Examples.with_cache Examples.cached_fresh) =
    (Ok ({| auth := JStr "A0" |}, _build_oauth, Examples.cached_fresh),
     Examples.with_cache Examples.cached_fresh).
Proof.
  apply (fresh_cached_token_is_reused
           Examples.online (Examples.with_cache Examples.cached_fresh)
           Examples.cached_fresh 4600 (JStr "A0"));
    [vm_compute; reflexivity | vm_compute; reflexivity | vm_compute; reflexivity
    | vm_compute; discriminate].
Defined.

Lemma write_cache_ok (e : env) (st : state) (path : string) (t : token_info) :
  write_error e = None ->
  _write_cache path t e st =
    (Ok tt, {| fs := <[path := Json t]> (fs st); log := log st ++ [WriteCache path t] |}).
Proof.
  intros Hw. unfold _write_cache. run_M. rewrite Hw. reflexivity.
Qed.

(** The interactive flow, when it goes through, adds its events to the log,
    stores the record in the cache file and returns it. *)
Lemma run_interactive_auth_ok
    (e : env) (st : state) (line : string) (t : token_info) :
  write_error e = None ->
  interactive_succeeds e line t ->
  run_interactive_auth e st =
    (Ok t, {| fs := <[CACHE_PATH := Json t]> (fs st);
              log := log st ++ interactive_events e line t |}).
Proof.
  intros Hw (Hopen & Hin & Hex). unfold run_interactive_auth. run_M.
  rewrite Hopen, Hin. run_M.
  unfold interactive_events. unfold pasted_code in *. cbv zeta in *.
  destruct (truthy_opt (parse_response_code e (strip line))); run_M;
    rewrite Hex, (write_cache_ok _ _ _ _ Hw); cbn;
    rewrite <- !app_assoc; reflexivity.
Qed.

Lemma interactive_path_ok
    (e : env) (st : state) (line : string) (t : token_info) (access : jval) :
  write_error e = None ->
  interactive_succeeds e line t ->
  t !! "access_token" = Some access ->
  interactive_path e st =
    (Ok ({| auth := access |}, _build_oauth, t),
     {| fs := <[CACHE_PATH := Json t]> (fs st);
        log := log st ++ interactive_events e line t |}).
Proof.
  intros Hw Hflow Hacc. unfold interactive_path. run_M.
  rewrite (run_interactive_auth_ok e st line t Hw Hflow).
  unfold dict_item. rewrite Hacc. reflexivity.
Qed.

(** With a cached record that is about to expire, [ensure_spotify_client]
    is one of three runs, by the refresh token and the answer to the refresh
    call. *)
Lemma ensure_refreshes
    (e : env) (st : state) (t new : token_info) (expires_at : Z) (access : jval) :
  fs st !! CACHE_PATH = Some (Json t) ->
  t !! "expires_at" = Some (JInt expires_at) ->
  expires_at - now e < 60 ->
  write_error e = None ->
  truthy (dict_get t "refresh_token" JNull) = true ->
  refresh_access_token e (dict_get t "refresh_token" JNull) = Ok new ->
  new !! "access_token" = Some access ->
  ensure_spotify_client e st =
    (Ok ({| auth := access |}, _build_oauth, new),
     {| fs := <[CACHE_PATH := Json new]> (fs st);
        log := log st ++ [RefreshToken (dict_get t "refresh_token" JNull);
                          WriteCache CACHE_PATH new] |}).
Proof.
  intros Hfile Hexp Hnear Hw Hrt Hrefresh Hacc.
  unfold ensure_spotify_client, _read_cache. run_M.
  rewrite Hfile. run_M.
  rewrite (truthy_dict_lookup t _ _ Hexp).
  unfold dict_get at 1. rewrite Hexp. run_M.
  replace (expires_at - now e <? 60) with true by (symmetry; apply Z.ltb_lt; lia).
  rewrite Hrt, Hrefresh, (write_cache_ok _ _ _ _ Hw). run_M.
  rewrite (truthy_dict_lookup new _ _ Hacc). run_M.
  unfold dict_item. rewrite Hacc. rewrite <- app_assoc. reflexivity.
Qed.

Lemma ensure_without_refresh_token
    (e : env) (st : state) (t : token_info) (expires_at : Z) :
  fs st !! CACHE_PATH = Some (Json t) ->
  t !! "expires_at" = Some (JInt expires_at) ->
  expires_at - now e < 60 ->
  truthy (dict_get t "refresh_token" JNull) = false ->
  ensure_spotify_client e st = interactive_path e st.
Proof.
  intros Hfile Hexp Hnear Hrt.
  unfold ensure_spotify_client, interactive_path, _read_cache. run_M.
  rewrite Hfile. run_M.
  rewrite (truthy_dict_lookup t _ _ Hexp).
  unfold dict_get at 1. rewrite Hexp. run_M.
  replace (expires_at - now e <? 60) with true by (symmetry; apply Z.ltb_lt; lia).
  rewrite Hrt. run_M. change (truthy_dict None) with false. run_M.
  destruct (run_interactive_auth e st) as [[t2|x] st2]; reflexivity.
Qed.

Lemma ensure_refresh_fails
    (e : env) (st : state) (t : token_info) (expires_at : Z) (x : exn) :
  fs st !! CACHE_PATH = Some (Json t) ->
  t !! "expires_at" = Some (JInt expires_at) ->
  expires_at - now e < 60 ->
  truthy (dict_get t "refresh_token" JNull) = true ->
  refresh_access_token e (dict_get t "refresh_token" JNull) = Raise x ->
  ensure_spotify_client e st =
    interactive_path e
      {| fs := fs st;
         log := log st ++ [RefreshToken (dict_get t "refresh_token" JNull);
                           Print ("Refresh failed: " +:+ str_exn x)] |}.
Proof.
  intros Hfile Hexp Hnear Hrt Hrefresh.
  unfold ensure_spotify_client, interactive_path, _read_cache. run_M.
  rewrite Hfile. run_M.
  rewrite (truthy_dict_lookup t _ _ Hexp).
  unfold dict_get at 1. rewrite Hexp. run_M.
  replace (expires_at - now e <? 60) with true by (symmetry; apply Z.ltb_lt; lia).
  rewrite Hrt, Hrefresh. run_M. change (truthy_dict None) with false. run_M.
  rewrite <- app_assoc. cbn.
  destruct (run_interactive_auth e _) as [[t2|y] st2]; reflexivity.
Qed.

(** C5: with a cached record less than 60 seconds from expiry (and a cache
    file that can be written): when the record has a refresh token and the
    refresh call answers, that one call and the write of the new record are
    all that happens, and the new record is returned; when the record has no
    refresh token, or when the refresh call raises, the interactive path is
    taken (after the one failed refresh call in the second case); and the
    interactive path, when the flow goes through, writes the record obtained
    to the cache file and returns it. *)
Theorem expiring_token_is_refreshed_or_reauthorized
    (e : env) (st : state) (t : token_info) (expires_at : Z) :
  fs st !! CACHE_PATH = Some (Json t) ->
  t !! "expires_at" = Some (JInt expires_at) ->
  expires_at - now e < 60 ->
  write_error e = None ->
  (truthy (dict_get t "refresh_token" JNull) = true ->
   forall new access,
     refresh_access_token e (dict_get t "refresh_token" JNull) = Ok new ->
     new !! "access_token" = Some access ->
     ensure_spotify_client e st =
       (Ok ({| auth := access |}, _build_oauth, new),
        {| fs := <[CACHE_PATH := Json new]> (fs st);
           log := log st ++ [RefreshToken (dict_get t "refresh_token" JNull);
                             WriteCache CACHE_PATH new] |})) /\
  (truthy (dict_get t "refresh_token" JNull) = false ->
   ensure_spotify_client e st = interactive_path e st) /\
  (truthy (dict_get t "refresh_token" JNull) = true ->
   forall x,
     refresh_access_token e (dict_get t "refresh_token" JNull) = Raise x ->
     ensure_spotify_client e st =
       interactive_path e
         {| fs := fs st;
            log := log st ++ [RefreshToken (dict_get t "refresh_token" JNull);
                              Print ("Refresh failed: " +:+ str_exn x)] |}) /\
  (forall st0 line t2 access,
     interactive_succeeds e line t2 ->
     t2 !! "access_token" = Some access ->
     interactive_path e st0 =
       (Ok ({| auth := access |}, _build_oauth, t2),
        {| fs := <[CACHE_PATH := Json t2]> (fs st0);
           log := log st0 ++ interactive_events e line t2 |})).
Proof.
  intros Hfile Hexp Hnear Hw. repeat split.
  - intros Hrt new access Hrefresh Hacc. eapply ensure_refreshes; eassumption.
  - intros Hrt. eapply ensure_without_refresh_token; eassumption.
  - intros Hrt x Hrefresh. eapply ensure_refresh_fails; eassumption.
  - intros st0 line t2 access Hflow Hacc. apply interactive_path_ok; assumption.
Qed.

Lemma expiring_token_is_refreshed_or_reauthorized_witness :
  ensure_spotify_client Examples.online (Examples.with_cache Examples.cached_near) =
    (Ok ({| auth := JStr "A1" |}, _build_oauth, Examples.refreshed),
     {| fs := <[CACHE_PATH := Json Examples.refreshed]>
                (fs (Examples.with_cache Examples.cached_near));
        log := log (Examples.with_cache Examples.cached_near) ++
               [RefreshToken (dict_get Examples.cached_near "refresh_token" JNull);
                WriteCache CACHE_PATH Examples.refreshed] |})
  /\
  ensure_spotify_client Examples.online (Examples.with_cache Examples.cached_bare) =
    interactive_path Examples.online (Examples.with_cache Examples.cached_bare)
  /\
  ensure_spotify_client Examples.refresh_down (Examples.with_cache Examples.cached_near) =
    interactive_path Examples.refresh_down
      {| fs := fs (Examples.with_cache Examples.cached_near);
         log := log (Examples.with_cache Examples.cached_near) ++
                [RefreshToken (dict_get Examples.cached_near "refresh_token" JNull);
                 Print ("Refresh failed: " +:+ str_exn (External "invalid_grant"))] |}
  /\
  interactive_path Examples.online (Examples.with_cache Examples.cached_bare) =
    (Ok ({| auth := JStr "A2" |}, _build_oauth, Examples.granted),
     {| fs := <[CACHE_PATH := Json Examples.granted]>
                (fs (Examples.with_cache Examples.cached_bare));
        log := log (Examples.with_cache Examples.cached_bare) ++
               interactive_events Examples.online
                 " http://localhost:8888/callback?code=abc " Examples.granted |}).
Proof.
  assert (Hnear : fs (Examples.with_cache Examples.cached_near) !! CACHE_PATH
                  = Some (Json Examples.cached_near)) by (vm_compute; reflexivity).
  assert (Hbare : fs (Examples.with_cache Examples.cached_bare) !! CACHE_PATH
                  = Some (Json Examples.cached_bare)) by (vm_compute; reflexivity).
  assert (Hexp1 : Examples.cached_near !! "expires_at" = Some (JInt 1010))
    by (vm_compute; reflexivity).
  assert (Hexp2 : Examples.cached_bare !! "expires_at" = Some (JInt 1010))
    by (vm_compute; reflexivity).
  assert (Hlt : 1010 - 1000 < 60) by lia.
  destruct (expiring_token_is_refreshed_or_reauthorized
              Examples.online (Examples.with_cache Examples.cached_near)
              Examples.cached_near 1010 Hnear Hexp1 Hlt eq_refl) as (Hrefresh & _).
  destruct (expiring_token_is_refreshed_or_reauthorized
              Examples.online (Examples.with_cache Examples.cached_bare)
              Examples.cached_bare 1010 Hbare Hexp2 Hlt eq_refl)
    as (_ & Hnone & _ & Hflow).
  destruct (expiring_token_is_refreshed_or_reauthorized
              Examples.refresh_down (Examples.with_cache Examples.cached_near)
              Examples.cached_near 1010 Hnear Hexp1 Hlt eq_refl) as (_ & _ & Hfails & _).
  split; [|split; [|split]].
  - refine (Hrefresh _ Examples.refreshed (JStr "A1") _ _); vm_compute; reflexivity.
  - refine (Hnone _); vm_compute; reflexivity.
  - refine (Hfails _ (External "invalid_grant") _); vm_compute; reflexivity.
  - refine (Hflow _ _ Examples.granted (JStr "A2") _ _).
    + repeat split; vm_compute; reflexivity.
    + vm_compute; reflexivity.
Defined.

(** ** The dispatcher *)

Lemma find_chooses (ds : list device) :
  match List.find is_active ds with
  | Some d =>
      exists i : nat, ds !! i = Some d /\ is_active d = true /\
        forall (j : nat) d', (j < i)%nat -> ds !! j = Some d' -> is_active d' = false
  | None => Forall (fun d => is_active d = false) ds
  end.
Proof.
  induction ds as [|d ds IH]; simpl; [constructor|].
  destruct (is_active d) eqn:Hd.
  - exists 0%nat. repeat split; [exact Hd|]. intros j d' Hj. lia.
  - destruct (List.find is_active ds) as [d1|].
    + destruct IH as (i & Hi & Hact & Hbefore). exists (S i). repeat split; try assumption.
      intros [|j] d' Hj Hd'; simpl in Hd'.
      * injection Hd' as <-. exact Hd.
      * apply (Hbefore j); [lia | exact Hd'].
    + constructor; assumption.
Qed.

Lemma get_active_device_id_ok (e : env) (st : state) (sp : spotify) (ds : list device) :
  api_devices e sp = Ok ds ->
  exists choice,
    chooses ds choice /\
    get_active_device_id sp e st =
      (Ok (d ← choice; id d), {| fs := fs st; log := log st ++ [Devices] |}).
Proof.
  intros Hds. unfold get_active_device_id. run_M. rewrite Hds.
  destruct ds as [|d0 ds]; [exists None; split; [constructor | reflexivity]|].
  pose proof (find_chooses (d0 :: ds)) as Hfind.
  destruct (List.find is_active (d0 :: ds)) as [d|].
  - destruct Hfind as (i & Hi & Hact & Hbefore).
    exists (Some d). split; [econstructor; eassumption | reflexivity].
  - exists (Some d0). split; [constructor; assumption | reflexivity].
Qed.

Lemma count_app (kind : event -> bool) (l1 l2 : list event) :
  count kind (l1 ++ l2) = (count kind l1 + count kind l2)%nat.
Proof. unfold count. rewrite List.filter_app, length_app. reflexivity. Qed.

(** The launch outside the API never raises, makes no API call, and enters
    the launch mechanism once. *)
Lemma fallback_launch_spec (uri : string) (e : env) (st : state) :
  exists added,
    fallback_launch uri e st = (Ok tt, {| fs := fs st; log := log st ++ added |}) /\
    count is_start_playback added = 0%nat /\
    count (is_launch uri) added = 1%nat.
Proof.
  unfold fallback_launch. run_M.
  destruct (startswith uri "spotify:playlist:") eqn:Hpl; run_M.
  - destruct (os_startfile e uri) as [[]|]; [|destruct (subprocess_run e uri) as [[]|];
      [|destruct (webbrowser_open e _) as [[]|]]];
      cbn [fs log]; rewrite <- ?app_assoc; eexists; (split; [reflexivity|]);
      unfold count; cbn; rewrite Hpl, bool_decide_eq_true_2 by reflexivity;
      split; reflexivity.
  - destruct (webbrowser_open e uri) as [[]|];
      cbn [fs log]; rewrite <- ?app_assoc; eexists; (split; [reflexivity|]);
      unfold count; cbn; rewrite Hpl, bool_decide_eq_true_2 by reflexivity;
      split; reflexivity.
Qed.

Lemma start_playback_no_device
    (e : env) (st : state) (sp : spotify) (oauth : option oauth_client)
    (t : token_info) (uri : string) :
  (forall sp', api_devices e sp' = Ok []) ->
  exists files added,
    start_playback sp oauth t uri e st =
      (Ok false, {| fs := files; log := log st ++ added |}) /\
    count is_start_playback added = 0%nat /\
    count (is_launch uri) added = 1%nat.
Proof.
  intros Hnone. unfold start_playback, get_active_device_id, _write_cache. run_M.
  destruct oauth as [o|]; run_M;
    [destruct (is_token_expired e t) as [[|]|x1]; run_M;
       [destruct (dict_item t "refresh_token") as [rt|x2]; run_M;
          [destruct (refresh_access_token e rt) as [new|x3]; run_M;
             [destruct (write_error e) as [[x4|x4 [y4|]]|]; run_M;
                destruct (dict_item new "access_token") as [acc|x5]; run_M | ] | ] | | ] | ];
    rewrite ?Hnone; run_M;
    match goal with
    | |- context [fallback_launch uri e ?s] =>
        destruct (fallback_launch_spec uri e s) as (added & -> & Hapi & Hlaunch)
    end;
    cbn [fs log]; rewrite <- ?app_assoc; eexists _, _;
    (split; [reflexivity|]);
    rewrite ?count_app, Hapi, Hlaunch; split; reflexivity.
Qed.

Lemma chooses_unique (ds : list device) (c1 c2 : option device) :
  chooses ds c1 -> chooses ds c2 -> c1 = c2.
Proof.
  intros H1 H2.
  destruct H1 as [|ds i1 d1 Hi1 Ha1 Hb1|d0 ds Hall1];
    inversion H2 as [|ds' i2 d2 Hi2 Ha2 Hb2|d0' ds' Hall2]; subst; try reflexivity.
  - rewrite lookup_nil in Hi2. discriminate.
  - rewrite lookup_nil in Hi1. discriminate.
  - destruct (lt_eq_lt_dec i1 i2) as [[Hlt|Heq]|Hgt].
    + rewrite (Hb2 i1 d1 Hlt Hi1) in Ha1. discriminate.
    + subst. congruence.
    + rewrite (Hb1 i2 d2 Hgt Hi2) in Ha2. discriminate.
  - rewrite Forall_lookup in Hall2. rewrite (Hall2 i1 d1 Hi1) in Ha1. discriminate.
  - rewrite Forall_lookup in Hall1. rewrite (Hall1 i2 d2 Hi2) in Ha2. discriminate.
Qed.

(** With a token that has not expired, playback starts on the device
    chosen. *)
Lemma start_playback_plays
    (e : env) (st : state) (sp : spotify) (o : oauth_client) (t : token_info)
    (uri : string) (ds : list device) (d : device) (dev : string) :
  is_token_expired e t = Ok false ->
  api_devices e sp = Ok ds ->
  chooses ds (Some d) ->
  id d = Some dev ->
  truthy_str dev = true ->
  api_start_playback e sp dev uri = Ok tt ->
  start_playback sp (Some o) t uri e st =
    (Ok true, {| fs := fs st; log := log st ++ [Devices; StartPlayback dev uri] |}).
Proof.
  intros Hexp Hds Hchoice Hid Hdev Hplay.
  destruct (get_active_device_id_ok e st sp ds Hds) as (choice & Hchoice' & Hget).
  rewrite (chooses_unique ds choice (Some d) Hchoice' Hchoice) in Hget.
  cbn in Hget. rewrite Hid in Hget.
  unfold start_playback. run_M. rewrite Hexp. run_M.
  rewrite Hget, Hdev. run_M. rewrite Hplay, <- app_assoc. reflexivity.
Qed.

(** C6: from a device list the dispatcher takes the first device flagged
    active, else the first device; playback is started on that device; and
    when the list is empty, [start_playback] makes no start-playback call,
    enters the launch outside the API exactly once and returns false. *)
Theorem dispatcher_device_choice :
  (forall e st sp ds,
      api_devices e sp = Ok ds ->
      exists choice,
        chooses ds choice /\
        get_active_device_id sp e st =
          (Ok (d ← choice; id d), {| fs := fs st; log := log st ++ [Devices] |})) /\
  (forall e st sp o t uri ds d dev,
      is_token_expired e t = Ok false ->
      api_devices e sp = Ok ds ->
      chooses ds (Some d) ->
      id d = Some dev ->
      truthy_str dev = true ->
      api_start_playback e sp dev uri = Ok tt ->
      start_playback sp (Some o) t uri e st =
        (Ok true, {| fs := fs st; log := log st ++ [Devices; StartPlayback dev uri] |})) /\
  (forall e st sp oauth t uri,
      (forall sp', api_devices e sp' = Ok []) ->
      exists files added,
        start_playback sp oauth t uri e st =
          (Ok false, {| fs := files; log := log st ++ added |}) /\
        count is_start_playback added = 0%nat /\
        count (is_launch uri) added = 1%nat).
Proof.
  split; [|split].
  - intros. apply get_active_device_id_ok. assumption.
  - intros. eapply start_playback_plays; eassumption.
  - intros. apply start_playback_no_device. assumption.
Qed.

Lemma dispatcher_device_choice_witness :
  (exists choice,
      chooses [ {| id := Some "dev1"; is_active := true |} ] choice /\
      get_active_device_id {| auth := JStr "A0" |} Examples.online Examples.no_cache =
        (Ok (d ← choice; id d),
         {| fs := fs Examples.no_cache; log := log Examples.no_cache ++ [Devices] |}))
  /\
  start_playback {| auth := JStr "A0" |} (Some _build_oauth) Examples.cached_fresh
      "spotify:playlist:37i9dQZF1DXdPec7aLTmlC" Examples.online Examples.no_cache =
    (Ok true,
     {| fs := fs Examples.no_cache;
        log := log Examples.no_cache ++
               [Devices; StartPlayback "dev1" "spotify:playlist:37i9dQZF1DXdPec7aLTmlC"] |})
  /\
  exists files added,
    start_playback {| auth := JStr "A0" |} (Some _build_oauth) Examples.cached_fresh
        "spotify:playlist:37i9dQZF1DXdPec7aLTmlC" Examples.no_device Examples.no_cache =
      (Ok false, {| fs := files; log := log Examples.no_cache ++ added |}) /\
    count is_start_playback added = 0%nat /\
    count (is_launch "spotify:playlist:37i9dQZF1DXdPec7aLTmlC") added = 1%nat.
Proof.
  destruct dispatcher_device_choice as (Hchoice & Hplays & Hempty).
  split; [|split].
  - exact (Hchoice Examples.online Examples.no_cache {| auth := JStr "A0" |}
             [ {| id := Some "dev1"; is_active := true |} ] eq_refl).
  - refine (Hplays Examples.online Examples.no_cache {| auth := JStr "A0" |}
              _build_oauth Examples.cached_fresh _
              [ {| id := Some "dev1"; is_active := true |} ]
              {| id := Some "dev1"; is_active := true |} "dev1"
              eq_refl eq_refl _ eq_refl eq_refl eq_refl).
    apply (chooses_active _ 0%nat); [reflexivity | reflexivity | intros j d' Hj; lia].
  - exact (Hempty Examples.no_device Examples.no_cache {| auth := JStr "A0" |}
             (Some _build_oauth) Examples.cached_fresh _ (fun _ => eq_refl)).
Defined.

Example no_device_falls_back :
  start_playback {| auth := JStr "A0" |} (Some _build_oauth) Examples.cached_fresh
      "spotify:playlist:37i9dQZF1DXdPec7aLTmlC" Examples.no_device Examples.no_cache =
    (Ok false,
     {| fs := ∅;
        log := [Devices;
                Print "API playback failed: No active Spotify device found";
                Startfile "spotify:playlist:37i9dQZF1DXdPec7aLTmlC";
                CmdStart "spotify:playlist:37i9dQZF1DXdPec7aLTmlC"] |}).
Proof. vm_compute. reflexivity. Qed.

(** ** Forced re-authorization *)

Lemma force_reauth_absent (e : env) (st : state) :
  fs st !! CACHE_PATH = None -> force_reauth e st = (Ok tt, st).
Proof.
  intros Habs. unfold force_reauth. run_M.
  rewrite Habs, bool_decide_eq_false_2 by (intros [? ?]; discriminate).
  destruct st; reflexivity.
Qed.

Lemma force_reauth_present (e : env) (st : state) (f : file) :
  fs st !! CACHE_PATH = Some f ->
  force_reauth e st =
    (Ok tt,
     match remove_error e with
     | None =>
         {| fs := delete CACHE_PATH (fs st);
            log := log st ++ [RemoveCache CACHE_PATH;
                              Print ("Deleted cache: " +:+ CACHE_PATH)] |}
     | Some x =>
         {| fs := fs st;
            log := log st ++ [RemoveCache CACHE_PATH;
                              Print ("Failed to delete cache: " +:+ str_exn x)] |}
     end).
Proof.
  intros Hpres. unfold force_reauth. run_M.
  rewrite Hpres, bool_decide_eq_true_2 by eauto.
  destruct (remove_error e); run_M; rewrite <- app_assoc; reflexivity.
Qed.

(** Without a cache file, [ensure_spotify_client] is the interactive path. *)
Lemma ensure_absent (e : env) (st : state) :
  fs st !! CACHE_PATH = None ->
  ensure_spotify_client e st = interactive_path e st.
Proof.
  intros Habs. unfold ensure_spotify_client, interactive_path, _read_cache. run_M.
  rewrite Habs. run_M. change (truthy_dict None) with false. run_M.
  change (truthy_dict None) with false. run_M.
  destruct (run_interactive_auth e st) as [[t|x] st']; reflexivity.
Qed.

Lemma force_reauth_total (e : env) (st : state) :
  exists st', force_reauth e st = (Ok tt, st').
Proof.
  destruct (fs st !! CACHE_PATH) as [f|] eqn:Hfile.
  - rewrite (force_reauth_present e st f Hfile). eauto.
  - rewrite (force_reauth_absent e st Hfile). eauto.
Qed.

(** C8: [force_reauth] never raises and starts no authorization; without a
    cache file it does nothing; when the file can be removed, the cache
    file is gone afterwards whatever it held, a second call changes nothing
    more, and the next [ensure_spotify_client] takes the interactive
    path. *)
Theorem force_reauth_clears_cache (e : env) (st : state) :
  (exists st' added,
      force_reauth e st = (Ok tt, st') /\
      log st' = log st ++ added /\
      count is_authorization added = 0%nat) /\
  (fs st !! CACHE_PATH = None -> force_reauth e st = (Ok tt, st)) /\
  (remove_error e = None ->
   fs (force_reauth e st).2 = delete CACHE_PATH (fs st) /\
   force_reauth e (force_reauth e st).2 = (Ok tt, (force_reauth e st).2) /\
   ensure_spotify_client e (force_reauth e st).2
     = interactive_path e (force_reauth e st).2).
Proof.
  destruct (fs st !! CACHE_PATH) as [f|] eqn:Hfile.
  - rewrite (force_reauth_present e st f Hfile). split; [|split].
    + destruct (remove_error e); eexists _, _; repeat split.
    + discriminate.
    + intros ->. cbn [snd fs]. split; [reflexivity|].
      split; [apply force_reauth_absent | apply ensure_absent]; apply lookup_delete_eq.
  - rewrite (force_reauth_absent e st Hfile). split; [|split].
    + exists st, []. rewrite app_nil_r. repeat split.
    + reflexivity.
    + intros _. cbn [snd]. split; [|split].
      * symmetry. apply delete_id. exact Hfile.
      * apply force_reauth_absent. exact Hfile.
      * apply ensure_absent. exact Hfile.
Qed.

Lemma force_reauth_clears_cache_witness :
  force_reauth Examples.online Examples.no_cache = (Ok tt, Examples.no_cache) /\
  fs (force_reauth Examples.online (Examples.with_cache Examples.cached_fresh)).2
    = delete CACHE_PATH (fs (Examples.with_cache Examples.cached_fresh)) /\
  ensure_spotify_client Examples.online
      (force_reauth Examples.online (Examples.with_cache Examples.cached_fresh)).2
    = interactive_path Examples.online
        (force_reauth Examples.online (Examples.with_cache Examples.cached_fresh)).2.
Proof.
  destruct (force_reauth_clears_cache Examples.online Examples.no_cache)
    as (_ & Habsent & _).
  destruct (force_reauth_clears_cache Examples.online
              (Examples.with_cache Examples.cached_fresh)) as (_ & _ & Hremoved).
  destruct (Hremoved eq_refl) as (Hgone & _ & Hnext).
  split; [|split].
  - apply Habsent. reflexivity.
  - exact Hgone.
  - exact Hnext.
Defined.

Example force_reauth_then_ensure :
  (force_reauth Examples.online (Examples.with_cache Examples.cached_fresh)).2 =
    {| fs := ∅;
       log := [RemoveCache CACHE_PATH; Print "Deleted cache: .cache-spotify"] |} /\
  (ensure_spotify_client Examples.online
     (force_reauth Examples.online (Examples.with_cache Examples.cached_fresh)).2).1 =
    Ok ({| auth := JStr "A2" |}, _build_oauth, Examples.granted).
Proof. split; vm_compute; reflexivity. Qed.

(** ** The session *)

(** C7: a capture while the session has no emotion prints the notice and
    goes on with the loop: the notice is all that is added to the log, so
    there is no look-up in the playlist table, no credential acquisition and
    no playback dispatch; the same holds for the 'q' key in the loop when
    the session has no emotion after the frame. *)
Theorem capture_without_emotion (e : env) (st : state) (s : session) :
  current_emotion s = None ->
  capture s e st =
    (Ok Continue,
     {| fs := fs st;
        log := log st ++
               [Print "No emotion detected yet. Keep your face in frame and try again."] |})
  /\
  forall m fc fr out,
    detect_and_draw fr m fc 640 CONFIDENCE 0.45%Q = Ok out ->
    truthy_opt (dominant_emotion out) = false ->
    iteration m fc (Some fr, 113) s e st =
      (Ok (Continue, s),
       {| fs := fs st;
          log := log st ++
                 [Imshow "Emotion Recommender - press q to capture"
                    (draw (PutText (status_line s) (10, 30) 0.85%Q (255, 255, 255) 2)
                       (dd_frame out));
                  Print "No emotion detected yet. Keep your face in frame and try again."] |}).
Proof.
  intros Hnone. split.
  - unfold capture. rewrite Hnone. reflexivity.
  - intros m fc fr out Hout Hdom. unfold iteration. run_M. rewrite Hout.
    unfold track. rewrite Hdom. unfold capture. rewrite Hnone. run_M.
    rewrite <- app_assoc. reflexivity.
Qed.

Lemma capture_without_emotion_witness :
  capture initial_session Examples.online Examples.no_cache =
    (Ok Continue,
     {| fs := fs Examples.no_cache;
        log := log Examples.no_cache ++
               [Print "No emotion detected yet. Keep your face in frame and try again."] |}).
Proof.
  apply (capture_without_emotion Examples.online Examples.no_cache initial_session).
  reflexivity.
Defined.

(** The capture action never raises: its failures are caught and printed. *)
Lemma dispatch_total (uri : string) (e : env) (st : state) :
  exists c st', dispatch uri e st = (Ok c, st').
Proof.
  unfold dispatch. run_M.
  destruct (ensure_spotify_client e st) as [[[[sp oauth] t]|x] st1]; run_M.
  - destruct (start_playback sp (Some oauth) t uri e st1) as [[[|]|x] st2]; run_M; eauto.
  - eauto.
Qed.

Lemma capture_total (s : session) (e : env) (st : state) :
  exists c st', capture s e st = (Ok c, st').
Proof.
  unfold capture. destruct (current_emotion s) as [emotion|]; run_M; [|eauto].
  destruct (negb (truthy_opt (get_playlist_for_emotion emotion))); run_M; [eauto|].
  apply dispatch_total.
Qed.

(** C9, as the code has it: after a processed frame the session holds the
    aggregator's output for that frame when its label is not none, and is
    left as it was when the label is none (or empty); the 'q' key of that
    pass captures from the session so updated. *)
Theorem session_tracks_last_emotion
    (m : model) (fc : cascade) (fr : frame) (key : Z) (s : session)
    (e : env) (st : state) (out : dd_state) :
  detect_and_draw fr m fc 640 CONFIDENCE 0.45%Q = Ok out ->
  exists c st' s',
    iteration m fc (Some fr, key) s e st = (Ok (c, s'), st') /\
    (truthy_opt (dominant_emotion out) = true ->
     s' = {| current_emotion := dominant_emotion out;
             current_conf := dominant_conf out |}) /\
    (truthy_opt (dominant_emotion out) = false -> s' = s) /\
    (key = 113 ->
     capture s' e
       {| fs := fs st;
          log := log st ++
                 [Imshow "Emotion Recommender - press q to capture"
                    (draw (PutText (status_line s') (10, 30) 0.85%Q (255, 255, 255) 2)
                       (dd_frame out))] |}
     = (Ok c, st')).
Proof.
  intros Hout. unfold iteration. run_M. rewrite Hout.
  set (s' := track s (dominant_emotion out) (dominant_conf out)).
  assert (Hs' : (truthy_opt (dominant_emotion out) = true ->
                 s' = {| current_emotion := dominant_emotion out;
                         current_conf := dominant_conf out |}) /\
                (truthy_opt (dominant_emotion out) = false -> s' = s)).
  { unfold s', track. destruct (truthy_opt (dominant_emotion out)); split;
      intros; try reflexivity; discriminate. }
  destruct Hs' as [Hset Hkeep].
  destruct (key =? 27) eqn:Hesc; run_M.
  { eexists _, _, s'. split; [reflexivity|]. repeat split; try assumption.
    intros ->. discriminate. }
  destruct (key =? 114) eqn:Hr; run_M.
  { destruct (force_reauth_total e
                {| fs := fs st;
                   log := (log st ++
                     [Imshow "Emotion Recommender - press q to capture"
                        (draw (PutText (status_line s') (10, 30) 0.85%Q (255, 255, 255) 2)
                           (dd_frame out))]) ++
                     [Print "Forcing re-auth: deleting cached token and will re-authorize on next play."]
                |}) as (st1 & Hforce).
    rewrite Hforce. eexists _, _, s'. split; [reflexivity|]. repeat split; try assumption.
    intros ->. discriminate. }
  destruct (key =? 113) eqn:Hq; run_M.
  - destruct (capture_total s' e
                {| fs := fs st;
                   log := log st ++
                     [Imshow "Emotion Recommender - press q to capture"
                        (draw (PutText (status_line s') (10, 30) 0.85%Q (255, 255, 255) 2)
                           (dd_frame out))] |}) as (c & st1 & Hcap).
    rewrite Hcap. eexists _, _, s'. split; [reflexivity|]. repeat split; try assumption.
    intros _. exact Hcap.
  - eexists _, _, s'. split; [reflexivity|]. repeat split; try assumption.
    intros ->. discriminate.
Qed.

Lemma session_tracks_last_emotion_witness :
  exists out,
    detect_and_draw (Examples.image 0) Examples.first_image_model Examples.one_face
      640 CONFIDENCE 0.45%Q = Ok out /\
    exists c st' s',
      iteration Examples.first_image_model Examples.one_face (Some (Examples.image 0), 255)
        initial_session Examples.online Examples.no_cache = (Ok (c, s'), st') /\
      (truthy_opt (dominant_emotion out) = true ->
       s' = {| current_emotion := dominant_emotion out;
               current_conf := dominant_conf out |}) /\
      (truthy_opt (dominant_emotion out) = false -> s' = initial_session) /\
      (255 = 113 ->
       capture s' Examples.online
         {| fs := fs Examples.no_cache;
            log := log Examples.no_cache ++
                   [Imshow "Emotion Recommender - press q to capture"
                      (draw (PutText (status_line s') (10, 30) 0.85%Q (255, 255, 255) 2)
                         (dd_frame out))] |}
       = (Ok c, st')).
Proof.
  eexists. split; [reflexivity|].
  apply (session_tracks_last_emotion
           Examples.first_image_model Examples.one_face (Examples.image 0) 255
           initial_session Examples.online Examples.no_cache).
  reflexivity.
Defined.

(** C9 as stated fails: a frame whose dominant label is none leaves the
    session on the emotion of an earlier frame. After a frame with "happy"
    at 0.9 and a frame in which nothing is detected, the session still
    reads ("happy", 0.9), not the (None, 0.0) of the most recent frame. *)
Lemma session_survives_frame_without_emotion :
  exists out s st',
    detect_and_draw (Examples.image 1) Examples.first_image_model Examples.one_face
      640 CONFIDENCE 0.45%Q = Ok out /\
    dominant_emotion out = None /\
    dominant_conf out = 0%Q /\
    main_loop Examples.first_image_model Examples.one_face
      [(Some (Examples.image 0), 255); (Some (Examples.image 1), 255)]
      initial_session Examples.online Examples.no_cache = (Ok s, st') /\
    current_emotion s = Some "happy" /\
    current_conf s = 0.9%Q /\
    (current_emotion s, current_conf s) <> (dominant_emotion out, dominant_conf out).
Proof.
  eexists _, _, _. split; [reflexivity|]. split; [reflexivity|]. split; [reflexivity|].
  split; [reflexivity|]. split; [reflexivity|]. split; [reflexivity|].
  discriminate.
Qed.

(** ** The playlist table *)

Lemma lower_upper_ascii (c : ascii) :
  lower_ascii (upper_ascii c) = lower_ascii c.
Proof.
  destruct c as [[] [] [] [] [] [] [] []]; reflexivity.
Qed.

Lemma lower_recase (mask : list bool) (name : string) :
  lower (recase mask name) = lower name.
Proof.
  revert mask. induction name as [|c name IH]; intros mask.
  - destruct mask as [|[] mask]; reflexivity.
  - destruct mask as [|[] mask]; simpl; [reflexivity| |];
      rewrite ?lower_upper_ascii, IH; reflexivity.
Qed.

Lemma names_are_lower (name : string) :
  name ∈ EMOTION_NAMES -> lower name = name.
Proof.
  unfold EMOTION_NAMES. intros H.
  repeat (apply elem_of_cons in H as [-> | H]; [reflexivity|]).
  inversion H.
Qed.

Lemma playlist_of_lowered (emotion : string) :
  lower emotion ∈ EMOTION_NAMES ->
  exists uri,
    get_playlist_for_emotion emotion = Some uri /\
    truthy_str uri = true /\
    startswith uri "spotify:playlist:" = true.
Proof.
  unfold EMOTION_NAMES, get_playlist_for_emotion. intros H.
  repeat (apply elem_of_cons in H as [-> | H];
          [eexists; split; [reflexivity | split; reflexivity]|]).
  inversion H.
Qed.

(** C10: every name of the enumeration, in any letter case, has a playlist
    URI in the table: the look-up lowers its argument and returns the entry
    of the table at the lowered name, a "spotify:playlist:" URI; so a capture
    with such a label goes on to authorization and playback with that URI:
    the branch of the unmapped emotion is not taken. *)
Theorem every_emotion_has_playlist :
  (forall emotion,
      lower emotion ∈ EMOTION_NAMES ->
      exists uri,
        PLAYLISTS !! lower emotion = Some uri /\
        get_playlist_for_emotion emotion = Some uri /\
        truthy_str uri = true /\
        startswith uri "spotify:playlist:" = true) /\
  (forall name mask,
      name ∈ EMOTION_NAMES ->
      exists uri,
        PLAYLISTS !! name = Some uri /\
        get_playlist_for_emotion (recase mask name) = Some uri /\
        truthy_str uri = true /\
        startswith uri "spotify:playlist:" = true) /\
  (forall emotion q e st,
      lower emotion ∈ EMOTION_NAMES ->
      exists uri,
        PLAYLISTS !! lower emotion = Some uri /\
        startswith uri "spotify:playlist:" = true /\
        get_playlist_for_emotion emotion = Some uri /\
        capture {| current_emotion := Some emotion; current_conf := q |} e st =
          dispatch uri e
            {| fs := fs st;
               log := log st ++
                      [Print ("Captured emotion: " +:+ emotion +:+ " (conf " +:+
                              fmt_2f q +:+ ")");
                       Lookup emotion] |}).
Proof.
  split; [|split].
  - intros emotion H.
    destruct (playlist_of_lowered emotion H) as (uri & Hget & Huri & Hprefix).
    exists uri. repeat split; assumption.
  - intros name mask H.
    destruct (playlist_of_lowered (recase mask name)) as (uri & Hget & Huri & Hprefix).
    { rewrite lower_recase, (names_are_lower name H). exact H. }
    exists uri. split; [|repeat split; assumption].
    unfold get_playlist_for_emotion in Hget.
    rewrite lower_recase, (names_are_lower name H) in Hget. exact Hget.
  - intros emotion q e st H.
    destruct (playlist_of_lowered emotion H) as (uri & Hget & Huri & Hprefix).
    exists uri. split; [exact Hget|]. split; [exact Hprefix|]. split; [exact Hget|].
    unfold capture. cbn [current_emotion current_conf]. run_M.
    rewrite Hget. cbn [truthy_opt]. rewrite Huri. cbn [negb default].
    rewrite <- app_assoc. reflexivity.
Qed.

Lemma every_emotion_has_playlist_witness :
  (exists uri,
      PLAYLISTS !! lower "HAPPY" = Some uri /\
      get_playlist_for_emotion "HAPPY" = Some uri /\
      truthy_str uri = true /\
      startswith uri "spotify:playlist:" = true) /\
  (exists uri,
      PLAYLISTS !! "surprise" = Some uri /\
      get_playlist_for_emotion (recase [true; false; true] "surprise") = Some uri /\
      truthy_str uri = true /\
      startswith uri "spotify:playlist:" = true) /\
  (exists uri,
      PLAYLISTS !! lower "Sad" = Some uri /\
      startswith uri "spotify:playlist:" = true /\
      get_playlist_for_emotion "Sad" = Some uri /\
      capture {| current_emotion := Some "Sad"; current_conf := 0.9%Q |}
        Examples.online Examples.no_cache =
        dispatch uri Examples.online
          {| fs := fs Examples.no_cache;
             log := log Examples.no_cache ++
                    [Print ("Captured emotion: " +:+ "Sad" +:+ " (conf " +:+
                            fmt_2f 0.9%Q +:+ ")");
                     Lookup "Sad"] |}).
Proof.
  destruct every_emotion_has_playlist as (Hany & Hcase & Hcapture).
  split; [|split].
  - apply (Hany "HAPPY"). vm_compute. do 4 right. left.
  - apply (Hcase "surprise" [true; false; true]). unfold EMOTION_NAMES. do 7 right. left.
  - apply (Hcapture "Sad" 0.9%Q Examples.online Examples.no_cache).
    vm_compute. do 6 right. left.
Defined.

(** The entries of the table, as the source lists them: each name of the
    enumeration, in upper case too, gets its own playlist. *)
Example playlists_as_listed :
  map get_playlist_for_emotion
    ["ANGER"; "Content"; "disgust"; "FEAR"; "Happy"; "neutral"; "SAD"; "Surprise"]
  = map Some
      ["spotify:playlist:37i9dQZF1DX8tZsk68tuDw";
       "spotify:playlist:37i9dQZF1DX4WYpdgoIcn6";
       "spotify:playlist:37i9dQZF1DX4VvfRBFClxm";
       "spotify:playlist:37i9dQZF1DWXRqgorJj26U";
       "spotify:playlist:37i9dQZF1DXdPec7aLTmlC";
       "spotify:playlist:37i9dQZF1DX4sWSpwq3LiO";
       "spotify:playlist:37i9dQZF1DX7qK8ma5wgG1";
       "spotify:playlist:37i9dQZF1DXcBWIGoYBM5M"].
Proof. vm_compute. reflexivity. Qed.

Example playlist_for_happy :
  get_playlist_for_emotion "Happy" = Some "spotify:playlist:37i9dQZF1DXdPec7aLTmlC".
Proof. reflexivity. Qed.

Example no_playlist_for_raw_id : get_playlist_for_emotion (str 8) = None.
Proof. reflexivity. Qed.

(** * Further properties *)

Import SpecMore.

(** ** The classifier adapter *)

Lemma max_by_split {A} (key : A -> Q) (l : list A) :
  forall best,
  exists pre post,
    best :: l = pre ++ max_by key best l :: post /\
    Forall (fun x => (key x < key (max_by key best l))%Q) pre /\
    Forall (fun x => (key x <= key (max_by key best l))%Q) post.
Proof.
  induction l as [|x l IH]; intros best; simpl.
  - exists [], []. repeat split; constructor.
  - destruct (Qgtb (key x) (key best)) eqn:Hcmp.
    + apply Qgtb_true in Hcmp.
      destruct (IH x) as (pre & post & Heq & Hpre & Hpost).
      remember (max_by key x l) as r eqn:Hr. clear Hr.
      exists (best :: pre), post. split; [simpl; rewrite <- Heq; reflexivity|].
      split; [|exact Hpost]. constructor; [|exact Hpre].
      destruct pre as [|y pre]; simpl in Heq.
      * injection Heq as Hx _. rewrite <- Hx. exact Hcmp.
      * injection Heq as Hx _. subst y. inversion Hpre; subst.
        eapply Qlt_trans; eassumption.
    + apply Qgtb_false in Hcmp.
      destruct (IH best) as (pre & post & Heq & Hpre & Hpost).
      remember (max_by key best l) as r eqn:Hr. clear Hr.
      destruct pre as [|y pre]; simpl in Heq.
      * injection Heq as Hbest Hl. subst r l. exists [], (x :: post).
        split; [reflexivity|]. split; [constructor|].
        constructor; [exact Hcmp | exact Hpost].
      * injection Heq as Hy Hl. subst y l. exists (best :: x :: pre), post.
        split; [reflexivity|]. split; [|exact Hpost].
        inversion Hpre as [|? ? Hbest Hrest]; subst.
        constructor; [exact Hbest|]. constructor; [|exact Hrest].
        eapply Qle_lt_trans; eassumption.
Qed.

(** X1: [predict_on_face_crop] returns (None, 0.0) exactly when the model
    reports no detection for the crop; otherwise it returns the class and
    confidence of the first detection of largest confidence: every earlier
    detection is strictly below it and no later one is above it. *)
Theorem predict_on_face_crop_first_max
    (m : model) (src : source) (imgsz : Z) (conf iou : Q) :
  (_read_results (predict m src imgsz conf iou) = [] /\
   predict_on_face_crop m src imgsz conf iou = (None, 0%Q))
  \/
  (exists pre d post,
      _read_results (predict m src imgsz conf iou) = pre ++ d :: post /\
      predict_on_face_crop m src imgsz conf iou = (Some (det_cls d), det_conf d) /\
      Forall (fun x => (det_conf x < det_conf d)%Q) pre /\
      Forall (fun x => (det_conf x <= det_conf d)%Q) post).
Proof.
  unfold predict_on_face_crop.
  destruct (_read_results (predict m src imgsz conf iou)) as [|d ds];
    [left; split; reflexivity|].
  right. destruct (max_by_split det_conf ds d) as (pre & post & Heq & Hpre & Hpost).
  exists pre, (max_by det_conf d ds), post. repeat split; assumption.
Qed.

(** Only the first of the [Results] objects is read, and it gives one
    detection per box. *)
Example read_results_first_only :
  _read_results [ {| boxes := Some [Examples.box 4 0.9] |};
                  {| boxes := Some [Examples.box 2 0.7] |} ]
  = [(1, 2, 30, 40, 4, 0.9%Q)].
Proof. reflexivity. Qed.

(** ** The padded crop *)

Lemma pad_nonneg (side : Z) : 0 <= side -> 0 <= trunc (0.15 * inject_Z side)%Q.
Proof.
  intros Hside. unfold trunc. cbn [Qnum Qden Qmult inject_Z].
  apply Z.quot_pos; lia.
Qed.

(** X2: the padded crop never leaves the frame (0 <= x1, 0 <= y1, x2 <= w,
    y2 <= h), and it contains the face rectangle whenever that rectangle has
    non-negative sides and lies within the frame. *)
Theorem padded_within_frame (h w x y fw fh : Z) :
  exists x1 y1 x2 y2,
    padded h w (x, y, fw, fh) = (x1, y1, x2, y2) /\
    0 <= x1 /\ 0 <= y1 /\ x2 <= w /\ y2 <= h /\
    (0 <= fw -> 0 <= fh -> 0 <= x -> 0 <= y -> x + fw <= w -> y + fh <= h ->
     x1 <= x /\ y1 <= y /\ x + fw <= x2 /\ y + fh <= y2).
Proof.
  unfold padded. eexists _, _, _, _. split; [reflexivity|].
  repeat split; try lia.
  all: intros; pose proof (pad_nonneg (Z.max fw fh)) as Hpad; lia.
Qed.

Lemma padded_within_frame_witness :
  padded 480 640 (600, 10, 30, 40) = (594, 4, 636, 56) /\
  594 <= 600 /\ 4 <= 10 /\ 600 + 30 <= 636 /\ 10 + 40 <= 56.
Proof.
  destruct (padded_within_frame 480 640 600 10 30 40)
    as (x1 & y1 & x2 & y2 & Heq & _ & _ & _ & _ & Hin).
  vm_compute in Heq. injection Heq as <- <- <- <-.
  split; [reflexivity|]. apply Hin; lia.
Defined.

(** A face at the border of the frame: the padding is clamped. *)
Example padded_clamped : padded 480 640 (600, 440, 40, 40) = (594, 434, 640, 480).
Proof. reflexivity. Qed.

(** ** The drawings on the frame *)







(** The face that does not become dominant is drawn all the same. *)
Example both_faces_drawn :
  exists st,
    detect_and_draw Examples.blank Examples.rising_model Examples.two_faces
      640 CONFIDENCE 0.45%Q = Ok st /\
    dominant_emotion st = Some "happy" /\
    drawn (dd_frame st) =
      [Rectangle (0, 0) (128, 148) (0, 200, 0) 2;
       PutText "disgust 0.70" (0, -8) 0.7%Q (0, 200, 0) 2;
       Rectangle (288, 38) (392, 142) (0, 200, 0) 2;
       PutText "happy 0.90" (288, 30) 0.7%Q (0, 200, 0) 2].
Proof. eexists. repeat split. Qed.



(** The second crop is cut from the frame that already shows the first
    face's rectangle and label. *)
Example second_crop_is_drawn_on :
  exists st,
    detect_and_draw Examples.blank Examples.rising_model Examples.two_faces
      640 CONFIDENCE 0.45%Q = Ok st /\
    frame_of <$> predict_calls st =
      [Examples.blank;
       {| shape := (480, 640); pixels := 0%N;
          drawn := [Rectangle (0, 0) (128, 148) (0, 200, 0) 2;
                    PutText "disgust 0.70" (0, -8) 0.7%Q (0, 200, 0) 2] |}].
Proof. eexists. split; reflexivity. Qed.

(** One pass through the loop over the whole-frame detections, seen from
    the frame. *)
Lemma det_loop_marks :
  forall (dets : list detection) (st : dd_state),
  Forall (fun d => 0 <= det_cls d) dets ->
  exists st' labels,
    for_each det_step st dets = Ok st' /\
    Forall2 (fun d label => box_label (Some (det_cls d)) (det_conf d) = Ok label)
      dets labels /\
    shape (dd_frame st') = shape (dd_frame st) /\
    pixels (dd_frame st') = pixels (dd_frame st) /\
    drawn (dd_frame st') =
      drawn (dd_frame st) ++ concat (zip_with det_marks dets labels).
Proof.
  induction dets as [|d dets IH]; intros st Hids.
  - exists st, []. cbn. rewrite app_nil_r. repeat split. constructor.
  - inversion Hids as [|? ? Hd Hrest]; subst.
    destruct (det_step_ok st d Hd) as (st1 & Hstep & _ & _).
    destruct (box_label_total (det_cls d) (det_conf d) Hd) as [label Hlabel].
    assert (Hframe : shape (dd_frame st1) = shape (dd_frame st) /\
                     pixels (dd_frame st1) = pixels (dd_frame st) /\
                     drawn (dd_frame st1) = drawn (dd_frame st) ++ det_marks d label).
    { revert Hstep Hlabel. destruct d as [[[[[x1 y1] x2] y2] c] q].
      unfold det_step, det_cls, det_conf, det_marks. cbn [fst snd].
      destruct (update_dominant (Some c) q (dominant_emotion st, dominant_conf st))
        as [dom|x]; [|discriminate].
      intros Hstep Hlabel. rewrite Hlabel in Hstep. cbn in Hstep.
      injection Hstep as <-. cbn. rewrite <- app_assoc. repeat split. }
    destruct Hframe as (Hshape & Hpix & Hdrawn).
    destruct (IH st1 Hrest) as (st' & labels & Hloop & Hlabels & Hshape' & Hpix' & Hdrawn').
    exists st', (label :: labels). cbn [for_each]. rewrite Hstep.
    split; [exact Hloop|]. split; [constructor; assumption|].
    split; [congruence|]. split; [congruence|].
    rewrite Hdrawn', Hdrawn, <- app_assoc. reflexivity.
Qed.

(** X5: without faces, each detection of the whole-frame call is drawn
    with its own box and label, in the order of the detections; the frame
    keeps its shape and image, and is returned as it was when nothing is
    detected. *)
Theorem every_detection_is_annotated
    (fr : frame) (m : model) (fc : cascade) (imgsz : Z) (conf iou : Q) :
  ids_nonneg m ->
  detectMultiScale fc fr 1.1%Q 5 (40, 40) = [] ->
  exists st labels,
    detect_and_draw fr m fc imgsz conf iou = Ok st /\
    Forall2 (fun d label => box_label (Some (det_cls d)) (det_conf d) = Ok label)
      (_read_results (predict m (Whole fr) imgsz conf iou)) labels /\
    shape (dd_frame st) = shape fr /\
    pixels (dd_frame st) = pixels fr /\
    drawn (dd_frame st) =
      drawn fr ++
      concat (zip_with det_marks (_read_results (predict m (Whole fr) imgsz conf iou))
                labels).
Proof.
  intros Hids Hfaces. unfold detect_and_draw.
  destruct (shape fr) as [h w] eqn:Hshape0. rewrite Hfaces. simpl length.
  change (0 <? Z.of_nat 0) with false. cbv iota.
  destruct (det_loop_marks (_read_results (predict m (Whole fr) imgsz conf iou))
              {| dd_frame := fr; dominant_emotion := None; dominant_conf := 0%Q;
                 predict_calls := [Whole fr] |})
    as (st & labels & Hloop & Hlabels & Hshape & Hpix & Hdrawn).
  { apply Forall_forall. intros d Hd. eapply Hids. exact Hd. }
  cbn in Hshape, Hpix, Hdrawn. exists st, labels.
  repeat split; try assumption. congruence.
Qed.

Lemma every_detection_is_annotated_witness :
  exists st labels,
    detect_and_draw Examples.blank Examples.happy_model Examples.no_face
      640 CONFIDENCE 0.45%Q = Ok st /\
    Forall2 (fun d label => box_label (Some (det_cls d)) (det_conf d) = Ok label)
      (_read_results (predict Examples.happy_model (Whole Examples.blank)
                        640 CONFIDENCE 0.45%Q)) labels /\
    shape (dd_frame st) = shape Examples.blank /\
    pixels (dd_frame st) = pixels Examples.blank /\
    drawn (dd_frame st) =
      drawn Examples.blank ++
      concat (zip_with det_marks
                (_read_results (predict Examples.happy_model (Whole Examples.blank)
                                  640 CONFIDENCE 0.45%Q))
                labels).
Proof.
  apply (every_detection_is_annotated Examples.blank Examples.happy_model Examples.no_face
           640 CONFIDENCE 0.45%Q); [apply happy_model_ids | reflexivity].
Defined.

(** ** The rendering of class ids *)








(** The two renderings side by side: the class id 8 at 0.9 in the first
    face and the class id 4 ("happy") at 0.7 in the second. *)
Example renderings_side_by_side :
  renders_drawn (Some 8, 0.9%Q) "... 0.90" /\ renders_dominant 8 "8" /\
  renders_drawn (Some 4, 0.7%Q) "happy 0.70" /\ renders_dominant 4 "happy" /\
  renders_drawn (None, 0%Q) "...".
Proof.
  unfold renders_drawn, renders_dominant. cbn [fst snd].
  repeat split; try (intros; lia); try reflexivity.
  intros _. exists "happy". split; reflexivity.
Qed.

(** ** The dominant emotion as the session sees it *)

Lemma index_elem {A} (l : list A) (i : Z) (x : A) : index l i = Ok x -> x ∈ l.
Proof.
  unfold index. destruct (_ <? 0); [discriminate|].
  destruct (l !! _) as [y|] eqn:Hy; [|discriminate].
  intros H. injection H as <-. eapply list_elem_of_lookup_2. exact Hy.
Qed.

Lemma pretty_N_go_head (x : N) :
  forall s, numeric_head s = true -> numeric_head (pretty_N_go x s) = true.
Proof.
  induction (N.lt_wf_0 x) as [x _ IH]. intros s Hs.
  destruct (N.eq_dec x 0%N) as [-> | Hx]; [rewrite pretty_N_go_0; exact Hs|].
  rewrite pretty_N_go_step by lia. apply IH.
  - apply N.div_lt; lia.
  - unfold pretty_N_char. repeat case_match; reflexivity.
Qed.

Lemma str_numeric_head (n : Z) : numeric_head (str n) = true.
Proof.
  assert (Hpos : forall p : positive, numeric_head (pretty (Npos p)) = true).
  { intros p. unfold pretty, pretty_N. rewrite decide_False by discriminate.
    rewrite pretty_N_go_step by lia. apply pretty_N_go_head.
    unfold pretty_N_char. repeat case_match; reflexivity. }
  destruct n as [|p|p]; [reflexivity | apply Hpos | reflexivity].
Qed.

Lemma numeric_head_truthy (s : string) : numeric_head s = true -> truthy_str s = true.
Proof. destruct s; [discriminate | reflexivity]. Qed.

(** A name given to a class id is never the empty string. *)
Lemma name_or_truthy (c : Z) (name : string) :
  name_or (str c) c = Ok name -> truthy_str name = true.
Proof.
  unfold name_or. destruct (c <? len_names).
  - intros H. apply index_elem in H. unfold EMOTION_NAMES in H.
    repeat (apply elem_of_cons in H as [-> | H]; [reflexivity|]).
    inversion H.
  - intros H. injection H as <-. apply numeric_head_truthy, str_numeric_head.
Qed.

(** The aggregator returns, with a dominant that the rule of
    [update_dominant] gives from (None, 0.0) over some list of results. *)
Lemma detect_and_draw_dominant
    (fr : frame) (m : model) (fc : cascade) (imgsz : Z) (conf iou : Q) :
  ids_nonneg m ->
  exists st rs,
    detect_and_draw fr m fc imgsz conf iou = Ok st /\
    dominant_from rs None 0%Q (dominant_emotion st) (dominant_conf st).
Proof.
  intros Hids. unfold detect_and_draw. destruct (shape fr) as [h w].
  destruct (0 <? Z.of_nat (length (detectMultiScale fc fr 1.1%Q 5 (40, 40)))).
  - destruct (face_loop_spec m imgsz conf iou h w Hids
                (detectMultiScale fc fr 1.1%Q 5 (40, 40))
                {| dd_frame := fr; dominant_emotion := None; dominant_conf := 0%Q;
                   predict_calls := [] |}) as (st & crops & Hloop & _ & _ & Hdom).
    eauto.
  - destruct (det_loop_spec (_read_results (predict m (Whole fr) imgsz conf iou))
                {| dd_frame := fr; dominant_emotion := None; dominant_conf := 0%Q;
                   predict_calls := [Whole fr] |}) as (st & Hloop & _ & Hdom).
    + apply Forall_forall. intros d Hd. eapply Hids. exact Hd.
    + eauto.
Qed.

(** X6: in both paths the aggregator returns either (None, 0.0) exactly,
    or a non-empty label with a confidence above 0.0; hence the guard
    [if dom_emotion:] of the main loop updates the session exactly when the
    label is not None. *)
Theorem dominant_is_none_or_positive
    (fr : frame) (m : model) (fc : cascade) (imgsz : Z) (conf iou : Q) :
  ids_nonneg m ->
  exists st,
    detect_and_draw fr m fc imgsz conf iou = Ok st /\
    ((dominant_emotion st = None /\ dominant_conf st = 0%Q) \/
     (exists name,
         dominant_emotion st = Some name /\ truthy_str name = true /\
         (0 < dominant_conf st)%Q)) /\
    forall s,
      track s (dominant_emotion st) (dominant_conf st) =
        match dominant_emotion st with
        | Some _ => {| current_emotion := dominant_emotion st;
                       current_conf := dominant_conf st |}
        | None => s
        end.
Proof.
  intros Hids.
  destruct (detect_and_draw_dominant fr m fc imgsz conf iou Hids) as (st & rs & Hrun & Hdom).
  exists st. split; [exact Hrun|].
  destruct Hdom as [(-> & -> & _) | (i & c & name & _ & Hname & -> & Hlt & _)].
  - split; [left; split; reflexivity | reflexivity].
  - pose proof (name_or_truthy c name Hname) as Htruthy.
    split; [right; exists name; repeat split; assumption|].
    intros s. unfold track. cbn [truthy_opt]. rewrite Htruthy. reflexivity.
Qed.

Lemma dominant_is_none_or_positive_witness :
  exists st,
    detect_and_draw Examples.blank Examples.happy_model Examples.two_faces
      640 CONFIDENCE 0.45%Q = Ok st /\
    ((dominant_emotion st = None /\ dominant_conf st = 0%Q) \/
     (exists name,
         dominant_emotion st = Some name /\ truthy_str name = true /\
         (0 < dominant_conf st)%Q)) /\
    forall s,
      track s (dominant_emotion st) (dominant_conf st) =
        match dominant_emotion st with
        | Some _ => {| current_emotion := dominant_emotion st;
                       current_conf := dominant_conf st |}
        | None => s
        end.
Proof.
  apply (dominant_is_none_or_positive Examples.blank Examples.happy_model Examples.two_faces
           640 CONFIDENCE 0.45%Q), happy_model_ids.
Defined.

(** ** The playlist table *)

Ltac split_entries H :=
  apply elem_of_list_to_map_2 in H;
  repeat (apply elem_of_cons in H as [H | H]);
  [simplify_eq .. | inversion H].

Lemma playlists_entry (k uri : string) :
  PLAYLISTS !! k = Some uri ->
  k ∈ EMOTION_NAMES /\ startswith uri "spotify:playlist:" = true /\
  forall k', PLAYLISTS !! k' = Some uri -> k' = k.
Proof.
  unfold PLAYLISTS. intros H. split_entries H.
  all: split; [unfold EMOTION_NAMES; set_solver|].
  all: split; [reflexivity|].
  all: intros k' H'; split_entries H'; reflexivity.
Qed.

(** X7: the look-up finds a playlist only for a string whose lower-case
    form is one of the eight names; every playlist found is a
    "spotify:playlist:" URI; two strings with the same playlist are the same
    emotion up to letter case; and the look-up does not depend on the letter
    case of its argument. *)
Theorem playlist_table_domain :
  (forall s uri,
      get_playlist_for_emotion s = Some uri ->
      lower s ∈ EMOTION_NAMES /\ startswith uri "spotify:playlist:" = true) /\
  (forall s1 s2 uri,
      get_playlist_for_emotion s1 = Some uri ->
      get_playlist_for_emotion s2 = Some uri ->
      lower s1 = lower s2) /\
  (forall mask s,
      get_playlist_for_emotion (recase mask s) = get_playlist_for_emotion s).
Proof.
  unfold get_playlist_for_emotion. split; [|split].
  - intros s uri H. destruct (playlists_entry _ _ H) as (Hk & Huri & _). auto.
  - intros s1 s2 uri H1 H2. destruct (playlists_entry _ _ H2) as (_ & _ & Hsame).
    apply Hsame. exact H1.
  - intros mask s. rewrite lower_recase. reflexivity.
Qed.

Lemma playlist_table_domain_witness :
  (lower "HAPPY" ∈ EMOTION_NAMES /\
   startswith "spotify:playlist:37i9dQZF1DXdPec7aLTmlC" "spotify:playlist:" = true) /\
  lower "Sad" = lower "sAD".
Proof.
  destruct playlist_table_domain as (Hdom & Hinj & _).
  split.
  - apply (Hdom "HAPPY"). reflexivity.
  - apply (Hinj "Sad" "sAD" "spotify:playlist:37i9dQZF1DX7qK8ma5wgG1"); reflexivity.
Defined.

(** A raw numeric label is no key of the table. *)
Lemma numeric_head_lower (s : string) :
  numeric_head s = true -> numeric_head (lower s) = true.
Proof.
  destruct s as [|c s]; [discriminate|]. cbn.
  destruct c as [[] [] [] [] [] [] [] []]; cbn; intros H; first [exact H | discriminate H].
Qed.

Lemma no_playlist_for_numeric (s : string) :
  numeric_head s = true -> get_playlist_for_emotion s = None.
Proof.
  intros Hs. apply numeric_head_lower in Hs.
  destruct (get_playlist_for_emotion s) as [uri|] eqn:Hget; [|reflexivity].
  unfold get_playlist_for_emotion in Hget.
  destruct (playlists_entry _ _ Hget) as (Hk & _). unfold EMOTION_NAMES in Hk.
  repeat (apply elem_of_cons in Hk as [Hk | Hk];
          [rewrite Hk in Hs; discriminate Hs|]).
  inversion Hk.
Qed.

(** X8: a class id beyond the enumeration becomes the label [str(cls_id)],
    and no such label has a playlist: capturing it prints the notice of the
    unmapped emotion and goes on with the loop, without authorization or
    playback. *)
Theorem numeric_label_is_unmapped (c : Z) (q : Q) (e : env) (st : state) :
  get_playlist_for_emotion (str c) = None /\
  capture {| current_emotion := Some (str c); current_conf := q |} e st =
    (Ok Continue,
     {| fs := fs st;
        log := log st ++
               [Print ("Captured emotion: " +:+ str c +:+ " (conf " +:+ fmt_2f q +:+ ")");
                Lookup (str c);
                Print ("No playlist mapped for emotion: " +:+ str c)] |}).
Proof.
  pose proof (no_playlist_for_numeric (str c) (str_numeric_head c)) as Hnone.
  split; [exact Hnone|].
  unfold capture. cbn [current_emotion current_conf]. run_M.
  rewrite Hnone. cbn. rewrite <- !app_assoc. reflexivity.
Qed.

Example unknown_id_captured :
  exists st,
    detect_and_draw Examples.blank Examples.id8_model Examples.one_face
      640 CONFIDENCE 0.45%Q = Ok st /\
    dominant_emotion st = Some (str 8) /\
    (capture (track initial_session (dominant_emotion st) (dominant_conf st))
       Examples.online Examples.no_cache).1 = Ok Continue.
Proof. eexists. repeat split. Qed.

(** ** The cache file *)

Lemma write_cache_fails (e : env) (st : state) (path : string) (t : token_info)
    (w : write_failure) :
  write_error e = Some w ->
  _write_cache path t e st =
    (Ok tt,
     {| fs := match w with
              | OpenFails _ => fs st
              | DumpFails _ partial => <[path := left_by partial t]> (fs st)
              end;
        log := log st ++ [WriteCache path t;
                          Print ("Failed writing token cache: " +:+
                                 str_exn (failure_exn w))] |}).
Proof.
  intros Hw. unfold _write_cache. run_M. rewrite Hw.
  destruct w as [x|x partial]; run_M; rewrite <- app_assoc; reflexivity.
Qed.

Lemma read_cache_result (e : env) (st : state) (path : string) :
  _read_cache path e st =
    match fs st !! path with
    | Some (Json t) => (Ok (Some t), st)
    | Some (Garbage x) =>
        (Ok None, {| fs := fs st;
                     log := log st ++ [Print ("Failed reading token cache: " +:+ str_exn x)] |})
    | None => (Ok None, st)
    end.
Proof.
  unfold _read_cache. run_M. destruct (fs st !! path) as [[t|x]|]; reflexivity.
Qed.

(** X9: what [_write_cache] stores, [_read_cache] loads: after a write that
    goes through, reading the same path gives the record written and
    changes nothing, reading any other path gives what it gave before, and
    a second write replaces the first. *)
Theorem cache_round_trip
    (e : env) (st : state) (path : string) (t : token_info) :
  write_error e = None ->
  _read_cache path e (_write_cache path t e st).2
    = (Ok (Some t), (_write_cache path t e st).2) /\
  (forall path',
      path' <> path ->
      (_read_cache path' e (_write_cache path t e st).2).1 = (_read_cache path' e st).1) /\
  (forall t',
      fs (_write_cache path t' e (_write_cache path t e st).2).2
        = fs (_write_cache path t' e st).2).
Proof.
  intros Hw. rewrite (write_cache_ok e st path t Hw). cbn [snd]. split; [|split].
  - rewrite read_cache_result. cbn [fs]. rewrite lookup_insert_eq. reflexivity.
  - intros path' Hne. rewrite !read_cache_result. cbn [fs].
    rewrite lookup_insert_ne by congruence.
    destruct (fs st !! path') as [[t'|x]|]; reflexivity.
  - intros t'. rewrite !(write_cache_ok e _ path t' Hw). cbn [snd fs].
    apply insert_insert_eq.
Qed.

Lemma cache_round_trip_witness :
  _read_cache CACHE_PATH Examples.online
    (_write_cache CACHE_PATH Examples.granted Examples.online
       (Examples.with_cache Examples.cached_near)).2
  = (Ok (Some Examples.granted),
     (_write_cache CACHE_PATH Examples.granted Examples.online
        (Examples.with_cache Examples.cached_near)).2).
Proof.
  apply (cache_round_trip Examples.online (Examples.with_cache Examples.cached_near)
           CACHE_PATH Examples.granted).
  reflexivity.
Defined.

(** X10: a cache file that cannot be loaded, or that holds an empty
    record, counts as no cache: [ensure_spotify_client] takes the interactive
    path (after the printed notice for the unreadable file), with no refresh
    call. *)
Theorem unusable_cache_is_reauthorized (e : env) (st : state) :
  (forall x,
      fs st !! CACHE_PATH = Some (Garbage x) ->
      ensure_spotify_client e st =
        interactive_path e
          {| fs := fs st;
             log := log st ++ [Print ("Failed reading token cache: " +:+ str_exn x)] |}) /\
  (fs st !! CACHE_PATH = Some (Json ∅) ->
   ensure_spotify_client e st = interactive_path e st).
Proof.
  split.
  - intros x Hfile.
    unfold ensure_spotify_client, interactive_path. unfold mbind at 1 3, M_bind.
    rewrite read_cache_result, Hfile. run_M.
    change (truthy_dict None) with false. run_M.
    change (truthy_dict None) with false. run_M.
    destruct (run_interactive_auth e _) as [[t|y] st']; reflexivity.
  - intros Hfile.
    unfold ensure_spotify_client, interactive_path. unfold mbind at 1 3, M_bind.
    rewrite read_cache_result, Hfile. run_M.
    change (truthy_dict (Some ∅)) with false. run_M.
    change (truthy_dict (Some ∅)) with false. run_M.
    destruct (run_interactive_auth e st) as [[t|y] st']; reflexivity.
Qed.

Lemma unusable_cache_is_reauthorized_witness :
  ensure_spotify_client Examples.online MoreExamples.corrupt_cache =
    interactive_path Examples.online
      {| fs := fs MoreExamples.corrupt_cache;
         log := log MoreExamples.corrupt_cache ++
                [Print ("Failed reading token cache: " +:+
                        str_exn (External "Expecting value"))] |}
  /\
  ensure_spotify_client Examples.online MoreExamples.empty_record_cache =
    interactive_path Examples.online MoreExamples.empty_record_cache.
Proof.
  split.
  - refine (proj1 (unusable_cache_is_reauthorized Examples.online MoreExamples.corrupt_cache)
              (External "Expecting value") _).
    vm_compute. reflexivity.
  - refine (proj2 (unusable_cache_is_reauthorized Examples.online
                     MoreExamples.empty_record_cache) _).
    vm_compute. reflexivity.
Defined.

(** X11: a refresh whose result cannot be written to the cache file still
    succeeds: the failure is printed and the refreshed record is returned.
    The cache file keeps the old record only when the file could not be
    opened; when the failure comes after the file was opened for writing,
    the old record is gone and the file holds what the interrupted write
    left: a text that cannot be loaded, or the new record. *)
Theorem refresh_survives_write_failure
    (e : env) (st : state) (t new : token_info) (expires_at : Z) (access : jval)
    (w : write_failure) :
  fs st !! CACHE_PATH = Some (Json t) ->
  t !! "expires_at" = Some (JInt expires_at) ->
  expires_at - now e < 60 ->
  write_error e = Some w ->
  truthy (dict_get t "refresh_token" JNull) = true ->
  refresh_access_token e (dict_get t "refresh_token" JNull) = Ok new ->
  new !! "access_token" = Some access ->
  exists st',
    ensure_spotify_client e st = (Ok ({| auth := access |}, _build_oauth, new), st') /\
    log st' = log st ++ [RefreshToken (dict_get t "refresh_token" JNull);
                         WriteCache CACHE_PATH new;
                         Print ("Failed writing token cache: " +:+
                                str_exn (failure_exn w))] /\
    fs st' !! CACHE_PATH =
      match w with
      | OpenFails _ => Some (Json t)
      | DumpFails _ (Some y) => Some (Garbage y)
      | DumpFails _ None => Some (Json new)
      end /\
    (forall path, path <> CACHE_PATH -> fs st' !! path = fs st !! path).
Proof.
  intros Hfile Hexp Hnear Hw Hrt Hrefresh Hacc.
  unfold ensure_spotify_client. unfold mbind at 1, M_bind.
  rewrite read_cache_result, Hfile. run_M.
  rewrite (truthy_dict_lookup t _ _ Hexp).
  unfold dict_get at 1. rewrite Hexp. run_M.
  replace (expires_at - now e <? 60) with true by (symmetry; apply Z.ltb_lt; lia).
  rewrite Hrt, Hrefresh, (write_cache_fails _ _ _ _ _ Hw). run_M.
  rewrite (truthy_dict_lookup new _ _ Hacc). run_M.
  unfold dict_item. rewrite Hacc. eexists. split; [reflexivity|].
  cbn [fs log]. split; [rewrite <- app_assoc; reflexivity|]. split.
  - destruct w as [x|x [y|]]; [exact Hfile | |]; apply lookup_insert_eq.
  - intros path Hne. destruct w as [x|x partial]; [reflexivity|].
    apply lookup_insert_ne. congruence.
Qed.

Lemma refresh_survives_write_failure_witness :
  exists st',
    ensure_spotify_client MoreExamples.disk_full (Examples.with_cache Examples.cached_near)
      = (Ok ({| auth := JStr "A1" |}, _build_oauth, Examples.refreshed), st') /\
    log st' = log (Examples.with_cache Examples.cached_near) ++
              [RefreshToken (dict_get Examples.cached_near "refresh_token" JNull);
               WriteCache CACHE_PATH Examples.refreshed;
               Print ("Failed writing token cache: " +:+
                      str_exn (External "No space left on device"))] /\
    fs st' !! CACHE_PATH = Some (Garbage (External "Expecting value")) /\
    (forall path,
        path <> CACHE_PATH ->
        fs st' !! path = fs (Examples.with_cache Examples.cached_near) !! path).
Proof.
  refine (refresh_survives_write_failure MoreExamples.disk_full
            (Examples.with_cache Examples.cached_near) Examples.cached_near
            Examples.refreshed 1010 (JStr "A1")
            (DumpFails (External "No space left on device")
               (Some (External "Expecting value")))
            _ _ _ _ _ _ _); vm_compute; reflexivity.
Defined.

(** When the file cannot be opened the old record stays, and the next call
    refreshes it again; when the write is interrupted the record is lost,
    and the next call has to take the interactive path. *)
Example write_failure_and_the_next_call :
  fs (ensure_spotify_client MoreExamples.read_only_disk
        (Examples.with_cache Examples.cached_near)).2 !! CACHE_PATH
    = Some (Json Examples.cached_near) /\
  count is_authorization
    (log (ensure_spotify_client MoreExamples.read_only_disk
            (ensure_spotify_client MoreExamples.read_only_disk
               (Examples.with_cache Examples.cached_near)).2).2)
    = 2%nat /\
  ensure_spotify_client MoreExamples.disk_full
    (ensure_spotify_client MoreExamples.disk_full
       (Examples.with_cache Examples.cached_near)).2
  = interactive_path MoreExamples.disk_full
      {| fs := fs (ensure_spotify_client MoreExamples.disk_full
                     (Examples.with_cache Examples.cached_near)).2;
         log := log (ensure_spotify_client MoreExamples.disk_full
                       (Examples.with_cache Examples.cached_near)).2 ++
                [Print ("Failed reading token cache: " +:+
                        str_exn (External "Expecting value"))] |}.
Proof. split; [|split]; vm_compute; reflexivity. Qed.

(** ** What a successful authorization leaves behind *)

Lemma bind_Ok {A B} (m : M A) (f : A -> M B) (e : env) (st st' : state) (b : B) :
  (m ≫= f) e st = (Ok b, st') ->
  exists a st1, m e st = (Ok a, st1) /\ f a e st1 = (Ok b, st').
Proof.
  unfold mbind, M_bind. destruct (m e st) as [[a|x] st1]; [eauto | discriminate].
Qed.

(** The files after the interactive flow: the cache file holds the record
    returned, if it could be written; nothing else changes, and nothing at
    all when the flow raises. *)
Lemma run_interactive_auth_files (e : env) (st : state) :
  match run_interactive_auth e st with
  | (Ok t, st') =>
      fs st' = match write_error e with
               | None => <[CACHE_PATH := Json t]> (fs st)
               | Some (OpenFails _) => fs st
               | Some (DumpFails _ partial) => <[CACHE_PATH := left_by partial t]> (fs st)
               end
  | (Raise _, st') => fs st' = fs st
  end.
Proof.
  unfold run_interactive_auth. run_M.
  destruct (webbrowser_open e (get_authorize_url e)) as [[]|x1]; run_M; [|reflexivity].
  destruct (input e) as [line|x2]; run_M; [|reflexivity].
  destruct (truthy_opt (parse_response_code e (strip line))); run_M;
    (destruct (get_access_token e _) as [t|x3]; run_M; [|reflexivity]);
    unfold _write_cache; run_M; destruct (write_error e) as [[x4|x4 partial]|]; reflexivity.
Qed.

(** What [ensure_spotify_client] returns and leaves in the files. *)
Lemma ensure_result_coherent
    (e : env) (st st' : state) (sp : spotify) (o : oauth_client) (t : token_info) :
  ensure_spotify_client e st = (Ok (sp, o, t), st') ->
  t !! "access_token" = Some (auth sp) /\
  (write_error e = None -> fs st' !! CACHE_PATH = Some (Json t)) /\
  (forall path, path <> CACHE_PATH -> fs st' !! path = fs st !! path).
Proof.
  intros Hrun. unfold ensure_spotify_client in Hrun.
  apply bind_Ok in Hrun as (ti1 & st1 & Hread & Hrun).
  assert (H1 : cache_tells (fs st) ti1 true st1).
  { rewrite read_cache_result in Hread.
    destruct (fs st !! CACHE_PATH) as [[t0|x]|] eqn:Hfile; injection Hread as <- <-;
      split; try discriminate; try reflexivity.
    intros _ t1 Ht1. injection Ht1 as <-. exact Hfile. }
  apply bind_Ok in Hrun as (ti2 & st2 & Hrefresh & Hrun).
  assert (H2 : cache_tells (fs st) ti2 (bool_decide (write_error e = None)) st2).
  { destruct H1 as [Hcache Hother].
    assert (Hkeep : cache_tells (fs st) ti1 (bool_decide (write_error e = None)) st1).
    { split; [intros _; apply Hcache; reflexivity | exact Hother]. }
    destruct (truthy_dict ti1); [|injection Hrefresh as <- <-; exact Hkeep].
    revert Hrefresh. run_M.
    destruct (sub_int _ _) as [remaining|x]; [|discriminate]. run_M.
    destruct (remaining <? 60); [|intros H; injection H as <- <-; exact Hkeep].
    destruct (truthy _); run_M.
    - destruct (refresh_access_token e _) as [new|x]; run_M.
      + unfold _write_cache. run_M.
        destruct (write_error e) as [[x|x partial]|] eqn:Hw; run_M;
          intros H; injection H as <- <-; split; cbn [fs];
          try (intros Hfalse; discriminate Hfalse); try exact Hother;
          try (intros path Hne; rewrite lookup_insert_ne by congruence;
               apply Hother, Hne).
        intros _ t1 Ht1. injection Ht1 as <-. apply lookup_insert_eq.
      + intros H; injection H as <- <-. split; [discriminate | exact Hother].
    - intros H; injection H as <- <-. split; [discriminate | exact Hother]. }
  apply bind_Ok in Hrun as (ti3 & st3 & Hauth & Hrun).
  assert (H3 : cache_tells (fs st) ti3 (bool_decide (write_error e = None)) st3
               /\ exists t3, ti3 = Some t3).
  { destruct H2 as [Hcache Hother].
    destruct (truthy_dict ti2) eqn:Htruthy; cbn [negb] in Hauth.
    - injection Hauth as <- <-. split; [split; assumption|].
      destruct ti2 as [t2|]; [eauto | discriminate].
    - apply bind_Ok in Hauth as (t3 & st3' & Hflow & Hret). injection Hret as <- <-.
      pose proof (run_interactive_auth_files e st2) as Hfiles. rewrite Hflow in Hfiles.
      split; [|eauto]. split.
      + intros Hw t1 Ht1. injection Ht1 as <-. apply bool_decide_eq_true in Hw.
        rewrite Hfiles, Hw. apply lookup_insert_eq.
      + intros path Hne. rewrite Hfiles.
        destruct (write_error e) as [[x|x partial]|];
          rewrite ?lookup_insert_ne by congruence; apply Hother, Hne. }
  destruct H3 as ([Hcache Hother] & t3 & ->). cbn [default] in Hrun.
  revert Hrun. run_M. unfold dict_item.
  destruct (t3 !! "access_token") as [a|] eqn:Hacc; [|discriminate].
  intros H. injection H as <- <- <- <-. cbn [auth].
  split; [exact Hacc|]. split; [|exact Hother].
  intros Hw. apply Hcache; [apply bool_decide_eq_true_2, Hw | reflexivity].
Qed.

(** X12: when [ensure_spotify_client] returns, the client carries the
    access token of the record returned, and, on a disk that can be written,
    the cache file holds exactly that record: fresh, refreshed or newly
    granted; no other file is touched. *)
Theorem ensure_leaves_cache_coherent
    (e : env) (st st' : state) (sp : spotify) (o : oauth_client) (t : token_info) :
  ensure_spotify_client e st = (Ok (sp, o, t), st') ->
  t !! "access_token" = Some (auth sp) /\
  (write_error e = None -> fs st' !! CACHE_PATH = Some (Json t)) /\
  (forall path, path <> CACHE_PATH -> fs st' !! path = fs st !! path).
Proof.
  intros Hrun.
  destruct (ensure_result_coherent e st st' sp o t Hrun) as (Hacc & Hfile & Hother).
  split; [exact Hacc|]. split; [exact Hfile | exact Hother].
Qed.

Lemma ensure_leaves_cache_coherent_witness :
  Examples.refreshed !! "access_token" = Some (auth {| auth := JStr "A1" |}) /\
  (write_error Examples.online = None ->
   fs {| fs := <[CACHE_PATH := Json Examples.refreshed]>
                 (fs (Examples.with_cache Examples.cached_near));
         log := log (Examples.with_cache Examples.cached_near) ++
                [RefreshToken (dict_get Examples.cached_near "refresh_token" JNull);
                 WriteCache CACHE_PATH Examples.refreshed] |} !! CACHE_PATH
   = Some (Json Examples.refreshed)) /\
  (forall path, path <> CACHE_PATH ->
     fs {| fs := <[CACHE_PATH := Json Examples.refreshed]>
                   (fs (Examples.with_cache Examples.cached_near));
           log := log (Examples.with_cache Examples.cached_near) ++
                  [RefreshToken (dict_get Examples.cached_near "refresh_token" JNull);
                   WriteCache CACHE_PATH Examples.refreshed] |} !! path
     = fs (Examples.with_cache Examples.cached_near) !! path).
Proof.
  refine (ensure_leaves_cache_coherent Examples.online
            (Examples.with_cache Examples.cached_near) _ _ _build_oauth _ _).
  refine (ensure_refreshes Examples.online (Examples.with_cache Examples.cached_near)
            Examples.cached_near Examples.refreshed 1010 (JStr "A1") _ _ _ _ _ _ _);
    vm_compute; reflexivity.
Defined.

(** X13: once [ensure_spotify_client] has returned a record that does not
    expire within 60 seconds, and the cache file holds that record, which is
    so whenever writing the file goes through, a second call returns the
    same client and record and changes nothing: no call outside, no write.
    (When the record could not be written, the second call finds the old
    file and authorizes again: [write_failure_and_the_next_call].) *)
Theorem ensure_twice_is_silent
    (e : env) (st st' : state) (sp : spotify) (o : oauth_client) (t : token_info)
    (expires_at : Z) :
  ensure_spotify_client e st = (Ok (sp, o, t), st') ->
  t !! "expires_at" = Some (JInt expires_at) ->
  expires_at - now e >= 60 ->
  write_error e = None \/ fs st' !! CACHE_PATH = Some (Json t) ->
  ensure_spotify_client e st' = (Ok (sp, o, t), st').
Proof.
  intros Hrun Hexp Hfresh Hheld.
  destruct (ensure_result_coherent e st st' sp o t Hrun) as (Hacc & Hwritten & _).
  assert (Hfile : fs st' !! CACHE_PATH = Some (Json t)).
  { destruct Hheld as [Hw | Hfile]; [exact (Hwritten Hw) | exact Hfile]. }
  assert (Ho : o = _build_oauth).
  { revert Hrun. unfold ensure_spotify_client. intros Hrun.
    apply bind_Ok in Hrun as (? & ? & _ & Hrun).
    apply bind_Ok in Hrun as (? & ? & _ & Hrun).
    apply bind_Ok in Hrun as (? & ? & _ & Hrun).
    apply bind_Ok in Hrun as (? & ? & _ & Hrun).
    injection Hrun as _ <- _ _. reflexivity. }
  subst o. destruct sp as [a]. cbn [auth] in Hacc.
  unfold ensure_spotify_client. unfold mbind at 1, M_bind.
  rewrite read_cache_result, Hfile. run_M.
  rewrite (truthy_dict_lookup t _ _ Hexp).
  unfold dict_get at 1. rewrite Hexp. run_M.
  replace (expires_at - now e <? 60) with false by (symmetry; apply Z.ltb_ge; lia).
  rewrite (truthy_dict_lookup t _ _ Hexp). run_M.
  unfold dict_item. rewrite Hacc. reflexivity.
Qed.

Lemma ensure_twice_is_silent_witness :
  ensure_spotify_client Examples.online
    {| fs := <[CACHE_PATH := Json Examples.refreshed]>
               (fs (Examples.with_cache Examples.cached_near));
       log := log (Examples.with_cache Examples.cached_near) ++
              [RefreshToken (dict_get Examples.cached_near "refresh_token" JNull);
               WriteCache CACHE_PATH Examples.refreshed] |}
  = (Ok ({| auth := JStr "A1" |}, _build_oauth, Examples.refreshed),
     {| fs := <[CACHE_PATH := Json Examples.refreshed]>
                (fs (Examples.with_cache Examples.cached_near));
        log := log (Examples.with_cache Examples.cached_near) ++
               [RefreshToken (dict_get Examples.cached_near "refresh_token" JNull);
                WriteCache CACHE_PATH Examples.refreshed] |}).
Proof.
  refine (ensure_twice_is_silent Examples.online
            (Examples.with_cache Examples.cached_near) _ _ _ _ 4600 _ _ _ _).
  - refine (ensure_refreshes Examples.online (Examples.with_cache Examples.cached_near)
              Examples.cached_near Examples.refreshed 1010 (JStr "A1") _ _ _ _ _ _ _);
      vm_compute; reflexivity.
  - vm_compute. reflexivity.
  - vm_compute. discriminate.
  - left. reflexivity.
Defined.

(** X14: when there is no cache file and the interactive flow raises (the
    browser, the prompt or the code exchange fails), the exception leaves
    [ensure_spotify_client], and no file has been written. *)
Theorem failed_authorization_writes_nothing
    (e : env) (st st' : state) (x : exn) :
  fs st !! CACHE_PATH = None ->
  run_interactive_auth e st = (Raise x, st') ->
  ensure_spotify_client e st = (Raise x, st') /\ fs st' = fs st.
Proof.
  intros Habs Hflow. split.
  - rewrite (ensure_absent e st Habs). unfold interactive_path. run_M.
    rewrite Hflow. reflexivity.
  - pose proof (run_interactive_auth_files e st) as Hfiles.
    rewrite Hflow in Hfiles. exact Hfiles.
Qed.

Lemma failed_authorization_writes_nothing_witness :
  ensure_spotify_client MoreExamples.exchange_refused Examples.no_cache
    = (Raise (External "invalid_grant"),
       (run_interactive_auth MoreExamples.exchange_refused Examples.no_cache).2) /\
  fs (run_interactive_auth MoreExamples.exchange_refused Examples.no_cache).2
    = fs Examples.no_cache.
Proof.
  refine (failed_authorization_writes_nothing MoreExamples.exchange_refused
            Examples.no_cache _ (External "invalid_grant") _ _);
    vm_compute; reflexivity.
Defined.

(** X15: a cached record whose expiry time is not a number makes
    [ensure_spotify_client] raise the TypeError of the subtraction (with the
    message that names the type found), and a fresh record without
    access token makes it raise KeyError; in both cases nothing is called,
    printed or written. *)
Theorem malformed_record_raises
    (e : env) (st : state) (t : token_info) :
  fs st !! CACHE_PATH = Some (Json t) ->
  (forall v,
      t !! "expires_at" = Some v -> (forall n, v <> JInt n) ->
      ensure_spotify_client e st =
        (Raise (TypeError ("unsupported operand type(s) for -: '" +:+
                           type_name v +:+ "' and 'int'")), st)) /\
  (forall expires_at,
      t !! "expires_at" = Some (JInt expires_at) -> expires_at - now e >= 60 ->
      t !! "access_token" = None ->
      ensure_spotify_client e st = (Raise (KeyError "access_token"), st)).
Proof.
  intros Hfile. split.
  - intros v Hexp Hv.
    unfold ensure_spotify_client. unfold mbind at 1, M_bind.
    rewrite read_cache_result, Hfile. run_M.
    rewrite (truthy_dict_lookup t _ _ Hexp).
    unfold dict_get at 1. rewrite Hexp.
    destruct v as [|n|s]; [reflexivity | destruct (Hv n); reflexivity | reflexivity].
  - intros expires_at Hexp Hfresh Hacc.
    unfold ensure_spotify_client. unfold mbind at 1, M_bind.
    rewrite read_cache_result, Hfile. run_M.
    rewrite (truthy_dict_lookup t _ _ Hexp).
    unfold dict_get at 1. rewrite Hexp. run_M.
    replace (expires_at - now e <? 60) with false by (symmetry; apply Z.ltb_ge; lia).
    rewrite (truthy_dict_lookup t _ _ Hexp). run_M.
    unfold dict_item. rewrite Hacc. reflexivity.
Qed.

Lemma malformed_record_raises_witness :
  ensure_spotify_client Examples.online (Examples.with_cache MoreExamples.cached_bad_expiry)
    = (Raise (TypeError "unsupported operand type(s) for -: 'str' and 'int'"),
       Examples.with_cache MoreExamples.cached_bad_expiry) /\
  ensure_spotify_client Examples.online (Examples.with_cache MoreExamples.cached_no_access)
    = (Raise (KeyError "access_token"), Examples.with_cache MoreExamples.cached_no_access).
Proof.
  split.
  - refine (proj1 (malformed_record_raises Examples.online
                     (Examples.with_cache MoreExamples.cached_bad_expiry)
                     MoreExamples.cached_bad_expiry _) (JStr "soon") _ _);
      [vm_compute; reflexivity | vm_compute; reflexivity | discriminate].
  - refine (proj2 (malformed_record_raises Examples.online
                     (Examples.with_cache MoreExamples.cached_no_access)
                     MoreExamples.cached_no_access _) 4600 _ _ _);
      [vm_compute; reflexivity | vm_compute; reflexivity | vm_compute; discriminate
      | vm_compute; reflexivity].
Defined.

(** X16: a cached record without expiry time counts as expired (at any
    time after the epoch): with a refresh token it is refreshed like a record
    about to expire. *)
Theorem missing_expiry_is_expired
    (e : env) (st : state) (t new : token_info) (access : jval) :
  fs st !! CACHE_PATH = Some (Json t) ->
  t !! "expires_at" = None ->
  0 <= now e ->
  write_error e = None ->
  truthy (dict_get t "refresh_token" JNull) = true ->
  refresh_access_token e (dict_get t "refresh_token" JNull) = Ok new ->
  new !! "access_token" = Some access ->
  ensure_spotify_client e st =
    (Ok ({| auth := access |}, _build_oauth, new),
     {| fs := <[CACHE_PATH := Json new]> (fs st);
        log := log st ++ [RefreshToken (dict_get t "refresh_token" JNull);
                          WriteCache CACHE_PATH new] |}).
Proof.
  intros Hfile Hexp Hnow Hw Hrt Hrefresh Hacc.
  assert (Htruthy : truthy_dict (Some t) = true).
  { unfold dict_get in Hrt. destruct (t !! "refresh_token") as [v|] eqn:Hv;
      [eapply truthy_dict_lookup; exact Hv | discriminate]. }
  unfold ensure_spotify_client. unfold mbind at 1, M_bind.
  rewrite read_cache_result, Hfile. run_M. rewrite Htruthy.
  unfold dict_get at 1. rewrite Hexp. run_M.
  replace (0 - now e <? 60) with true by (symmetry; apply Z.ltb_lt; lia).
  rewrite Hrt, Hrefresh, (write_cache_ok _ _ _ _ Hw). run_M.
  rewrite (truthy_dict_lookup new _ _ Hacc). run_M.
  unfold dict_item. rewrite Hacc. rewrite <- app_assoc. reflexivity.
Qed.

Lemma missing_expiry_is_expired_witness :
  ensure_spotify_client Examples.online (Examples.with_cache MoreExamples.cached_no_expiry) =
    (Ok ({| auth := JStr "A1" |}, _build_oauth, Examples.refreshed),
     {| fs := <[CACHE_PATH := Json Examples.refreshed]>
                (fs (Examples.with_cache MoreExamples.cached_no_expiry));
        log := log (Examples.with_cache MoreExamples.cached_no_expiry) ++
               [RefreshToken (dict_get MoreExamples.cached_no_expiry "refresh_token" JNull);
                WriteCache CACHE_PATH Examples.refreshed] |}).
Proof.
  refine (missing_expiry_is_expired Examples.online
            (Examples.with_cache MoreExamples.cached_no_expiry)
            MoreExamples.cached_no_expiry Examples.refreshed (JStr "A1") _ _ _ _ _ _ _);
    vm_compute; first [reflexivity | discriminate].
Defined.

(** ** The dispatcher, whatever happens *)

Lemma start_playback_blocks (sp : spotify) (oauth : option oauth_client)
    (t : token_info) (uri : string) :
  start_playback sp oauth t uri =
    try_except
      ('(client, _) ← fresh_client sp oauth t; play_on_device client uri)
      (fun x =>
         print2 "API playback failed:" (str_exn x);;
         fallback_launch uri;;
         mret false).
Proof. reflexivity. Qed.

Lemma try_bind {A B} (m : M A) (f : A -> M B) (h : exn -> M B)
    (e : env) (st : state) :
  try_except (m ≫= f) h e st =
    match m e st with
    | (Ok a, st1) => try_except (f a) h e st1
    | (Raise x, st1) => h x e st1
    end.
Proof.
  unfold try_except, mbind, M_bind. destruct (m e st) as [[a|x] st1]; reflexivity.
Qed.

Lemma state_eta (st : state) : {| fs := fs st; log := log st ++ [] |} = st.
Proof. rewrite app_nil_r. destruct st; reflexivity. Qed.

Lemma count_zero_not_in (l : list event) (dev uri : string) :
  count is_start_playback l = 0%nat -> StartPlayback dev uri ∉ l.
Proof.
  unfold count. induction l as [|ev l IH]; intros Hcount Hin.
  - inversion Hin.
  - apply elem_of_cons in Hin as [<- | Hin]; [discriminate Hcount|].
    cbn in Hcount. destruct (is_start_playback ev); [discriminate Hcount|].
    exact (IH Hcount Hin).
Qed.

(** The first part obtains the client of [playback_client], or raises as
    it does, without a start-playback call or a launch. *)
Lemma fresh_client_spec (e : env) (st : state) (sp : spotify)
    (oauth : option oauth_client) (t : token_info) (uri : string) :
  exists files notices,
    count is_start_playback notices = 0%nat /\
    count (is_launch uri) notices = 0%nat /\
    match playback_client e sp oauth t with
    | Ok client =>
        exists t',
          fresh_client sp oauth t e st =
            (Ok (client, t'), {| fs := files; log := log st ++ notices |})
    | Raise x =>
        fresh_client sp oauth t e st =
          (Raise x, {| fs := files; log := log st ++ notices |})
    end.
Proof.
  unfold fresh_client, playback_client.
  destruct oauth as [o|]; run_M.
  2: { exists (fs st), []. rewrite state_eta. repeat split. eexists. reflexivity. }
  destruct (is_token_expired e t) as [[|]|x]; run_M.
  2,3: exists (fs st), []; rewrite state_eta; repeat split; eexists; reflexivity.
  destruct (dict_item t "refresh_token") as [r|x]; run_M.
  2: { exists (fs st), []. rewrite state_eta. repeat split. }
  destruct (refresh_access_token e r) as [new|x]; run_M.
  2: { eexists _, _. split; [|split]; [| |reflexivity]; reflexivity. }
  destruct (write_error e) as [w|] eqn:Hw;
    [rewrite (write_cache_fails _ _ _ _ _ Hw) | rewrite (write_cache_ok _ _ _ _ Hw)];
    run_M; (destruct (dict_item new "access_token") as [a|x]; run_M);
    cbn [fs log]; rewrite <- ?app_assoc;
    (eexists _, _; (split; [|split]); [| |try eexists; reflexivity]; reflexivity).
Qed.

Lemma settles_unique (e : env) (client : spotify) (dev dev' : string) :
  settles e client dev -> settles e client dev' -> dev = dev'.
Proof.
  intros (ds & d & Hds & Hch & Hid & _) (ds' & d' & Hds' & Hch' & Hid' & _).
  rewrite Hds in Hds'. injection Hds' as <-.
  pose proof (chooses_unique ds _ _ Hch Hch') as Heq. injection Heq as <-.
  rewrite Hid in Hid'. injection Hid' as <-. reflexivity.
Qed.

(** The second part makes the start-playback call exactly when the
    dispatcher settles on a device with an id, and else raises without a
    call. *)
Lemma play_on_device_spec (e : env) (st : state) (client : spotify) (uri : string) :
  (exists dev,
      settles e client dev /\
      play_on_device client uri e st =
        (match api_start_playback e client dev uri with
         | Ok _ => Ok true
         | Raise x => Raise x
         end,
         {| fs := fs st; log := log st ++ [Devices; StartPlayback dev uri] |}))
  \/
  ((forall dev, ~ settles e client dev) /\
   exists x notices,
     play_on_device client uri e st =
       (Raise x, {| fs := fs st; log := log st ++ notices |}) /\
     count is_start_playback notices = 0%nat /\
     count (is_launch uri) notices = 0%nat).
Proof.
  destruct (api_devices e client) as [ds|y] eqn:Hds.
  - destruct (get_active_device_id_ok e st client ds Hds) as (choice & Hch & Hget).
    assert (Hnot : (forall dev, (d ← choice; id d) = Some dev -> truthy_str dev = false) ->
                   forall dev', ~ settles e client dev').
    { intros Hno dev' (ds' & d' & Hds' & Hch' & Hid' & Htr').
      rewrite Hds in Hds'. injection Hds' as <-.
      rewrite (chooses_unique ds _ _ Hch Hch') in Hno.
      rewrite (Hno dev' Hid') in Htr'. discriminate. }
    unfold play_on_device. run_M. rewrite Hget. clear Hget.
    destruct choice as [d|]; cbn in Hnot |- *;
      [destruct (id d) as [dev|] eqn:Hid; [destruct (truthy_str dev) eqn:Htr|]|];
      run_M.
    + left. exists dev. split; [exists ds, d; repeat split; assumption|].
      destruct (api_start_playback e client dev uri) as [[]|x];
        cbn [fs log]; rewrite <- ?app_assoc; reflexivity.
    + right. split.
      * apply Hnot. intros dev0 Heq. injection Heq as <-. exact Htr.
      * eexists _, _. split; [reflexivity|]. split; reflexivity.
    + right. split.
      * apply Hnot. intros dev0 Heq. discriminate.
      * eexists _, _. split; [reflexivity|]. split; reflexivity.
    + right. split.
      * apply Hnot. intros dev0 Heq. discriminate.
      * eexists _, _. split; [reflexivity|]. split; reflexivity.
  - right. split.
    + intros dev (ds' & d' & Hds' & _). rewrite Hds in Hds'. discriminate.
    + unfold play_on_device, get_active_device_id. run_M. rewrite Hds. run_M.
      eexists _, _. split; [rewrite <- app_assoc; reflexivity|]. split; reflexivity.
Qed.

Lemma calls_api_iff (e : env) (sp : spotify) (oauth : option oauth_client)
    (t : token_info) (client : spotify) (dev : string) :
  playback_client e sp oauth t = Ok client ->
  settles e client dev ->
  forall dev', calls_api e sp oauth t dev' <-> dev' = dev.
Proof.
  intros Hclient Hset dev'. split.
  - intros (client' & Hclient' & Hset').
    rewrite Hclient in Hclient'. injection Hclient' as <-.
    exact (settles_unique e client dev' dev Hset' Hset).
  - intros ->. exists client. split; assumption.
Qed.

Lemma call_in_log (pre post : list event) (dev uri dev' : string) :
  count is_start_playback pre = 0%nat ->
  count is_start_playback post = 0%nat ->
  StartPlayback dev' uri ∈ pre ++ [Devices; StartPlayback dev uri] ++ post <-> dev' = dev.
Proof.
  intros Hpre Hpost. rewrite !elem_of_app, !elem_of_cons. split.
  - intros [Hin | [[Heq | [Heq | Hin]] | Hin]].
    + destruct (count_zero_not_in _ _ _ Hpre Hin).
    + discriminate Heq.
    + injection Heq as ->. reflexivity.
    + inversion Hin.
    + destruct (count_zero_not_in _ _ _ Hpost Hin).
  - intros ->. right. left. right. left. reflexivity.
Qed.

(** The runs of [start_playback], by what the world answers. *)
Lemma start_playback_cases
    (e : env) (st : state) (sp : spotify) (oauth : option oauth_client)
    (t : token_info) (uri : string) :
  exists (played : bool) files added,
    start_playback sp oauth t uri e st =
      (Ok played, {| fs := files; log := log st ++ added |}) /\
    (played = true <-> exists dev, plays_via_api e sp oauth t uri dev) /\
    (forall dev, StartPlayback dev uri ∈ added <-> calls_api e sp oauth t dev) /\
    count (is_launch uri) added = (if played then 0 else 1)%nat /\
    (count is_start_playback added <= 1)%nat /\
    (played = true -> exists dev, last added = Some (StartPlayback dev uri)).
Proof.
  rewrite start_playback_blocks, try_bind.
  destruct (fresh_client_spec e st sp oauth t uri) as (files & n1 & Hc1 & Hl1 & Hfresh).
  destruct (playback_client e sp oauth t) as [client|x] eqn:Hclient.
  - destruct Hfresh as [t' ->]. cbv beta iota.
    destruct (play_on_device_spec e {| fs := files; log := log st ++ n1 |} client uri)
      as [(dev & Hset & Hplay) | (Hnone & x & n2 & Hplay & Hc2 & Hl2)].
    + unfold try_except at 1. rewrite Hplay.
      destruct (api_start_playback e client dev uri) as [[]|x] eqn:Hcall.
      * exists true, files, (n1 ++ [Devices; StartPlayback dev uri] ++ []).
        cbn [fs log]. rewrite app_nil_r, <- app_assoc.
        split; [reflexivity|]. split; [|split; [|split; [|split]]].
        -- split; [intros _|reflexivity].
           exists dev, client. repeat split; assumption.
        -- intros dev'. rewrite (calls_api_iff e sp oauth t client dev Hclient Hset).
           rewrite <- (app_nil_r [Devices; StartPlayback dev uri]).
           apply call_in_log; [exact Hc1 | reflexivity].
        -- rewrite count_app, Hl1. reflexivity.
        -- rewrite count_app, Hc1. cbn. lia.
        -- intros _. exists dev.
           change [Devices; StartPlayback dev uri] with ([Devices] ++ [StartPlayback dev uri]).
           rewrite app_assoc. apply last_snoc.
      * run_M.
        match goal with
        | |- context [fallback_launch uri e ?s] =>
            destruct (fallback_launch_spec uri e s) as (af & -> & Hcf & Hlf)
        end.
        cbn [fs log]. rewrite <- !app_assoc.
        eexists false, _, _. split; [reflexivity|].
        split; [|split; [|split; [|split]]].
        -- split; [discriminate|]. intros (dev' & client' & Hclient' & Hset' & Hcall').
           rewrite Hclient in Hclient'. injection Hclient' as <-.
           rewrite (settles_unique e client dev' dev Hset' Hset) in Hcall'.
           rewrite Hcall in Hcall'. discriminate.
        -- intros dev'. rewrite (calls_api_iff e sp oauth t client dev Hclient Hset).
           apply call_in_log; [exact Hc1|].
           unfold count in *. cbn. exact Hcf.
        -- rewrite !count_app, Hl1. unfold count in *. cbn. exact Hlf.
        -- rewrite !count_app, Hc1. unfold count in *. cbn. rewrite Hcf. lia.
        -- discriminate.
    + unfold try_except at 1. rewrite Hplay. run_M.
      match goal with
      | |- context [fallback_launch uri e ?s] =>
          destruct (fallback_launch_spec uri e s) as (af & -> & Hcf & Hlf)
      end.
      cbn [fs log]. rewrite <- !app_assoc.
      eexists false, _, _. split; [reflexivity|].
      split; [|split; [|split; [|split]]].
      * split; [discriminate|]. intros (dev' & client' & Hclient' & Hset' & _).
        rewrite Hclient in Hclient'. injection Hclient' as <-.
        destruct (Hnone dev' Hset').
      * intros dev'. split.
        -- intros Hin. exfalso. revert Hin. apply count_zero_not_in.
           rewrite !count_app, Hc1, Hc2. unfold count in *. cbn. exact Hcf.
        -- intros (client' & Hclient' & Hset').
           rewrite Hclient in Hclient'. injection Hclient' as <-.
           destruct (Hnone dev' Hset').
      * rewrite !count_app, Hl1, Hl2. unfold count in *. cbn. exact Hlf.
      * rewrite !count_app, Hc1, Hc2. unfold count in *. cbn. rewrite Hcf. lia.
      * discriminate.
  - rewrite Hfresh. run_M.
    match goal with
    | |- context [fallback_launch uri e ?s] =>
        destruct (fallback_launch_spec uri e s) as (af & -> & Hcf & Hlf)
    end.
    cbn [fs log]. rewrite <- !app_assoc.
    eexists false, _, _. split; [reflexivity|].
    split; [|split; [|split; [|split]]].
    + split; [discriminate|]. intros (dev' & client' & Hclient' & _).
      rewrite Hclient in Hclient'. discriminate.
    + intros dev'. split.
      * intros Hin. exfalso. revert Hin. apply count_zero_not_in.
        rewrite !count_app, Hc1. unfold count in *. cbn. exact Hcf.
      * intros (client' & Hclient' & _). rewrite Hclient in Hclient'. discriminate.
    + rewrite !count_app, Hl1. unfold count in *. cbn. exact Hlf.
    + rewrite !count_app, Hc1. unfold count in *. cbn. rewrite Hcf. lia.
    + discriminate.
Qed.

(** X17: [start_playback] never raises. It returns True exactly when the
    start-playback call is made and goes through: a client is obtained (the
    one given, or one for the refreshed token when the token is reported as
    expired), the dispatcher settles with it on a device that has an id, and
    the API accepts the call on that device. The call is made, on that
    device, exactly when the first two hold, and at most once. When True is
    returned the call is the last event and nothing is launched outside the
    API; in every other case False is returned after entering the launch
    outside the API exactly once. *)
Theorem start_playback_outcomes
    (e : env) (st : state) (sp : spotify) (oauth : option oauth_client)
    (t : token_info) (uri : string) :
  exists (played : bool) files added,
    start_playback sp oauth t uri e st =
      (Ok played, {| fs := files; log := log st ++ added |}) /\
    (played = true <-> exists dev, plays_via_api e sp oauth t uri dev) /\
    (forall dev, StartPlayback dev uri ∈ added <-> calls_api e sp oauth t dev) /\
    count (is_launch uri) added = (if played then 0 else 1)%nat /\
    (count is_start_playback added <= 1)%nat /\
    (played = true -> exists dev, last added = Some (StartPlayback dev uri)).
Proof.
  destruct (start_playback_cases e st sp oauth t uri)
    as (played & files & added & Hrun & Hplayed & Hcall & Hlaunch & Hcalls & Hlast).
  exists played, files, added. repeat split; try assumption.
  - apply Hplayed.
  - apply Hplayed.
  - apply Hcall.
  - apply Hcall.
Qed.

(** A call that the API refuses: it is made, the result is False, and the
    playlist is launched outside the API. *)
Example refused_call_falls_back :
  start_playback {| auth := JStr "A0" |} (Some _build_oauth) Examples.cached_fresh
    "spotify:playlist:37i9dQZF1DXdPec7aLTmlC" MoreExamples.premium_required
    Examples.no_cache
  = (Ok false,
     {| fs := ∅;
        log := [Devices; StartPlayback "dev1" "spotify:playlist:37i9dQZF1DXdPec7aLTmlC";
                Print "API playback failed: 403 Premium required";
                Startfile "spotify:playlist:37i9dQZF1DXdPec7aLTmlC"] |}).
Proof. vm_compute. reflexivity. Qed.

Example playback_via_api :
  start_playback {| auth := JStr "A0" |} (Some _build_oauth) Examples.cached_fresh
    "spotify:playlist:37i9dQZF1DXdPec7aLTmlC" Examples.online Examples.no_cache
  = (Ok true,
     {| fs := ∅;
        log := [Devices; StartPlayback "dev1" "spotify:playlist:37i9dQZF1DXdPec7aLTmlC"] |}).
Proof. vm_compute. reflexivity. Qed.

(** ** The launch outside the API *)

Lemma colon_in_app (s id : string) :
  ":"%char ∈ String.list_ascii_of_string (s +:+ ":" +:+ id).
Proof.
  induction s as [|c s IH].
  - change (":"%char ∈ ":"%char :: String.list_ascii_of_string id).
    apply list_elem_of_here.
  - change (":"%char ∈ c :: String.list_ascii_of_string (s +:+ ":" +:+ id)).
    apply list_elem_of_further. exact IH.
Qed.

(** [split(":")[-1]] gives what follows the last colon. *)
Lemma last_segment_app (s id : string) :
  ":"%char ∉ String.list_ascii_of_string id ->
  last_segment (s +:+ ":" +:+ id) = id.
Proof.
  intros Hid. induction s as [|c s IH].
  - change (last_segment (String ":" id) = id). cbn [last_segment].
    rewrite bool_decide_eq_false_2 by exact Hid.
    rewrite bool_decide_eq_true_2 by reflexivity. reflexivity.
  - change (last_segment (String c (s +:+ ":" +:+ id)) = id). cbn [last_segment].
    rewrite bool_decide_eq_true_2 by apply colon_in_app. exact IH.
Qed.

(** X18: for a playlist URI "spotify:playlist:<id>" the launch outside the
    API tries the URI handler of the operating system first, the shell only
    when the handler raises, and the browser only when both raise, then with
    the URL "https://open.spotify.com/playlist/<id>"; the first step that
    goes through ends the launch. *)
Theorem launch_cascade (e : env) (st : state) (id : string) :
  ":"%char ∉ String.list_ascii_of_string id ->
  (os_startfile e ("spotify:playlist:" +:+ id) = Ok tt ->
   fallback_launch ("spotify:playlist:" +:+ id) e st =
     (Ok tt, {| fs := fs st;
                log := log st ++ [Startfile ("spotify:playlist:" +:+ id)] |})) /\
  (forall x,
      os_startfile e ("spotify:playlist:" +:+ id) = Raise x ->
      subprocess_run e ("spotify:playlist:" +:+ id) = Ok tt ->
      fallback_launch ("spotify:playlist:" +:+ id) e st =
        (Ok tt, {| fs := fs st;
                   log := log st ++ [Startfile ("spotify:playlist:" +:+ id);
                                     CmdStart ("spotify:playlist:" +:+ id)] |})) /\
  (forall x y,
      os_startfile e ("spotify:playlist:" +:+ id) = Raise x ->
      subprocess_run e ("spotify:playlist:" +:+ id) = Raise y ->
      webbrowser_open e ("https://open.spotify.com/playlist/" +:+ id) = Ok tt ->
      fallback_launch ("spotify:playlist:" +:+ id) e st =
        (Ok tt, {| fs := fs st;
                   log := log st ++
                          [Startfile ("spotify:playlist:" +:+ id);
                           CmdStart ("spotify:playlist:" +:+ id);
                           OpenBrowser ("https://open.spotify.com/playlist/" +:+ id)] |})).
Proof.
  intros Hid.
  assert (Hlast : last_segment ("spotify:playlist:" +:+ id) = id).
  { apply (last_segment_app "spotify:playlist" id Hid). }
  assert (Hpl : startswith ("spotify:playlist:" +:+ id) "spotify:playlist:" = true).
  { change ("spotify:playlist:" +:+ id)
      with (String.append "spotify:playlist" (String ":" id)).
    destruct id; reflexivity. }
  unfold fallback_launch. rewrite Hpl, Hlast. run_M.
  split; [|split].
  - intros ->. reflexivity.
  - intros x -> ->. run_M. rewrite <- app_assoc. reflexivity.
  - intros x y -> -> ->. run_M. rewrite <- !app_assoc. reflexivity.
Qed.

Lemma launch_cascade_witness :
  fallback_launch ("spotify:playlist:" +:+ "37i9dQZF1DXdPec7aLTmlC")
    MoreExamples.exchange_refused Examples.no_cache =
    (Ok tt,
     {| fs := fs Examples.no_cache;
        log := log Examples.no_cache ++
               [Startfile ("spotify:playlist:" +:+ "37i9dQZF1DXdPec7aLTmlC");
                CmdStart ("spotify:playlist:" +:+ "37i9dQZF1DXdPec7aLTmlC");
                OpenBrowser ("https://open.spotify.com/playlist/" +:+
                             "37i9dQZF1DXdPec7aLTmlC")] |}).
Proof.
  refine (proj2 (proj2 (launch_cascade MoreExamples.exchange_refused Examples.no_cache
                          "37i9dQZF1DXdPec7aLTmlC" _))
            (External "no startfile") (External "no cmd") eq_refl eq_refl eq_refl).
  vm_compute. intros H. repeat (apply elem_of_cons in H as [H | H]; [discriminate H|]).
  inversion H.
Defined.

(** ** The capture action, whatever happens *)

Lemma playlist_is_truthy (emotion uri : string) :
  get_playlist_for_emotion emotion = Some uri -> truthy_str uri = true.
Proof.
  intros H. destruct (playlists_entry _ _ H) as (_ & Huri & _).
  destruct uri; [discriminate Huri | reflexivity].
Qed.

(** X19: the capture action never raises, and it ends the loop exactly
    when the session has an emotion with a playlist and the credential is
    obtained (playback is then attempted, through the API or outside it);
    in every other case the loop goes on. *)
Theorem capture_outcomes (s : session) (e : env) (st : state) :
  exists c st',
    capture s e st = (Ok c, st') /\
    (c = Break <->
     exists emotion uri r st1,
       current_emotion s = Some emotion /\
       get_playlist_for_emotion emotion = Some uri /\
       ensure_spotify_client e
         {| fs := fs st;
            log := log st ++
                   [Print ("Captured emotion: " +:+ emotion +:+ " (conf " +:+
                           fmt_2f (current_conf s) +:+ ")");
                    Lookup emotion] |} = (Ok r, st1)).
Proof.
  unfold capture. destruct (current_emotion s) as [emotion|] eqn:Hemotion; run_M.
  - destruct (get_playlist_for_emotion emotion) as [uri|] eqn:Hget; cbn [truthy_opt].
    + rewrite (playlist_is_truthy emotion uri Hget). cbn [negb default].
      unfold dispatch. run_M. rewrite <- app_assoc. cbn [app].
      destruct (ensure_spotify_client e _) as [[[[sp oauth] t]|x] st1] eqn:Hensure; run_M.
      * destruct (start_playback sp (Some oauth) t uri e st1) as [[[|]|y] st2]; run_M;
          eexists _, _; (split; [reflexivity|]);
          (split; [intros _; exists emotion, uri; eauto | reflexivity]).
      * eexists _, _. split; [reflexivity|]. split; [discriminate|].
        intros (emotion' & uri' & r & st1' & Hem & _ & Hens).
        injection Hem as <-. rewrite Hensure in Hens. discriminate.
    + cbn [negb]. run_M. eexists _, _. split; [reflexivity|]. split; [discriminate|].
      intros (emotion' & uri' & r & st1' & Hem & Hget' & _).
      injection Hem as <-. rewrite Hget in Hget'. discriminate.
  - eexists _, _. split; [reflexivity|]. split; [discriminate|].
    intros (emotion' & uri' & r & st1' & Hem & _). discriminate.
Qed.

Example capture_with_refused_authorization :
  capture {| current_emotion := Some "happy"; current_conf := 0.9%Q |}
    MoreExamples.exchange_refused Examples.no_cache
  = (Ok Continue,
     {| fs := ∅;
        log := [Print "Captured emotion: happy (conf 0.90)";
                Lookup "happy"] ++
               removelast (interactive_events MoreExamples.exchange_refused
                             " http://localhost:8888/callback?code=abc " ∅) ++
               [Print "Spotify authorization failed: invalid_grant";
                Print "If you want to re-auth manually, press 'r' and try again."] |}).
Proof. vm_compute. reflexivity. Qed.

(** ** The main loop *)

Lemma iteration_idle (m : model) (fc : cascade) (fr : frame) (key : Z)
    (s : session) (e : env) (st : state) :
  ids_nonneg m -> key <> 27 -> key <> 114 -> key <> 113 ->
  exists out,
    detect_and_draw fr m fc 640 CONFIDENCE 0.45%Q = Ok out /\
    iteration m fc (Some fr, key) s e st =
      (Ok (Continue, track s (dominant_emotion out) (dominant_conf out)),
       {| fs := fs st;
          log := log st ++
                 [Imshow "Emotion Recommender - press q to capture"
                    (draw (PutText
                             (status_line (track s (dominant_emotion out) (dominant_conf out)))
                             (10, 30) 0.85%Q (255, 255, 255) 2)
                       (dd_frame out))] |}).
Proof.
  intros Hids Hesc Hr Hq.
  destruct (detect_and_draw_returns fr m fc 640 CONFIDENCE 0.45%Q Hids) as [out Hout].
  exists out. split; [exact Hout|].
  unfold iteration. run_M. rewrite Hout.
  rewrite (proj2 (Z.eqb_neq key 27) Hesc), (proj2 (Z.eqb_neq key 114) Hr),
    (proj2 (Z.eqb_neq key 113) Hq).
  reflexivity.
Qed.

Lemma main_loop_cons (m : model) (fc : cascade) (tick : option frame * Z)
    (ticks : list (option frame * Z)) (s : session) (e : env) (st : state) :
  main_loop m fc (tick :: ticks) s e st =
    match iteration m fc tick s e st with
    | (Ok (Continue, s'), st') => main_loop m fc ticks s' e st'
    | (Ok (Break, s'), st') => (Ok s', st')
    | (Raise x, st') => (Raise x, st')
    end.
Proof.
  cbn [main_loop]. unfold mbind, M_bind.
  destruct (iteration m fc tick s e st) as [[[[|] s']|x] st']; reflexivity.
Qed.

(** Idle passes: the loop goes on, the files stay, and what follows runs
    from the session and state reached. *)
Lemma main_loop_idle (m : model) (fc : cascade) :
  ids_nonneg m ->
  forall (ticks : list (option frame * Z)) (s : session) (e : env) (st : state),
  Forall idle_tick ticks ->
  exists s' st',
    main_loop m fc ticks s e st = (Ok s', st') /\
    fs st' = fs st /\
    (Forall (shows_nothing m fc) ticks -> s' = s) /\
    forall rest, main_loop m fc (ticks ++ rest) s e st = main_loop m fc rest s' e st'.
Proof.
  intros Hids. induction ticks as [|tick ticks IH]; intros s e st Hidle.
  - exists s, st. repeat split; reflexivity.
  - inversion Hidle as [|? ? (fr & key & -> & Hesc & Hr & Hq) Hrest]; subst.
    destruct (iteration_idle m fc fr key s e st Hids Hesc Hr Hq) as (out & Hout & Hstep).
    destruct (IH (track s (dominant_emotion out) (dominant_conf out)) e
                 {| fs := fs st;
                    log := log st ++
                      [Imshow "Emotion Recommender - press q to capture"
                         (draw (PutText
                                  (status_line
                                     (track s (dominant_emotion out) (dominant_conf out)))
                                  (10, 30) 0.85%Q (255, 255, 255) 2)
                            (dd_frame out))] |} Hrest)
      as (s' & st' & Hloop & Hfs & Hsame & Happ).
    exists s', st'. rewrite main_loop_cons, Hstep.
    split; [exact Hloop|]. split; [exact Hfs|]. split.
    + intros Hnothing.
      inversion Hnothing as [|? ? Hhead Hrest']; subst.
      destruct Hhead as (fr' & key' & out' & Heq & Hout' & Hnone).
      injection Heq as <- <-. rewrite Hout in Hout'. injection Hout' as <-.
      rewrite (Hsame Hrest'). unfold track. rewrite Hnone. reflexivity.
    + intros rest. cbn [app]. rewrite main_loop_cons, Hstep. apply Happ.
Qed.

(** X20: while no key of the program is pressed, the loop only shows the
    frames: it touches no file, and it ends with the session on the most
    recent frame that showed an emotion, with that frame's label and
    confidence, however many frames without emotion followed. *)
Theorem session_holds_last_emotion
    (m : model) (fc : cascade) (before after : list (option frame * Z))
    (fr : frame) (key : Z) (out : dd_state) (name : string)
    (s : session) (e : env) (st : state) :
  ids_nonneg m ->
  Forall idle_tick (before ++ (Some fr, key) :: after) ->
  detect_and_draw fr m fc 640 CONFIDENCE 0.45%Q = Ok out ->
  dominant_emotion out = Some name ->
  Forall (shows_nothing m fc) after ->
  exists st',
    main_loop m fc (before ++ (Some fr, key) :: after) s e st =
      (Ok {| current_emotion := Some name; current_conf := dominant_conf out |}, st') /\
    fs st' = fs st.
Proof.
  intros Hids Hidle Hout Hname Hafter.
  apply Forall_app in Hidle as [Hbefore Hrest].
  inversion Hrest as [|? ? Hhead Hidle_after]; subst.
  destruct Hhead as (fr' & key' & Heq & Hesc & Hr & Hq).
  injection Heq as <- <-.
  destruct (main_loop_idle m fc Hids before s e st Hbefore)
    as (s1 & st1 & _ & Hfs1 & _ & Happ).
  rewrite Happ, main_loop_cons.
  destruct (iteration_idle m fc fr key s1 e st1 Hids Hesc Hr Hq) as (out' & Hout' & Hstep).
  rewrite Hout in Hout'. injection Hout' as <-. rewrite Hstep.
  destruct (main_loop_idle m fc Hids after
              (track s1 (dominant_emotion out) (dominant_conf out)) e
              {| fs := fs st1;
                 log := log st1 ++
                   [Imshow "Emotion Recommender - press q to capture"
                      (draw (PutText
                               (status_line
                                  (track s1 (dominant_emotion out) (dominant_conf out)))
                               (10, 30) 0.85%Q (255, 255, 255) 2)
                         (dd_frame out))] |} Hidle_after)
    as (s2 & st2 & Hloop & Hfs2 & Hsame & _).
  exists st2. rewrite Hloop, (Hsame Hafter). split; [|cbn in Hfs2; congruence].
  f_equal. f_equal.
  destruct (detect_and_draw_dominant fr m fc 640 CONFIDENCE 0.45%Q Hids)
    as (out' & rs & Hout' & Hdom).
  rewrite Hout in Hout'. injection Hout' as <-.
  unfold track. rewrite Hname.
  destruct Hdom as [(Hnone & _) | (i & c & name' & _ & Hname' & Hsome & _)].
  - rewrite Hname in Hnone. discriminate.
  - rewrite Hname in Hsome. injection Hsome as <-.
    cbn [truthy_opt]. rewrite (name_or_truthy c name Hname'). reflexivity.
Qed.

Lemma first_image_model_ids : ids_nonneg Examples.first_image_model.
Proof.
  intros src imgsz conf iou d Hd. cbn in Hd.
  destruct (pixels _ =? 0)%N; cbn in Hd;
    [apply elem_of_cons in Hd as [-> | Hd]; [vm_compute; discriminate|]|];
    inversion Hd.
Qed.

Lemma session_holds_last_emotion_witness :
  exists out,
    detect_and_draw (Examples.image 0) Examples.first_image_model Examples.one_face
      640 CONFIDENCE 0.45%Q = Ok out /\
    exists st',
      main_loop Examples.first_image_model Examples.one_face
        ([] ++ (Some (Examples.image 0), 255) ::
               [(Some (Examples.image 1), 255); (Some (Examples.image 2), 255)])
        initial_session Examples.online Examples.no_cache =
        (Ok {| current_emotion := Some "happy"; current_conf := dominant_conf out |}, st') /\
      fs st' = fs Examples.no_cache.
Proof.
  eexists. split; [reflexivity|].
  apply (session_holds_last_emotion Examples.first_image_model Examples.one_face
           [] [(Some (Examples.image 1), 255); (Some (Examples.image 2), 255)]
           (Examples.image 0) 255).
  - apply first_image_model_ids.
  - repeat constructor; eexists _, _; (split; [reflexivity|]); repeat split; discriminate.
  - reflexivity.
  - reflexivity.
  - repeat constructor; eexists _, _, _; (split; [reflexivity|]); split; reflexivity.
Defined.

(** A failed read and the ESC key end the loop, unless the aggregator
    raises first. *)
Lemma iteration_final (m : model) (fc : cascade) (tick : option frame * Z)
    (s : session) (e : env) (st : state) :
  final_tick tick ->
  forall s' st', iteration m fc tick s e st <> (Ok (Continue, s'), st').
Proof.
  intros [[key ->] | [fr ->]] s' st'; unfold iteration; run_M; [discriminate|].
  destruct (detect_and_draw fr m fc 640 CONFIDENCE 0.45%Q); discriminate.
Qed.

(** X21: nothing is processed after a failed read of the camera or after
    the ESC key: the passes that would follow change neither the result nor
    the state. *)
Theorem nothing_after_the_end
    (m : model) (fc : cascade) (ticks rest : list (option frame * Z))
    (tick : option frame * Z) (s : session) (e : env) (st : state) :
  final_tick tick ->
  main_loop m fc (ticks ++ tick :: rest) s e st = main_loop m fc (ticks ++ [tick]) s e st.
Proof.
  intros Hfinal. revert s st. induction ticks as [|t ticks IH]; intros s st.
  - cbn [app]. rewrite !main_loop_cons.
    pose proof (iteration_final m fc tick s e st Hfinal) as Hstop.
    destruct (iteration m fc tick s e st) as [[[[|] s']|x] st']; try reflexivity.
    destruct (Hstop s' st'). reflexivity.
  - cbn [app]. rewrite !main_loop_cons.
    destruct (iteration m fc t s e st) as [[[[|] s']|x] st']; try reflexivity.
    apply IH.
Qed.

Lemma nothing_after_the_end_witness :
  main_loop Examples.first_image_model Examples.one_face
    ([(Some (Examples.image 0), 255)] ++ (Some (Examples.image 1), 27) ::
       [(Some (Examples.image 0), 113)])
    initial_session Examples.online Examples.no_cache
  = main_loop Examples.first_image_model Examples.one_face
      ([(Some (Examples.image 0), 255)] ++ [(Some (Examples.image 1), 27)])
      initial_session Examples.online Examples.no_cache.
Proof.
  apply (nothing_after_the_end Examples.first_image_model Examples.one_face
           [(Some (Examples.image 0), 255)] [(Some (Examples.image 0), 113)]
           (Some (Examples.image 1), 27)).
  right. eexists. reflexivity.
Defined.

(** A pass raises only what the aggregator raised for its frame, and then
    before anything is shown, whatever the key. *)
Lemma iteration_raises (m : model) (fc : cascade) (tick : option frame * Z)
    (s : session) (e : env) (st st' : state) (x : exn) :
  iteration m fc tick s e st = (Raise x, st') ->
  exists fr key,
    tick = (Some fr, key) /\
    detect_and_draw fr m fc 640 CONFIDENCE 0.45%Q = Raise x /\
    st' = st.
Proof.
  destruct tick as [[fr|] key]; unfold iteration; run_M; [|discriminate].
  destruct (detect_and_draw fr m fc 640 CONFIDENCE 0.45%Q) as [out|y] eqn:Hout; run_M.
  2: { intros [= <- <-]. exists fr, key. rewrite Hout. repeat split. }
  destruct (key =? 27); run_M; [discriminate|].
  destruct (key =? 114); run_M.
  { match goal with
    | |- context [force_reauth e ?s0] =>
        destruct (force_reauth_total e s0) as [s1 ->]
    end.
    discriminate. }
  destruct (key =? 113); run_M; [|discriminate].
  match goal with
  | |- context [capture ?s0 e ?s1] =>
      destruct (capture_total s0 e s1) as (c & s2 & ->)
  end.
  discriminate.
Qed.

(** X22: the only exceptions that leave the loop are the aggregator's. An
    exception of [detect_and_draw] is not caught: it ends the loop at that
    frame, before the frame is shown, whatever key is pressed and whatever
    would follow. Nothing else raises: a loop that ends with an exception
    ends with the one the aggregator raised for one of its frames, and the
    failures of the capture and re-auth actions never leave it. *)
Theorem only_aggregator_exceptions_leave_loop
    (m : model) (fc : cascade) (ticks : list (option frame * Z))
    (s : session) (e : env) (st st' : state) (x : exn) :
  main_loop m fc ticks s e st = (Raise x, st') ->
  exists before fr key rest,
    ticks = before ++ (Some fr, key) :: rest /\
    detect_and_draw fr m fc 640 CONFIDENCE 0.45%Q = Raise x /\
    (exists s0, main_loop m fc before s e st = (Ok s0, st')) /\
    forall key' rest',
      main_loop m fc (before ++ (Some fr, key') :: rest') s e st = (Raise x, st').
Proof.
  revert s st. induction ticks as [|tick ticks IH]; intros s st Hloop.
  - discriminate.
  - rewrite main_loop_cons in Hloop.
    destruct (iteration m fc tick s e st) as [[[[|] s1]|y] st1] eqn:Hstep.
    + destruct (IH s1 st1 Hloop) as (before & fr & key & rest & -> & Hraise & [s0 Hpre] & Hany).
      exists (tick :: before), fr, key, rest.
      split; [reflexivity|]. split; [exact Hraise|]. split.
      * exists s0. rewrite main_loop_cons, Hstep. exact Hpre.
      * intros key' rest'. cbn [app]. rewrite main_loop_cons, Hstep. apply Hany.
    + discriminate.
    + injection Hloop as <- <-.
      destruct (iteration_raises m fc tick s e st st1 y Hstep) as (fr & key & -> & Hraise & ->).
      exists [], fr, key, ticks.
      split; [reflexivity|]. split; [exact Hraise|]. split.
      * exists s. reflexivity.
      * intros key' rest'. cbn [app]. rewrite main_loop_cons.
        unfold iteration. run_M. rewrite Hraise. reflexivity.
Qed.

Lemma only_aggregator_exceptions_leave_loop_witness :
  exists before fr key rest,
    [(Some (Examples.image 0), 114); (Some (Examples.image 1), 113);
     (Some (Examples.image 0), 255)] = before ++ (Some fr, key) :: rest /\
    detect_and_draw fr MoreExamples.flaky_model Examples.one_face
      640 CONFIDENCE 0.45%Q = Raise IndexError /\
    (exists s0,
        main_loop MoreExamples.flaky_model Examples.one_face before
          initial_session Examples.online Examples.no_cache
        = (Ok s0,
           (main_loop MoreExamples.flaky_model Examples.one_face
              [(Some (Examples.image 0), 114); (Some (Examples.image 1), 113);
             (Some (Examples.image 0), 255)]
              initial_session Examples.online Examples.no_cache).2)) /\
    forall key' rest',
      main_loop MoreExamples.flaky_model Examples.one_face
        (before ++ (Some fr, key') :: rest')
        initial_session Examples.online Examples.no_cache
      = (Raise IndexError,
         (main_loop MoreExamples.flaky_model Examples.one_face
            [(Some (Examples.image 0), 114); (Some (Examples.image 1), 113);
             (Some (Examples.image 0), 255)]
            initial_session Examples.online Examples.no_cache).2).
Proof.
  refine (only_aggregator_exceptions_leave_loop
            MoreExamples.flaky_model Examples.one_face
            [(Some (Examples.image 0), 114); (Some (Examples.image 1), 113);
             (Some (Examples.image 0), 255)]
            initial_session Examples.online Examples.no_cache _ IndexError _).
  vm_compute. reflexivity.
Defined.

Example exception_after_a_sound_frame :
  main_loop MoreExamples.flaky_model Examples.one_face
    [(Some (Examples.image 0), 114); (Some (Examples.image 1), 113);
     (Some (Examples.image 0), 255)]
    initial_session Examples.online (Examples.with_cache Examples.cached_fresh)
  = (Raise IndexError,
     (main_loop MoreExamples.flaky_model Examples.one_face
        [(Some (Examples.image 0), 114)]
        initial_session Examples.online (Examples.with_cache Examples.cached_fresh)).2).
Proof. vm_compute. reflexivity. Qed.

(** X23: the 'r' key removes the cache file and goes on with the loop: it
    starts no authorization, no look-up and no playback (only the display,
    the console and the removal appear in the log), and the session is
    tracked as in any other pass. *)
Theorem reauth_key_only_clears
    (m : model) (fc : cascade) (fr : frame) (out : dd_state)
    (s : session) (e : env) (st : state) :
  detect_and_draw fr m fc 640 CONFIDENCE 0.45%Q = Ok out ->
  exists st' added,
    iteration m fc (Some fr, 114) s e st =
      (Ok (Continue, track s (dominant_emotion out) (dominant_conf out)), st') /\
    log st' = log st ++ added /\
    forallb is_quiet added = true /\
    (remove_error e = None -> fs st' !! CACHE_PATH = None) /\
    (forall path, path <> CACHE_PATH -> fs st' !! path = fs st !! path).
Proof.
  intros Hout. unfold iteration. run_M. rewrite Hout. run_M.
  match goal with
  | |- context [force_reauth e ?s0] =>
      pose proof (force_reauth_present e s0) as Hpresent;
      pose proof (force_reauth_absent e s0) as Habsent
  end.
  cbn [fs log] in Hpresent, Habsent.
  destruct (fs st !! CACHE_PATH) as [f|] eqn:Hfile.
  - rewrite (Hpresent f eq_refl).
    destruct (remove_error e) as [x|]; cbn [fs log]; rewrite <- !app_assoc;
      eexists _, _; (split; [reflexivity|]); cbn [fs log];
      (split; [reflexivity|]); (split; [reflexivity|]); split.
    + discriminate.
    + reflexivity.
    + intros _. apply lookup_delete_eq.
    + intros path Hne. apply lookup_delete_ne. congruence.
  - rewrite (Habsent eq_refl). cbn [fs log]. rewrite <- !app_assoc.
    eexists _, _. split; [reflexivity|]. cbn [fs log].
    split; [reflexivity|]. split; [reflexivity|]. split; [intros _; exact Hfile | reflexivity].
Qed.

Lemma reauth_key_only_clears_witness :
  exists out,
    detect_and_draw (Examples.image 0) Examples.first_image_model Examples.one_face
      640 CONFIDENCE 0.45%Q = Ok out /\
    exists st' added,
      iteration Examples.first_image_model Examples.one_face (Some (Examples.image 0), 114)
        initial_session Examples.online (Examples.with_cache Examples.cached_fresh) =
        (Ok (Continue, track initial_session (dominant_emotion out) (dominant_conf out)),
         st') /\
      log st' = log (Examples.with_cache Examples.cached_fresh) ++ added /\
      forallb is_quiet added = true /\
      (remove_error Examples.online = None -> fs st' !! CACHE_PATH = None) /\
      (forall path, path <> CACHE_PATH ->
         fs st' !! path = fs (Examples.with_cache Examples.cached_fresh) !! path).
Proof.
  eexists. split; [reflexivity|].
  apply (reauth_key_only_clears Examples.first_image_model Examples.one_face
           (Examples.image 0)).
  reflexivity.
Defined.

(** ** Devices and expired tokens *)

(** X24: the dispatcher does not look further than the device it settles
    on: when that device has no id (or an empty one), no start-playback call
    is made, even if other devices are listed with an id, and the playlist is
    launched outside the API. *)
Theorem device_without_id_falls_back
    (e : env) (st : state) (sp : spotify) (o : oauth_client) (t : token_info)
    (uri : string) (ds : list device) (d : device) :
  is_token_expired e t = Ok false ->
  api_devices e sp = Ok ds ->
  chooses ds (Some d) ->
  match id d with Some dev => truthy_str dev = false | None => True end ->
  exists added,
    start_playback sp (Some o) t uri e st =
      (Ok false,
       {| fs := fs st;
          log := log st ++
                 [Devices; Print "API playback failed: No active Spotify device found"] ++
                 added |}) /\
    count is_start_playback added = 0%nat /\
    count (is_launch uri) added = 1%nat.
Proof.
  intros Hexp Hds Hchoice Hid.
  destruct (get_active_device_id_ok e st sp ds Hds) as (choice & Hchoice' & Hget).
  rewrite (chooses_unique ds choice (Some d) Hchoice' Hchoice) in Hget.
  cbn in Hget.
  unfold start_playback. run_M. rewrite Hexp. run_M. rewrite Hget.
  destruct (id d) as [dev|]; [rewrite Hid|]; run_M;
    match goal with
    | |- context [fallback_launch uri e ?s] =>
        destruct (fallback_launch_spec uri e s) as (added & -> & Hapi & Hlaunch)
    end;
    cbn [fs log]; rewrite <- !app_assoc; exists added; repeat split; assumption.
Qed.

Lemma device_without_id_falls_back_witness :
  exists added,
    start_playback {| auth := JStr "A0" |} (Some _build_oauth) Examples.cached_fresh
      "spotify:playlist:37i9dQZF1DXdPec7aLTmlC"
      MoreExamples.unnamed_device Examples.no_cache =
      (Ok false,
       {| fs := fs Examples.no_cache;
          log := log Examples.no_cache ++
                 [Devices; Print "API playback failed: No active Spotify device found"] ++
                 added |}) /\
    count is_start_playback added = 0%nat /\
    count (is_launch "spotify:playlist:37i9dQZF1DXdPec7aLTmlC") added = 1%nat.
Proof.
  refine (device_without_id_falls_back MoreExamples.unnamed_device Examples.no_cache
            {| auth := JStr "A0" |} _build_oauth Examples.cached_fresh _
            [ {| id := Some "dev0"; is_active := false |};
              {| id := None; is_active := true |};
              {| id := Some "dev2"; is_active := true |} ]
            {| id := None; is_active := true |} eq_refl eq_refl _ I).
  apply (chooses_active _ 1%nat); [reflexivity | reflexivity|].
  intros [|j] d' Hj Hd'; [injection Hd' as <-; reflexivity | lia].
Defined.

(** X25: with a token that the OAuth client reports as expired,
    [start_playback] first refreshes it with the record's refresh token and
    writes the new record to the cache file; the devices are then listed and
    playback started with the client of the new access token. *)
Theorem expired_token_is_refreshed_before_playback
    (e : env) (st : state) (sp : spotify) (o : oauth_client) (t new : token_info)
    (uri : string) (refresh access : jval) (ds : list device) (d : device) (dev : string) :
  is_token_expired e t = Ok true ->
  t !! "refresh_token" = Some refresh ->
  refresh_access_token e refresh = Ok new ->
  write_error e = None ->
  new !! "access_token" = Some access ->
  api_devices e {| auth := access |} = Ok ds ->
  chooses ds (Some d) ->
  id d = Some dev ->
  truthy_str dev = true ->
  api_start_playback e {| auth := access |} dev uri = Ok tt ->
  start_playback sp (Some o) t uri e st =
    (Ok true,
     {| fs := <[CACHE_PATH := Json new]> (fs st);
        log := log st ++ [RefreshToken refresh; WriteCache CACHE_PATH new;
                          Devices; StartPlayback dev uri] |}).
Proof.
  intros Hexp Hrt Hrefresh Hw Hacc Hds Hchoice Hid Hdev Hplay.
  unfold start_playback. run_M. rewrite Hexp. run_M.
  unfold dict_item at 1. rewrite Hrt. run_M.
  rewrite Hrefresh, (write_cache_ok _ _ _ _ Hw). run_M.
  unfold dict_item. rewrite Hacc. run_M.
  match goal with
  | |- context [get_active_device_id ?c e ?s] =>
      destruct (get_active_device_id_ok e s c ds Hds) as (choice & Hchoice' & Hget)
  end.
  rewrite (chooses_unique ds choice (Some d) Hchoice' Hchoice) in Hget.
  cbn in Hget. rewrite Hid in Hget. rewrite Hget, Hdev. run_M.
  rewrite Hplay, <- !app_assoc. reflexivity.
Qed.

Lemma expired_token_is_refreshed_before_playback_witness :
  start_playback {| auth := JStr "A0" |} (Some _build_oauth) Examples.cached_near
    "spotify:playlist:37i9dQZF1DXdPec7aLTmlC"
    MoreExamples.token_expired (Examples.with_cache Examples.cached_near) =
    (Ok true,
     {| fs := <[CACHE_PATH := Json Examples.refreshed]>
                (fs (Examples.with_cache Examples.cached_near));
        log := log (Examples.with_cache Examples.cached_near) ++
               [RefreshToken (JStr "R0"); WriteCache CACHE_PATH Examples.refreshed;
                Devices; StartPlayback "dev1" "spotify:playlist:37i9dQZF1DXdPec7aLTmlC"] |}).
Proof.
  refine (expired_token_is_refreshed_before_playback MoreExamples.token_expired
            (Examples.with_cache Examples.cached_near) _ _build_oauth
            Examples.cached_near Examples.refreshed _ (JStr "R0") (JStr "A1")
            [ {| id := Some "dev1"; is_active := true |} ]
            {| id := Some "dev1"; is_active := true |} "dev1"
            eq_refl _ eq_refl eq_refl _ eq_refl _ eq_refl eq_refl eq_refl).
  - vm_compute. reflexivity.
  - vm_compute. reflexivity.
  - apply (chooses_active _ 0%nat); [reflexivity | reflexivity | intros j d' Hj; lia].
Defined.

(** ** One playback per run *)

Lemma adds_ret {A} (a : A) : adds_upto 0 (mret a : M A).
Proof. intros e st. exists []. rewrite app_nil_r. split; [reflexivity | cbn; lia]. Qed.

Lemma adds_raise {A} (x : exn) : adds_upto 0 (raise x : M A).
Proof. intros e st. exists []. rewrite app_nil_r. split; [reflexivity | cbn; lia]. Qed.

Lemma adds_lift {A} (r : result A) : adds_upto 0 (lift r).
Proof. intros e st. exists []. rewrite app_nil_r. split; [reflexivity | cbn; lia]. Qed.

Lemma adds_ask {A} (f : env -> A) : adds_upto 0 (ask f).
Proof. intros e st. exists []. rewrite app_nil_r. split; [reflexivity | cbn; lia]. Qed.

Lemma adds_get_fs : adds_upto 0 get_fs.
Proof. intros e st. exists []. rewrite app_nil_r. split; [reflexivity | cbn; lia]. Qed.

Lemma adds_set_fs (g : gmap string file) : adds_upto 0 (set_fs g).
Proof. intros e st. exists []. rewrite app_nil_r. split; [reflexivity | cbn; lia]. Qed.

Lemma adds_emit (ev : event) : is_start_playback ev = false -> adds_upto 0 (emit ev).
Proof.
  intros Hev e st. exists [ev]. split; [reflexivity|].
  unfold count. cbn. rewrite Hev. cbn. lia.
Qed.

Lemma adds_print (line : string) : adds_upto 0 (print line).
Proof. apply adds_emit. reflexivity. Qed.

Lemma adds_print2 (a b : string) : adds_upto 0 (print2 a b).
Proof. apply adds_emit. reflexivity. Qed.

Lemma adds_bind {A B} (n1 n2 : nat) (m : M A) (f : A -> M B) :
  adds_upto n1 m -> (forall a, adds_upto n2 (f a)) -> adds_upto (n1 + n2) (m ≫= f).
Proof.
  intros Hm Hf e st. destruct (Hm e st) as (added1 & Hlog1 & Hn1).
  unfold mbind, M_bind. destruct (m e st) as [[a|x] st1]; cbn [snd] in *.
  - destruct (Hf a e st1) as (added2 & Hlog2 & Hn2).
    destruct (f a e st1) as [r st2]; cbn [snd] in *.
    exists (added1 ++ added2). rewrite Hlog2, Hlog1, <- app_assoc.
    split; [reflexivity|]. rewrite count_app. lia.
  - exists added1. split; [exact Hlog1 | lia].
Qed.

Lemma adds_bind0 {A B} (m : M A) (f : A -> M B) :
  adds_upto 0 m -> (forall a, adds_upto 0 (f a)) -> adds_upto 0 (m ≫= f).
Proof. apply (adds_bind 0 0). Qed.

Lemma adds_try {A} (n1 n2 : nat) (m : M A) (h : exn -> M A) :
  adds_upto n1 m -> (forall x, adds_upto n2 (h x)) -> adds_upto (n1 + n2) (try_except m h).
Proof.
  intros Hm Hh e st. destruct (Hm e st) as (added1 & Hlog1 & Hn1).
  unfold try_except. destruct (m e st) as [[a|x] st1]; cbn [snd] in *.
  - exists added1. split; [exact Hlog1 | lia].
  - destruct (Hh x e st1) as (added2 & Hlog2 & Hn2).
    destruct (h x e st1) as [r st2]; cbn [snd] in *.
    exists (added1 ++ added2). rewrite Hlog2, Hlog1, <- app_assoc.
    split; [reflexivity|]. rewrite count_app. lia.
Qed.

Lemma adds_try0 {A} (m : M A) (h : exn -> M A) :
  adds_upto 0 m -> (forall x, adds_upto 0 (h x)) -> adds_upto 0 (try_except m h).
Proof. apply (adds_try 0 0). Qed.

Lemma adds_weaken {A} (n n' : nat) (m : M A) :
  (n <= n')%nat -> adds_upto n m -> adds_upto n' m.
Proof.
  intros Hle Hm e st. destruct (Hm e st) as (added & Hlog & Hn).
  exists added. split; [exact Hlog | lia].
Qed.

(** Builds the proof that a computation makes no start-playback call from
    its steps. *)
Ltac adds0 :=
  repeat first
    [ apply adds_ret | apply adds_raise | apply adds_lift | apply adds_ask
    | apply adds_get_fs | apply adds_set_fs | apply adds_print | apply adds_print2
    | apply adds_emit; reflexivity
    | apply adds_bind0; [|intros ?]
    | apply adds_try0; [|intros ?]
    | match goal with
      | |- adds_upto 0 (if ?b then _ else _) => destruct b
      | |- adds_upto 0 (match ?x with _ => _ end) => destruct x
      end ].

Lemma adds_write_cache (path : string) (t : token_info) :
  adds_upto 0 (_write_cache path t).
Proof. unfold _write_cache. adds0. Qed.

Lemma adds_read_cache (path : string) : adds_upto 0 (_read_cache path).
Proof. unfold _read_cache. adds0. Qed.

Lemma adds_run_interactive_auth : adds_upto 0 run_interactive_auth.
Proof. unfold run_interactive_auth. cbv zeta. adds0; apply adds_write_cache. Qed.

Lemma adds_ensure : adds_upto 0 ensure_spotify_client.
Proof.
  unfold ensure_spotify_client. cbv zeta.
  adds0; first [apply adds_read_cache | apply adds_write_cache
               | apply adds_run_interactive_auth].
Qed.

Lemma adds_force_reauth : adds_upto 0 force_reauth.
Proof. unfold force_reauth. adds0. Qed.

Lemma adds_start_playback (sp : spotify) (oauth : option oauth_client)
    (t : token_info) (uri : string) :
  adds_upto 1 (start_playback sp oauth t uri).
Proof.
  intros e st.
  destruct (start_playback_cases e st sp oauth t uri)
    as (played & files & added & -> & _ & _ & _ & Hn & _).
  exists added. split; [reflexivity | exact Hn].
Qed.

(** The capture action makes a start-playback call at most once, and none
    when the loop goes on after it. *)
Lemma capture_plays_once (s : session) (e : env) (st : state) :
  exists added,
    log (capture s e st).2 = log st ++ added /\
    (count is_start_playback added <= 1)%nat /\
    ((capture s e st).1 = Ok Continue -> count is_start_playback added = 0%nat).
Proof.
  unfold capture. destruct (current_emotion s) as [emotion|]; run_M.
  2: { eexists. split; [reflexivity|]. cbn. split; [lia | reflexivity]. }
  destruct (negb (truthy_opt (get_playlist_for_emotion emotion))); run_M.
  { rewrite <- !app_assoc. eexists. split; [reflexivity|]. cbn. split; [lia | reflexivity]. }
  unfold dispatch. run_M.
  match goal with
  | |- context [ensure_spotify_client e ?s0] =>
      destruct (adds_ensure e s0) as (added1 & Hlog1 & Hn1);
      destruct (ensure_spotify_client e s0) as [[[[sp oauth] t]|x] st1]
  end; cbn [snd log] in Hlog1; run_M.
  - destruct (adds_start_playback sp (Some oauth) t
                (default "" (get_playlist_for_emotion emotion)) e st1)
      as (added2 & Hlog2 & Hn2).
    destruct (start_playback _ _ _ _ e st1) as [[[|]|y] st2]; cbn [snd] in Hlog2; run_M;
      rewrite Hlog2, Hlog1, <- !app_assoc; eexists; (split; [reflexivity|]);
      rewrite !count_app; cbn; (split; [lia | discriminate]).
  - rewrite Hlog1, <- !app_assoc. eexists. split; [reflexivity|].
    rewrite !count_app. cbn. split; lia.
Qed.

Lemma iteration_plays_once (m : model) (fc : cascade) (tick : option frame * Z)
    (s : session) (e : env) (st : state) :
  exists added,
    log (iteration m fc tick s e st).2 = log st ++ added /\
    (count is_start_playback added <= 1)%nat /\
    (forall s', (iteration m fc tick s e st).1 = Ok (Continue, s') ->
                count is_start_playback added = 0%nat).
Proof.
  destruct tick as [[fr|] key]; unfold iteration; run_M.
  2: { eexists. split; [reflexivity|]. cbn. split; [lia | reflexivity]. }
  destruct (detect_and_draw fr m fc 640 CONFIDENCE 0.45%Q) as [out|x]; run_M.
  2: { exists []. rewrite app_nil_r. split; [reflexivity|]. cbn. split; [lia | reflexivity]. }
  destruct (key =? 27); run_M.
  { rewrite <- !app_assoc. eexists. split; [reflexivity|]. cbn. split; [lia | reflexivity]. }
  destruct (key =? 114); run_M.
  { match goal with
    | |- context [force_reauth e ?s0] =>
        destruct (adds_force_reauth e s0) as (added1 & Hlog1 & Hn1);
        destruct (force_reauth e s0) as [[[]|x] st1]
    end; cbn [snd log] in Hlog1; run_M;
      rewrite Hlog1, <- !app_assoc; eexists; (split; [reflexivity|]);
      rewrite !count_app; cbn; split; lia. }
  destruct (key =? 113); run_M.
  - match goal with
    | |- context [capture ?s0 e ?st0] =>
        destruct (capture_plays_once s0 e st0) as (added1 & Hlog1 & Hn1 & Hgo);
        destruct (capture s0 e st0) as [[c|x] st1]
    end; cbn [fst snd log] in Hlog1, Hgo; run_M;
      rewrite Hlog1, <- !app_assoc; eexists; (split; [reflexivity|]);
      rewrite !count_app; cbn; (split; [lia|]).
    + intros s' Hc. injection Hc as -> _. rewrite Hgo by reflexivity. reflexivity.
    + discriminate.
  - eexists. split; [reflexivity|]. cbn. split; [lia | reflexivity].
Qed.

(** X26: however long the loop runs and whatever keys are pressed, it
    makes at most one start-playback call: a capture that reaches playback
    ends the loop. *)
Theorem at_most_one_playback
    (m : model) (fc : cascade) (ticks : list (option frame * Z))
    (s : session) (e : env) (st : state) :
  exists added,
    log (main_loop m fc ticks s e st).2 = log st ++ added /\
    (count is_start_playback added <= 1)%nat.
Proof.
  revert s st. induction ticks as [|tick ticks IH]; intros s st.
  - exists []. rewrite app_nil_r. split; [reflexivity | cbn; lia].
  - rewrite main_loop_cons.
    destruct (iteration_plays_once m fc tick s e st) as (added1 & Hlog1 & Hn1 & Hgo).
    destruct (iteration m fc tick s e st) as [[[[|] s']|x] st1]; cbn [fst snd] in *.
    + destruct (IH s' st1) as (added2 & Hlog2 & Hn2).
      exists (added1 ++ added2). rewrite Hlog2, Hlog1, <- app_assoc.
      split; [reflexivity|]. rewrite count_app, (Hgo s' eq_refl). exact Hn2.
    + exists added1. split; assumption.
    + exists added1. split; assumption.
Qed.

Example two_captures_one_playback :
  exists st',
    main_loop Examples.first_image_model Examples.one_face
      [(Some (Examples.image 0), 113); (Some (Examples.image 0), 113)]
      initial_session Examples.online (Examples.with_cache Examples.cached_fresh)
    = (Ok {| current_emotion := Some "happy"; current_conf := 0.9%Q |}, st') /\
    count is_start_playback (log st') = 1%nat.
Proof. eexists. split; vm_compute; reflexivity. Qed.
